(** * Temporal cognition core: scheduler, estimator and memory index

    A shallow embedding of the TypeScript sources
    [src/engines/priority-scheduler.ts], [src/engines/task-estimator.ts],
    [src/utils/confidence.ts], [src/utils/time-math.ts] (formatDuration,
    formatDurationRange, timeUntilDeadline, isTimeInRange,
    exponentialDecay), [src/managers/temporal-memory.ts],
    [src/engines/temporal-translator.ts] (formatDeadlineContext,
    formatRelativeTime) and the constants they import.

    Number model.  A JavaScript [number] is modelled by its mathematical
    value: rationals ([Q]) where the source only adds, multiplies, divides,
    compares and rounds, so that the definitions compute; reals ([R]) where
    the source calls [Math.exp], [Math.sqrt] or [Math.pow].  Rounding error
    of IEEE doubles is not modelled.  The two places where the source can
    leave the normal numbers on reachable inputs are modelled with the
    explicit values of [jsnum]: the quotient taken in calculateVariance
    ([NaN], [Inf]), and the weights of calculateConfidence, where
    [Math.exp] returns 0 for an old entry and Infinity for one dated far
    in the future.  Integer quantities (timestamps, counters, rounded
    durations, priorities) are [Z].

    Object model.  The active tasks and the memory index are plain
    objects read with [m[k]]; a name that is no key but is inherited from
    [Object.prototype] is found too.  The methods that test [m[k]] for
    truth are modelled with that case made explicit ([inherited],
    [Outcome]).

    Clock model.  [Date.now()] is an input: every operation takes the
    reading [now]; the readings taken inside one synchronous call are
    identified.  Random id suffixes and the md5 digest are inputs too. *)

From Stdlib Require Import ZArith QArith Qround Bool List String Ascii.
From Stdlib Require Import DecimalString Permutation Sorted Lia.
From Stdlib Require Import Reals Qreals Lra Lqa.
From Stdlib Require Import Qabs.
Import ListNotations.

(** ** Shared pieces *)

(** constants.ts *)
Definition MS_PER_SECOND : Z := 1000.
Definition MS_PER_MINUTE : Z := 60000.
Definition MS_PER_HOUR : Z := 3600000.
Definition MS_PER_DAY : Z := 86400000.

Inductive TaskCategory :=
| research | coding | writing | analysis | communication
| scheduling | file_operations | web_browsing | other.

Inductive TaskComplexity :=
| trivial | simple | moderate | complex | highly_complex.

Definition TaskCategory_eqb (a b : TaskCategory) : bool :=
  match a, b with
  | research, research | coding, coding | writing, writing
  | analysis, analysis | communication, communication
  | scheduling, scheduling | file_operations, file_operations
  | web_browsing, web_browsing | other, other => true
  | _, _ => false
  end.

Definition TaskComplexity_eqb (a b : TaskComplexity) : bool :=
  match a, b with
  | trivial, trivial | simple, simple | moderate, moderate
  | complex, complex | highly_complex, highly_complex => true
  | _, _ => false
  end.

(** interface DurationEstimate; [num] is the number model of the fields
    that are not integers by construction. *)
Record DurationEstimate (num : Type) := mkEstimate {
  minimumMs : num;
  expectedMs : num;
  maximumMs : num;
  confidence : num;
  basedOnSamples : Z;
  est_category : TaskCategory;
  est_complexity : TaskComplexity
}.
Arguments mkEstimate {num}.
Arguments minimumMs {num}.
Arguments expectedMs {num}.
Arguments maximumMs {num}.
Arguments confidence {num}.
Arguments basedOnSamples {num}.
Arguments est_category {num}.
Arguments est_complexity {num}.

(** [n.toString()] of an integer. *)
Definition show_Z (z : Z) : string := NilZero.string_of_int (Z.to_int z).

(** [Array.prototype.sort(cmp)] is a stable sort.  [before x y] says
    [cmp(x, y) <= 0]: [x] need not move behind [y].  The result of a
    stable sort is unique, so insertion from the right models it. *)
Section StableSort.
Context {A : Type} (before : A -> A -> bool).

Fixpoint sort_insert (x : A) (l : list A) : list A :=
  match l with
  | [] => [x]
  | y :: l' => if before x y then x :: y :: l' else y :: sort_insert x l'
  end.

Fixpoint js_sort (l : list A) : list A :=
  match l with
  | [] => []
  | x :: l' => sort_insert x (js_sort l')
  end.
End StableSort.

(** A plain JavaScript object used as a map from string keys: an
    association list in insertion order, which is the order of
    [Object.keys] and [Object.values] (the keys of this program are never
    array indices).  Well-formed maps have distinct keys. *)
Section ObjectMap.
Context {V : Type}.

Definition obj := list (string * V).

(** [m[k]] *)
Fixpoint obj_get (k : string) (m : obj) : option V :=
  match m with
  | [] => None
  | (k', v) :: m' => if String.eqb k' k then Some v else obj_get k m'
  end.

(** [m[k] = v]: an existing key keeps its place, a new key goes last. *)
Fixpoint obj_set (k : string) (v : V) (m : obj) : obj :=
  match m with
  | [] => [(k, v)]
  | (k', v') :: m' =>
      if String.eqb k' k then (k', v) :: m' else (k', v') :: obj_set k v m'
  end.

(** [delete m[k]] *)
Definition obj_delete (k : string) (m : obj) : obj :=
  filter (fun kv => negb (String.eqb (fst kv) k)) m.

Definition obj_keys (m : obj) : list string := map fst m.
Definition obj_values (m : obj) : list V := map snd m.

(** [if (m[k]) { ... m[k] mutated by f ... }] *)
Fixpoint obj_modify (k : string) (f : V -> V) (m : obj) : obj :=
  match m with
  | [] => []
  | (k', v) :: m' =>
      if String.eqb k' k then (k', f v) :: m' else (k', v) :: obj_modify k f m'
  end.
(** Maps whose values carry their own key: distinct keys, every value
stored under the name [idOf] gives it. *)
Definition wfObj (idOf : V -> string) (m : obj) : Prop :=
NoDup (obj_keys m) /\ forall k v, In (k, v) m -> idOf v = k.
End ObjectMap.
Arguments obj V : clear implicits.

(** The maps of this program are plain objects ([{}], or parsed JSON), so
    [m[k]] also finds what every object inherits from [Object.prototype]:
    for one of the names below that is not a key of [m] it is the inherited
    member, a function (for [__proto__] the prototype itself), which is
    truthy and is no value of the map. *)
Definition inheritedNames : list string :=
  [ "constructor"; "__defineGetter__"; "__defineSetter__"; "hasOwnProperty";
    "__lookupGetter__"; "__lookupSetter__"; "isPrototypeOf";
    "propertyIsEnumerable"; "toString"; "valueOf"; "__proto__";
    "toLocaleString" ]%string.

Definition inherited (k : string) : bool := existsb (String.eqb k) inheritedNames.

(** The outcome of a method that looks a key up with [m[k]] and goes on
    when the value is truthy.  [Typed a]: the method worked on the map and
    returned [a].  [OnMember]: the name was no key but is inherited, and
    the method went on with the inherited member in the place of a stored
    value; what the source then does is said at each method. *)
Inductive Outcome (A : Type) :=
| Typed (a : A)
| OnMember.
Arguments Typed {A} a.
Arguments OnMember {A}.

(** [Math.round] on a rational: nearest integer, ties towards +infinity. *)
Definition Math_round (q : Q) : Z := Qfloor (q + (1 # 2)).

Definition Math_min (a b : Q) : Q := if Qle_bool a b then a else b.
Definition Math_max (a b : Q) : Q := if Qle_bool a b then b else a.

(** ** Priority scheduler (priority-scheduler.ts) *)
Module Scheduler.
Local Open Scope Z_scope.

Inductive TaskStatus :=
| pending | in_progress | completed | deferred | cancelled.

Definition is_pending (s : TaskStatus) : bool :=
  match s with pending => true | _ => false end.

Record ScheduledTask := mkTask {
  id : string;
  title : string;
  description : option string;
  deadline : option Z;
  estimatedDuration : DurationEstimate Q;
  priority : Z;
  urgency : Q;
  importance : Q;
  status : TaskStatus;
  createdAt : Z;
  updatedAt : Z;
  completedAt : option Z;
  channel : option string;
  sessionId : option string;
  tags : list string
}.

Record AddTaskInput := mkInput {
  in_title : string;
  in_description : option string;
  in_deadline : option Z;
  in_estimatedDuration : DurationEstimate Q;
  in_urgency : Q;
  in_importance : Q;
  in_tags : list string;
  in_channel : option string;
  in_sessionId : option string
}.

(** Required<PrioritySchedulerConfig> *)
Record Config := mkConfig {
  enabled : bool;
  urgencyWeight : Q;
  importanceWeight : Q;
  effortWeight : Q;
  deadlineProximityWeight : Q
}.

(** The defaults filled in by the constructor. *)
Definition defaultConfig : Config :=
  mkConfig true 0.4%Q 0.3%Q 0.2%Q 0.1%Q.

(** state.scheduledTasks *)
Definition Store := list ScheduledTask.

Definition set_priority (p : Z) (t : ScheduledTask) : ScheduledTask :=
  mkTask (id t) (title t) (description t) (deadline t) (estimatedDuration t)
         p (urgency t) (importance t) (status t) (createdAt t) (updatedAt t)
         (completedAt t) (channel t) (sessionId t) (tags t).

(** The deadline tiers of calculatePriority.  [if (deadline)] is false for
    an absent deadline and for the number 0. *)
Definition deadlineScore (now : Z) (expected : Q) (dl : option Z) : Q :=
  match dl with
  | None => 0.5%Q
  | Some d =>
      if d =? 0 then 0.5%Q
      else
        let timeUntilDeadline := d - now in
        if timeUntilDeadline <=? 0 then 1.0%Q
        else if negb (Qle_bool expected (inject_Z timeUntilDeadline)) then 0.95%Q
        else if timeUntilDeadline <? MS_PER_HOUR then 0.9%Q
        else if timeUntilDeadline <? MS_PER_HOUR * 4 then 0.8%Q
        else if timeUntilDeadline <? MS_PER_DAY then 0.6%Q
        else 0.3%Q
  end.

Definition weightedScore (cfg : Config) (now : Z) (t : ScheduledTask) : Q :=
  (let urgencyScore := urgency t / 100 in
   let importanceScore := importance t / 100 in
   let maxDuration := inject_Z MS_PER_DAY in
   let effortScore :=
     1 - Math_min 1 (expectedMs (estimatedDuration t) / maxDuration) in
   let dScore :=
     deadlineScore now (expectedMs (estimatedDuration t)) (deadline t) in
   (urgencyScore * urgencyWeight cfg
    + importanceScore * importanceWeight cfg
    + effortScore * effortWeight cfg
    + dScore * deadlineProximityWeight cfg) * 100)%Q.

Definition calculatePriority (cfg : Config) (now : Z) (t : ScheduledTask) : Z :=
  Math_round (Math_min 100 (Math_max 0 (weightedScore cfg now t))).

(** comparator [(a, b) => b.priority - a.priority] *)
Definition byPriorityDesc (a b : ScheduledTask) : bool :=
  priority b - priority a <=? 0.

Definition sortTasks (s : Store) : Store := js_sort byPriorityDesc s.

Definition refreshOne (cfg : Config) (now : Z) (t : ScheduledTask) : ScheduledTask :=
  if is_pending (status t) then set_priority (calculatePriority cfg now t) t else t.

Definition refreshPriorities (cfg : Config) (now : Z) (s : Store) : Store :=
  sortTasks (map (refreshOne cfg now) s).

(** addTask: [rnd] is the random suffix of the id. *)
Definition addTask (cfg : Config) (now : Z) (rnd : string)
           (input : AddTaskInput) (s : Store) : ScheduledTask * Store :=
  let id := ("sched_" ++ show_Z now ++ "_" ++ rnd)%string in
  let task0 :=
    mkTask id (in_title input) (in_description input) (in_deadline input)
           (in_estimatedDuration input) 0 (in_urgency input)
           (in_importance input) pending now now None
           (in_channel input) (in_sessionId input) (in_tags input) in
  let task := set_priority (calculatePriority cfg now task0) task0 in
  (task, sortTasks (s ++ [task])).

(** In-place mutation of the object returned by
    [find(t => t.id === taskId)]: the first task with that id. *)
Fixpoint updateFirst (tid : string) (f : ScheduledTask -> ScheduledTask)
         (s : Store) : option ScheduledTask * Store :=
  match s with
  | [] => (None, [])
  | t :: s' =>
      if String.eqb (id t) tid then (Some (f t), f t :: s')
      else let (r, s'') := updateFirst tid f s' in (r, t :: s'')
  end.

Definition is_completed (s : TaskStatus) : bool :=
  match s with completed => true | _ => false end.

Definition updateTaskStatus (now : Z) (tid : string) (st : TaskStatus)
           (s : Store) : option ScheduledTask * Store :=
  updateFirst tid
    (fun t =>
       mkTask (id t) (title t) (description t) (deadline t)
              (estimatedDuration t) (priority t) (urgency t) (importance t)
              st (createdAt t) now
              (if is_completed st then Some now else completedAt t)
              (channel t) (sessionId t) (tags t)) s.

(** Partial<Pick<ScheduledTask, 'urgency' | 'importance' | 'deadline' |
    'title' | 'description' | 'tags'>>: [None] is an absent key. *)
Record Updates := mkUpdates {
  u_urgency : option Q;
  u_importance : option Q;
  u_deadline : option Z;
  u_title : option string;
  u_description : option string;
  u_tags : option (list string)
}.

Definition orElse {A} (o : option A) (d : A) : A :=
  match o with Some a => a | None => d end.

Definition keepOr {A} (o d : option A) : option A :=
  match o with Some a => Some a | None => d end.

Definition assignUpdates (now : Z) (u : Updates) (t : ScheduledTask) : ScheduledTask :=
  mkTask (id t) (orElse (u_title u) (title t))
         (keepOr (u_description u) (description t))
         (keepOr (u_deadline u) (deadline t))
         (estimatedDuration t) (priority t)
         (orElse (u_urgency u) (urgency t))
         (orElse (u_importance u) (importance t))
         (status t) (createdAt t) now (completedAt t)
         (channel t) (sessionId t) (orElse (u_tags u) (tags t)).

Definition updateTask (cfg : Config) (now : Z) (tid : string) (u : Updates)
           (s : Store) : option ScheduledTask * Store :=
  let (r, s') :=
    updateFirst tid
      (fun t => let t' := assignUpdates now u t in
                set_priority (calculatePriority cfg now t') t') s in
  match r with
  | None => (None, s)
  | Some t => (Some t, sortTasks s')
  end.

Definition getNextTask (cfg : Config) (now : Z) (s : Store)
  : option ScheduledTask * Store :=
  let s' := refreshPriorities cfg now s in
  let pendingTasks :=
    js_sort byPriorityDesc (filter (fun t => is_pending (status t)) s') in
  (hd_error pendingTasks, s').

Definition getTaskList (cfg : Config) (now : Z) (s : Store)
  : list ScheduledTask * Store :=
  let s' := refreshPriorities cfg now s in
  (js_sort byPriorityDesc s', s').

(** removeTask: [findIndex] then [splice(index, 1)]. *)
Fixpoint removeFirst (tid : string) (s : Store) : bool * Store :=
  match s with
  | [] => (false, [])
  | t :: s' =>
      if String.eqb (id t) tid then (true, s')
      else let (r, s'') := removeFirst tid s' in (r, t :: s'')
  end.

Definition removeTask (tid : string) (s : Store) : bool * Store :=
  removeFirst tid s.

Definition is_open (s : TaskStatus) : bool :=
  match s with pending | in_progress => true | _ => false end.

Definition cleanupOldTasks (now : Z) (maxAgeDays : Q) (s : Store) : Z * Store :=
  let cutoff := (inject_Z now - maxAgeDays * inject_Z MS_PER_DAY)%Q in
  let kept :=
    filter (fun t => if is_open (status t) then true
                     else negb (Qle_bool (inject_Z (updatedAt t)) cutoff)) s in
  (Z.of_nat (List.length s) - Z.of_nat (List.length kept), kept).

(** One call of the public interface, and sequences of calls. *)
Inductive Op :=
| OpAddTask (now : Z) (rnd : string) (input : AddTaskInput)
| OpUpdateTaskStatus (now : Z) (tid : string) (st : TaskStatus)
| OpUpdateTask (now : Z) (tid : string) (u : Updates)
| OpGetNextTask (now : Z)
| OpGetTaskList (now : Z)
| OpRemoveTask (tid : string)
| OpCleanupOldTasks (now : Z) (maxAgeDays : Q).

Definition step (cfg : Config) (s : Store) (o : Op) : Store :=
  match o with
  | OpAddTask now rnd input => snd (addTask cfg now rnd input s)
  | OpUpdateTaskStatus now tid st => snd (updateTaskStatus now tid st s)
  | OpUpdateTask now tid u => snd (updateTask cfg now tid u s)
  | OpGetNextTask now => snd (getNextTask cfg now s)
  | OpGetTaskList now => snd (getTaskList cfg now s)
  | OpRemoveTask tid => snd (removeTask tid s)
  | OpCleanupOldTasks now d => snd (cleanupOldTasks now d s)
  end.

Definition run (cfg : Config) (ops : list Op) (s : Store) : Store :=
  fold_left (step cfg) ops s.

Definition TaskStatus_eqb (a b : TaskStatus) : bool :=
  match a, b with
  | pending, pending | in_progress, in_progress | completed, completed
  | deferred, deferred | cancelled, cancelled => true
  | _, _ => false
  end.

(** getTasksByStatus *)
Definition getTasksByStatus (st : TaskStatus) (s : Store) : list ScheduledTask :=
  js_sort byPriorityDesc (filter (fun t => TaskStatus_eqb (status t) st) s).

(** The filter [t.deadline && t.deadline < now && t.status === 'pending']
    of getOverdueTasks and getStatistics. *)
Definition isOverdue (now : Z) (t : ScheduledTask) : bool :=
  match deadline t with
  | Some d => negb (d =? 0) && (d <? now) && is_pending (status t)
  | None => false
  end.

(** [t.deadline || 0] *)
Definition deadlineOrZero (t : ScheduledTask) : Z :=
  match deadline t with Some d => d | None => 0 end.

(** comparator [(a, b) => (a.deadline || 0) - (b.deadline || 0)] *)
Definition byDeadlineAsc (a b : ScheduledTask) : bool :=
  deadlineOrZero a - deadlineOrZero b <=? 0.

(** getOverdueTasks *)
Definition getOverdueTasks (now : Z) (s : Store) : list ScheduledTask :=
  js_sort byDeadlineAsc (filter (isOverdue now) s).

Record Statistics := mkStatistics {
  st_total : Z;
  st_pending : Z;
  st_inProgress : Z;
  st_completed : Z;
  st_overdue : Z;
  st_avgPriority : Z
}.

Definition countIf (p : ScheduledTask -> bool) (s : Store) : Z :=
  Z.of_nat (List.length (filter p s)).

(** getStatistics *)
Definition getStatistics (now : Z) (s : Store) : Statistics :=
  let prioritySum := fold_left (fun sum t => sum + priority t) s 0 in
  let avgPriority :=
    if (0 <? List.length s)%nat
    then (inject_Z prioritySum / inject_Z (Z.of_nat (List.length s)))%Q
    else 0%Q in
  mkStatistics
    (Z.of_nat (List.length s))
    (countIf (fun t => TaskStatus_eqb (status t) pending) s)
    (countIf (fun t => TaskStatus_eqb (status t) in_progress) s)
    (countIf (fun t => TaskStatus_eqb (status t) completed) s)
    (countIf (isOverdue now) s)
    (Math_round avgPriority).

(** The scenario of the specification: urgency 90, importance 80, no
    deadline, an expected duration of ten minutes. *)
Definition scenarioEstimate : DurationEstimate Q :=
  mkEstimate 400000%Q 600000%Q 900000%Q 0.3%Q 0 coding moderate.

Definition scenarioInput : AddTaskInput :=
  mkInput "task" None None scenarioEstimate 90%Q 80%Q [] None None.

(** Two tasks, the first added with the lower urgency and raised later to
    the urgency of the second. *)
Definition tieInput (u : Q) : AddTaskInput :=
  mkInput "task" None None scenarioEstimate u 50%Q [] None None.

(** The second of the two tasks, as stored at the end of the scenario. *)
Definition tieSecond : ScheduledTask :=
  mkTask "sched_2000_b" "task" None None scenarioEstimate 64 60%Q 50%Q pending
         2000 2000 None None None [].

Definition tieScenario : list Op :=
  [ OpAddTask 1000 "a" (tieInput 50%Q);
    OpAddTask 2000 "b" (tieInput 60%Q);
    OpUpdateTask 3000 "sched_1000_a"
                 (mkUpdates (Some 60%Q) None None None None None) ].

End Scheduler.

(** ** Numbers that may leave the finite range *)

(** The value of a JavaScript expression that can be [NaN] or an
    infinity.  Signed zeros are not distinguished: a zero divisor counts
    as [+0]. *)
Inductive jsnum :=
| Num (r : R)
| Inf (negative : bool)
| NaN.

Module JS.
Local Open Scope R_scope.

Definition is_neg (r : R) : bool := if Rlt_dec r 0 then true else false.

(** [a / b] *)
Definition div (a b : jsnum) : jsnum :=
  match a, b with
  | NaN, _ | _, NaN => NaN
  | Inf _, Inf _ => NaN
  | Inf s, Num y => Inf (xorb s (is_neg y))
  | Num _, Inf _ => Num 0
  | Num x, Num y =>
      if Req_dec_T y 0 then
        if Req_dec_T x 0 then NaN else Inf (is_neg x)
      else Num (x / y)
  end.

(** [a * b] *)
Definition mul (a b : jsnum) : jsnum :=
  match a, b with
  | NaN, _ | _, NaN => NaN
  | Inf s, Inf s' => Inf (xorb s s')
  | Inf s, Num y | Num y, Inf s =>
      if Req_dec_T y 0 then NaN else Inf (xorb s (is_neg y))
  | Num x, Num y => Num (x * y)
  end.

(** [a + b] *)
Definition add (a b : jsnum) : jsnum :=
  match a, b with
  | NaN, _ | _, NaN => NaN
  | Inf s, Inf s' => if Bool.eqb s s' then Inf s else NaN
  | Inf s, Num _ | Num _, Inf s => Inf s
  | Num x, Num y => Num (x + y)
  end.

(** [Math.round] of a real: [floor(x + 0.5)]. *)
Definition round_R (x : R) : Z := (up (x + / 2) - 1)%Z.

Definition round (a : jsnum) : jsnum :=
  match a with
  | Num x => Num (IZR (round_R x))
  | Inf s => Inf s
  | NaN => NaN
  end.

(** [a <= b]; every comparison with [NaN] is false. *)
Definition le (a b : jsnum) : Prop :=
  match a, b with
  | NaN, _ | _, NaN => False
  | Num x, Num y => x <= y
  | Inf true, _ => True
  | _, Inf false => True
  | _, _ => False
  end.

(** [a > 0] *)
Definition positive (a : jsnum) : bool :=
  match a with
  | Num x => if Rlt_dec 0 x then true else false
  | Inf s => negb s
  | NaN => false
  end.

(** [Math.min(a, b)] *)
Definition min (a b : jsnum) : jsnum :=
  match a, b with
  | NaN, _ | _, NaN => NaN
  | Inf true, _ | _, Inf true => Inf true
  | Inf false, _ => b
  | _, Inf false => a
  | Num x, Num y => Num (Rmin x y)
  end.

End JS.

(** [Math.exp]: the one function of the program whose result leaves the
    normal range of the doubles on plain inputs.  The result is 0 once the
    exponential is below half the smallest positive double, 2^-1075 (for
    arguments below about -745.13), and Infinity once it rounds above the
    largest double, from 2^1024 - 2^970 on (arguments above about 709.78);
    in between it is the exponential. *)
Definition underflowBound : R := (/ IZR (2 ^ 1075))%R.
Definition overflowBound : R := IZR (2 ^ 1024 - 2 ^ 970).

Definition Math_exp (x : R) : jsnum :=
  if Rlt_dec (exp x) underflowBound then Num 0
  else if Rle_dec overflowBound (exp x) then Inf false
  else Num (exp x).

(** ** Confidence utilities (utils/confidence.ts) *)

Record TaskHistoryEntry := mkEntry {
  h_taskId : string;
  h_category : TaskCategory;
  h_complexity : TaskComplexity;
  h_estimatedMs : Z;
  h_actualMs : Z;
  h_accuracy : Q;
  h_timestamp : Z;
  h_sessionId : string
}.

Module Confidence.

(** The filter [h.category === category && h.complexity === complexity]. *)
Definition matches (c : TaskCategory) (x : TaskComplexity)
           (h : TaskHistoryEntry) : bool :=
  TaskCategory_eqb (h_category h) c && TaskComplexity_eqb (h_complexity h) x.

(** calculateAccuracy *)
Definition calculateAccuracy (estimatedMs actualMs : Q) : Q :=
  (if Qeq_bool actualMs 0 then 0
   else
     let ratio := estimatedMs / actualMs in
     if Qle_bool 1 ratio then Math_max 0 (1 - (ratio - 1) * 0.5)
     else Math_max 0 ratio)%Q.

(** The object returned by bayesianUpdate and kept in learnedBaselines. *)
Record Baseline := mkBaseline {
  mean : Q;
  b_confidence : Q
}.

(** bayesianUpdate.  The divisor [weight + newWeight] is positive whenever
    [0 < learningRate <= 1] and [0 <= priorConfidence]. *)
Definition bayesianUpdate (priorMean priorConfidence observedValue learningRate : Q)
  : Baseline :=
  (let weight := priorConfidence * (1 - learningRate) in
   let newWeight := learningRate in
   let newMean :=
     (priorMean * weight + observedValue * newWeight) / (weight + newWeight) in
   let newConfidence := Math_min 0.95 (priorConfidence + learningRate * 0.1) in
   mkBaseline newMean newConfidence)%Q.

Local Open Scope R_scope.

(** The weight [Math.exp(-ageDays / decayDays)] of one history entry.  The
    quotient is the real one: the properties below take a positive decay
    period. *)
Definition entryWeight (now : Z) (decayDays : R) (h : TaskHistoryEntry) : jsnum :=
  let ageDays := (IZR now - IZR (h_timestamp h)) / IZR MS_PER_DAY in
  Math_exp (- ageDays / decayDays).

(** The loop accumulating [weightedAccuracySum] and [weightSum]. *)
Definition accumulate (now : Z) (decayDays : R) (relevant : list TaskHistoryEntry)
  : jsnum * jsnum :=
  fold_left
    (fun acc h =>
       let w := entryWeight now decayDays h in
       (JS.add (fst acc) (JS.mul (Num (Q2R (h_accuracy h))) w),
        JS.add (snd acc) w))
    relevant (Num 0, Num 0).

(** calculateConfidence; [minSamples] and [decayDays] are always passed by
    the estimator. *)
Definition calculateConfidence (now : Z) (history : list TaskHistoryEntry)
           (c : TaskCategory) (x : TaskComplexity)
           (minSamples decayDays : R) : jsnum :=
  let relevant := filter (matches c x) history in
  let n := INR (List.length relevant) in
  match relevant with
  | [] => Num 0.3
  | _ =>
      if Rlt_dec n minSamples then Num (0.3 + (n / minSamples) * 0.2)
      else
        let (weightedAccuracySum, weightSum) := accumulate now decayDays relevant in
        let weightedAccuracy :=
          if JS.positive weightSum then JS.div weightedAccuracySum weightSum
          else Num 0.5 in
        let sampleBoost := Rmin 0.2 (n * 0.02) in
        JS.min (Num 0.95)
               (JS.add (JS.add (Num 0.5) (JS.mul weightedAccuracy (Num 0.3)))
                       (Num sampleBoost))
  end.

Definition sumR (l : list R) : R := fold_left Rplus l 0.

(** calculateVariance: the coefficient of variation of the actual
    durations; the final quotient is by a mean that can be zero. *)
Definition calculateVariance (history : list TaskHistoryEntry) : jsnum :=
  if (List.length history <? 2)%nat then Num 0.5
  else
    let actuals := map (fun h => IZR (h_actualMs h)) history in
    let len := INR (List.length actuals) in
    let mean := sumR actuals / len in
    let squaredDiffs := map (fun v => (v - mean) ^ 2) actuals in
    let variance := sumR squaredDiffs / len in
    JS.div (Num (sqrt variance)) (Num mean).

End Confidence.

(** ** Task time estimator (engines/task-estimator.ts) *)
Module Estimator.
Import Confidence.

(** constants.ts: BASE_DURATION_MS and COMPLEXITY_MULTIPLIERS *)
Definition BASE_DURATION_MS (c : TaskCategory) : Z :=
  match c with
  | research => 300000
  | coding => 600000
  | writing => 480000
  | analysis => 420000
  | communication => 60000
  | scheduling => 120000
  | file_operations => 30000
  | web_browsing => 180000
  | other => 300000
  end%Z.

Definition COMPLEXITY_MULTIPLIERS (x : TaskComplexity) : Q :=
  match x with
  | trivial => 0.25
  | simple => 0.5
  | moderate => 1.0
  | complex => 2.0
  | highly_complex => 4.0
  end%Q.

Record ActiveTask := mkActive {
  taskId : string;
  category : TaskCategory;
  complexity : TaskComplexity;
  startTime : Z;
  estimatedMs : Z
}.

(** Required<TaskEstimatorConfig> *)
Record Config := mkConfig {
  enabled : bool;
  learningRate : Q;
  confidenceDecayDays : Q;
  minSamplesForEstimate : Q
}.

Definition defaultConfig : Config := mkConfig true 0.1%Q 30%Q 3%Q.

(** [state.activeTasks] *)
Definition ActiveTasks := obj ActiveTask.

(** The private [learnedBaselines] map, keyed by
    [`${category}:${complexity}`]. *)
Definition Baselines := TaskCategory -> TaskComplexity -> option Baseline.

Definition noBaselines : Baselines := fun _ _ => None.

Definition setBaseline (c : TaskCategory) (x : TaskComplexity) (b : Baseline)
           (m : Baselines) : Baselines :=
  fun c' x' =>
    if TaskCategory_eqb c' c && TaskComplexity_eqb x' x then Some b else m c' x'.

(** The part of the shared state the estimator reads and writes, together
    with its private map. *)
Record State := mkState {
  taskHistory : list TaskHistoryEntry;
  activeTasks : ActiveTasks;
  bootTime : Z;
  learnedBaselines : Baselines
}.

(** initializeBaselines, run by the constructor. *)
Definition initializeBaselines (cfg : Config) (history : list TaskHistoryEntry)
  : Baselines :=
  fold_left
    (fun m entry =>
       let c := h_category entry in
       let x := h_complexity entry in
       match m c x with
       | Some existing =>
           setBaseline c x
             (bayesianUpdate (mean existing) (b_confidence existing)
                             (inject_Z (h_actualMs entry)) (learningRate cfg)) m
       | None =>
           setBaseline c x (mkBaseline (inject_Z (h_actualMs entry)) 0.4%Q) m
       end)
    history noBaselines.

(** getBaseline *)
Definition getBaseline (s : State) (c : TaskCategory) (x : TaskComplexity) : Q :=
  let fallback := (inject_Z (BASE_DURATION_MS c) * COMPLEXITY_MULTIPLIERS x)%Q in
  match learnedBaselines s c x with
  | Some learned =>
      if negb (Qle_bool (b_confidence learned) 0.5%Q) then mean learned
      else fallback
  | None => fallback
  end.

(** estimate (the humanReadable strings are left out) *)
Definition estimate (cfg : Config) (now : Z) (s : State)
           (c : TaskCategory) (x : TaskComplexity) : DurationEstimate jsnum :=
  let relevantHistory := filter (matches c x) (taskHistory s) in
  let baseline := getBaseline s c x in
  let variance := calculateVariance relevantHistory in
  let conf :=
    calculateConfidence now relevantHistory c x
      (Q2R (minSamplesForEstimate cfg)) (Q2R (confidenceDecayDays cfg)) in
  let varianceFactor := JS.add (Num 1) variance in
  mkEstimate
    (JS.round (JS.div (Num (Q2R baseline)) varianceFactor))
    (Num (IZR (Math_round baseline)))
    (JS.round (JS.mul (Num (Q2R baseline)) varianceFactor))
    conf
    (Z.of_nat (List.length relevantHistory))
    c x.

(** startTask: [rnd] is the random suffix of the id; the estimate enters
    only through [expectedMs = Math.round(baseline)]. *)
Definition startTask (now : Z) (rnd : string) (c : TaskCategory)
           (x : TaskComplexity) (s : State) : string * State :=
  let tid := ("task_" ++ show_Z now ++ "_" ++ rnd)%string in
  let activeTask := mkActive tid c x now (Math_round (getBaseline s c x)) in
  (tid, mkState (taskHistory s) (obj_set tid activeTask (activeTasks s))
                (bootTime s) (learnedBaselines s)).

(** [taskHistory.slice(-1000)] when the length exceeds 1000. *)
Definition bounded (h : list TaskHistoryEntry) : list TaskHistoryEntry :=
  if (1000 <? List.length h)%nat then skipn (List.length h - 1000) h else h.

(** The first part of completeTask: the task to complete and the active
    tasks that remain.  The guard [taskId && activeTasks?.[taskId]] is
    false for an absent id, for the empty string and for an id that is
    neither a key nor an inherited name; the else branch then takes the
    task started last.  For an inherited name that is no key the guard
    holds with the inherited member: [OnMember]. *)
Definition resolveTask (tid : option string) (m : ActiveTasks)
  : Outcome (option ActiveTask * ActiveTasks) :=
  let mostRecent :=
    match last (map Some (obj_values m)) None with
    | Some t => (Some t, obj_delete (taskId t) m)
    | None => (None, m)
    end in
  match tid with
  | Some k =>
      if String.eqb k "" then Typed mostRecent
      else match obj_get k m with
           | Some t => Typed (Some t, obj_delete k m)
           | None => if inherited k then OnMember else Typed mostRecent
           end
  | None => Typed mostRecent
  end.

(** completeTask.  [Typed (None, s)] is the result [null].  After
    [OnMember] the source completes the inherited member as if it were a
    task: it deletes nothing, and returns and records an entry whose
    taskId, category, complexity and estimatedMs are undefined and whose
    actualMs and accuracy are NaN; it also stores a baseline under the key
    ["undefined:undefined"].  Such an entry is no [TaskHistoryEntry], and
    the state that holds it is no [State]: the embedding stops there. *)
Definition completeTask (cfg : Config) (now : Z) (tid : option string)
           (s : State) : Outcome (option TaskHistoryEntry * State) :=
  match resolveTask tid (activeTasks s) with
  | OnMember => OnMember
  | Typed (None, _) => Typed (None, s)
  | Typed (Some task, remaining) =>
      let actualMs := (now - startTime task)%Z in
      let accuracy :=
        calculateAccuracy (inject_Z (estimatedMs task)) (inject_Z actualMs) in
      let entry :=
        mkEntry (taskId task) (category task) (complexity task)
                (estimatedMs task) actualMs accuracy now
                ("session_" ++ show_Z (bootTime s))%string in
      let history := bounded (taskHistory s ++ [entry]) in
      let existing :=
        match learnedBaselines s (category task) (complexity task) with
        | Some b => b
        | None => mkBaseline (inject_Z (estimatedMs task)) 0.3%Q
        end in
      let updated :=
        bayesianUpdate (mean existing) (b_confidence existing)
                       (inject_Z actualMs) (learningRate cfg) in
      Typed (Some entry,
             mkState history remaining (bootTime s)
                     (setBaseline (category task) (complexity task) updated
                                  (learnedBaselines s)))
  end.

(** The state left by a call of completeTask that worked on the active
    tasks.  It serves the scenarios below, which complete the id that
    startTask has just stored; after [OnMember] there is no [State] to
    return, and the state before the call stands in. *)
Definition stateAfter (o : Outcome (option TaskHistoryEntry * State))
           (s : State) : State :=
  match o with
  | Typed (_, s') => s'
  | OnMember => s
  end.

Record Statistics := mkStatistics {
  totalTasks : Z;
  averageAccuracy : Q;
  categoryCounts : TaskCategory -> Z
}.

(** getStatistics: [categoryCounts] is the record of nine counters, read
    as a function of the category. *)
Definition getStatistics (s : State) : Statistics :=
  let history := taskHistory s in
  let total := Z.of_nat (List.length history) in
  let average :=
    if (0 <? total)%Z
    then (fold_left (fun sum h => sum + h_accuracy h) history 0
          / inject_Z total)%Q
    else 0%Q in
  let counts :=
    fold_left
      (fun (counts : TaskCategory -> Z) entry =>
         fun c => if TaskCategory_eqb c (h_category entry)
                  then (counts c + 1)%Z else counts c)
      history (fun _ => 0%Z) in
  mkStatistics total average counts.

(** The state created at start-up (index.ts): no history, no active
    task, no learned baseline. *)
Definition initialState (boot : Z) : State := mkState [] [] boot noBaselines.

(** One coding task of moderate complexity started at time 1000. *)
Definition oneActive : State :=
  snd (startTask 1000 "a" coding moderate (initialState 0)).

(** Active tasks as startTask builds them: distinct keys, each task
    stored under its own id. *)
Definition wfActive (m : ActiveTasks) : Prop := wfObj taskId m.

(** A task started at time [i * 1000000] and completed exactly after its
    estimated duration. *)
Definition perfectStep (s : State) (i : Z) : State :=
  let start := (i * 1000000)%Z in
  let (tid, s1) := startTask start "r" coding moderate s in
  let est := Math_round (getBaseline s coding moderate) in
  stateAfter (completeTask defaultConfig (start + est) (Some tid) s1) s1.

(** [n] such tasks in a row, from the initial state. *)
Definition perfectTasks (n : nat) : State :=
  fold_left perfectStep (map Z.of_nat (seq 1 n)) (initialState 0).

(** A task started and completed within the same millisecond [i]. *)
Definition instantStep (s : State) (i : Z) : State :=
  let (tid, s1) := startTask i "z" coding moderate s in
  stateAfter (completeTask defaultConfig i (Some tid) s1) s1.

Definition twoInstantTasks : State :=
  fold_left instantStep [1000; 2000]%Z (initialState 0).

(** A full history: three completions of (coding, moderate) with accuracy
    1, the oldest entries of the history, then 997 completions of another
    pair; and one active coding task estimated at 14 s.  Completing that
    task after 15 s gives accuracy 14/15 and drops the oldest entry. *)
Definition perfectEntry (c : TaskCategory) (x : TaskComplexity) (t : Z)
  : TaskHistoryEntry :=
  mkEntry "p" c x 600000 600000 1 t "session_0".

Definition fillers : list TaskHistoryEntry :=
  map (fun i => perfectEntry research trivial (Z.of_nat i * 1000)) (seq 4 997).

Definition fullHistory : list TaskHistoryEntry :=
  perfectEntry coding moderate 1000
  :: [perfectEntry coding moderate 2000; perfectEntry coding moderate 3000]
     ++ fillers.

Definition fullState : State :=
  mkState fullHistory [("t"%string, mkActive "t" coding moderate 5000000 14000)]
          0 noBaselines.

(** getActiveTasks *)
Definition getActiveTasks (s : State) : list ActiveTask :=
  obj_values (activeTasks s).

End Estimator.

(** ** Time math (utils/time-math.ts) *)

(** exponentialDecay: [initialValue * Math.pow(0.5, elapsedMs / halfLifeMs)] *)
Definition exponentialDecay (initialValue halfLifeMs elapsedMs : R) : R :=
  (initialValue * Rpower (1 / 2) (elapsedMs / halfLifeMs))%R.

(** ** Temporal memory index (managers/temporal-memory.ts) *)
Module Memory.

Inductive CyclePhase :=
| active | passive | autonomous | consolidation | maintenance.

Record WallClockTime := mkWallClock {
  wc_timestamp : Z;
  wc_timezone : string;
  wc_iso : string;
  wc_dayOfWeek : string;
  wc_hourOfDay : Z
}.

Record SubjectiveTime := mkSubjective {
  aiTicks : Z;
  processingCycles : Z;
  attentionUnits : Z;
  lastActivity : Z;
  st_bootTime : Z
}.

Record TemporalContext := mkContext {
  wallClock : WallClockTime;
  subjective : SubjectiveTime;
  phase : CyclePhase;
  sessionAge : Z;
  idleDuration : Z;
  humanReadable : string
}.

Record TemporalMemoryEntry := mkMemory {
  id : string;
  content : string;
  timestamp : Z;
  decayScore : R;
  relevanceScore : R;
  accessCount : Z;
  lastAccessedAt : Z;
  temporalContext : option TemporalContext;
  associatedTasks : list string
}.

(** Required<TemporalMemoryConfig> *)
Record Config := mkConfig {
  enabled : bool;
  decayHalfLifeDays : R;
  relevanceBoostRecent : R;
  includeTemporalContext : bool
}.

Definition defaultConfig : Config := mkConfig true 7%R 1.5%R true.

Record MemorySearchOptions := mkSearchOptions {
  maxAgeDays : option R;
  limit : option Z;
  minRelevance : option R
}.

Definition noOptions : MemorySearchOptions := mkSearchOptions None None None.

(** state.memoryIndex *)
Definition Store := obj TemporalMemoryEntry.

(** *** tokenize, on strings of ASCII characters *)

Definition toLower (c : ascii) : ascii :=
  let n := nat_of_ascii c in
  if ((65 <=? n) && (n <=? 90))%nat then ascii_of_nat (n + 32) else c.

(** [\w] *)
Definition isWord (c : ascii) : bool :=
  let n := nat_of_ascii c in
  (((48 <=? n) && (n <=? 57)) || ((65 <=? n) && (n <=? 90))
   || ((97 <=? n) && (n <=? 122)) || (n =? 95))%nat.

(** [\s] *)
Definition isSpace (c : ascii) : bool :=
  let n := nat_of_ascii c in
  (((9 <=? n) && (n <=? 13)) || (n =? 32))%nat.

Definition mapChars (f : ascii -> ascii) (s : string) : string :=
  string_of_list_ascii (map f (list_ascii_of_string s)).

(** [split(/\s+/)]: [cur] is the piece being read, in reverse; [inSep]
    says that the previous character was a separator. *)
Fixpoint splitSpaces (cs : list ascii) (cur : list ascii) (inSep : bool)
  : list string :=
  match cs with
  | [] => [string_of_list_ascii (rev cur)]
  | c :: cs' =>
      if isSpace c then
        if inSep then splitSpaces cs' cur true
        else string_of_list_ascii (rev cur) :: splitSpaces cs' [] true
      else splitSpaces cs' (c :: cur) false
  end.

Definition tokenize (text : string) : list string :=
  let lowered := mapChars toLower text in
  let cleaned :=
    mapChars (fun c => if isWord c || isSpace c then c else " "%char) lowered in
  filter (fun t => (2 <? String.length t)%nat)
         (splitSpaces (list_ascii_of_string cleaned) [] false).

(** [s.includes(t)] *)
Fixpoint includes (s t : string) : bool :=
  String.prefix t s
  || match s with
     | EmptyString => false
     | String _ s' => includes s' t
     end.

Local Open Scope R_scope.

Definition set_decayScore (d : R) (e : TemporalMemoryEntry) : TemporalMemoryEntry :=
  mkMemory (id e) (content e) (timestamp e) d (relevanceScore e)
           (accessCount e) (lastAccessedAt e) (temporalContext e)
           (associatedTasks e).

Definition set_relevanceScore (r : R) (e : TemporalMemoryEntry) : TemporalMemoryEntry :=
  mkMemory (id e) (content e) (timestamp e) (decayScore e) r
           (accessCount e) (lastAccessedAt e) (temporalContext e)
           (associatedTasks e).

(** [accessCount++; lastAccessedAt = now] *)
Definition recordAccess (now : Z) (e : TemporalMemoryEntry) : TemporalMemoryEntry :=
  mkMemory (id e) (content e) (timestamp e) (decayScore e) (relevanceScore e)
           (accessCount e + 1) now (temporalContext e) (associatedTasks e).

(** The relevance computed for one entry in search. *)
Definition scoreRelevance (cfg : Config) (queryTerms : list string)
           (e : TemporalMemoryEntry) : R :=
  let contentTerms := tokenize (content e) in
  let matchCount :=
    List.length
      (filter (fun qt =>
                 existsb (fun ct => includes ct qt || includes qt ct) contentTerms)
              queryTerms) in
  let baseRelevance :=
    if (0 <? List.length queryTerms)%nat
    then INR matchCount / INR (List.length queryTerms) else 0 in
  let recencyBoost :=
    if Rlt_dec 0.8 (decayScore e) then relevanceBoostRecent cfg else 1.0 in
  let accessBoost := 1 + Rmin 0.2 (IZR (accessCount e) * 0.02) in
  baseRelevance * recencyBoost * decayScore e * accessBoost.

Definition geR (a b : R) : bool := if Rle_dec b a then true else false.

(** comparator [(a, b) => b.relevanceScore - a.relevanceScore] *)
Definition byRelevanceDesc (a b : TemporalMemoryEntry) : bool :=
  if Rle_dec (relevanceScore b - relevanceScore a) 0 then true else false.

(** [xs.slice(0, n)] *)
Definition slice0 {A} (n : Z) (xs : list A) : list A :=
  if (n <? 0)%Z then firstn (Z.to_nat (Z.of_nat (List.length xs) + n)) xs
  else firstn (Z.to_nat n) xs.

(** The copies ranked by search, before the access bookkeeping. *)
Definition rankedResults (cfg : Config) (now : Z) (query : string)
           (options : MemorySearchOptions) (s : Store) : list TemporalMemoryEntry :=
  let lim := match limit options with Some l => l | None => 10%Z end in
  let minRel := match minRelevance options with Some r => r | None => 0.1 end in
  let halfLifeMs := decayHalfLifeDays cfg * IZR MS_PER_DAY in
  let cutoff :=
    match maxAgeDays options with
    | Some d => if Req_dec_T d 0 then 0 else IZR now - d * IZR MS_PER_DAY
    | None => 0
    end in
  let eligible := filter (fun e => geR (IZR (timestamp e)) cutoff) (obj_values s) in
  let decayed :=
    map (fun e =>
           let ageMs := IZR now - IZR (timestamp e) in
           set_decayScore (exponentialDecay 1.0 halfLifeMs ageMs) e) eligible in
  let queryTerms := tokenize query in
  let scored :=
    map (fun e => set_relevanceScore (scoreRelevance cfg queryTerms e) e) decayed in
  let relevant := filter (fun e => geR (relevanceScore e) minRel) scored in
  slice0 lim (js_sort byRelevanceDesc relevant).

(** search: the ranked copies, and the store after the loop that records
    the access of each result. *)
Definition search (cfg : Config) (now : Z) (query : string)
           (options : MemorySearchOptions) (s : Store)
  : list TemporalMemoryEntry * Store :=
  let results := rankedResults cfg now query options s in
  (results,
   fold_left (fun st result => obj_modify (id result) (recordAccess now) st)
             results s).

Section WithDigest.
(** [crypto.createHash('md5').update(text).digest('hex')] *)
Variable md5hex : string -> string.

(** addEntry *)
Definition addEntry (cfg : Config) (now : Z) (text : string)
           (context : option TemporalContext) (s : Store)
  : TemporalMemoryEntry * Store :=
  let newId := substring 0 16 (md5hex (text ++ show_Z now)) in
  let entry :=
    mkMemory newId text now 1.0 1.0 0 now
             (if includeTemporalContext cfg then context else None) [] in
  (entry, obj_set newId entry s).
End WithDigest.

(** getEntry.  On an inherited name that is no key the source counts the
    access on the inherited member and returns that member: the index is
    not touched. *)
Definition getEntry (now : Z) (k : string) (s : Store)
  : Outcome (option TemporalMemoryEntry) * Store :=
  match obj_get k s with
  | Some e =>
      (Typed (Some (recordAccess now e)), obj_modify k (recordAccess now) s)
  | None => (if inherited k then OnMember else Typed None, s)
  end.

(** Partial<Pick<TemporalMemoryEntry, 'content' | 'associatedTasks'>> *)
Record EntryUpdates := mkEntryUpdates {
  u_content : option string;
  u_associatedTasks : option (list string)
}.

Definition applyUpdates (u : EntryUpdates) (e : TemporalMemoryEntry)
  : TemporalMemoryEntry :=
  mkMemory (id e)
           (match u_content u with Some c => c | None => content e end)
           (timestamp e) (decayScore e) (relevanceScore e) (accessCount e)
           (lastAccessedAt e) (temporalContext e)
           (match u_associatedTasks u with
            | Some l => l
            | None => associatedTasks e
            end).

(** updateEntry.  On an inherited name that is no key the source assigns
    the updates to the inherited member and returns that member: the index
    is not touched. *)
Definition updateEntry (k : string) (u : EntryUpdates) (s : Store)
  : Outcome (option TemporalMemoryEntry) * Store :=
  match obj_get k s with
  | Some e => (Typed (Some (applyUpdates u e)), obj_modify k (applyUpdates u) s)
  | None => (if inherited k then OnMember else Typed None, s)
  end.

Definition pushTask (tid : string) (e : TemporalMemoryEntry) : TemporalMemoryEntry :=
  if existsb (String.eqb tid) (associatedTasks e) then e
  else mkMemory (id e) (content e) (timestamp e) (decayScore e)
                (relevanceScore e) (accessCount e) (lastAccessedAt e)
                (temporalContext e) (associatedTasks e ++ [tid]).

(** associateTask.  On an inherited name that is no key the source reads
    [associatedTasks] of the inherited member: that is undefined, and the
    call throws a TypeError (it returns true instead only if an earlier
    updateEntry on the same name assigned an array to the member).  The
    index is not touched. *)
Definition associateTask (memoryId tid : string) (s : Store)
  : Outcome bool * Store :=
  match obj_get memoryId s with
  | Some _ => (Typed true, obj_modify memoryId (pushTask tid) s)
  | None => (if inherited memoryId then OnMember else Typed false, s)
  end.

(** removeEntry.  [if (memoryIndex[id])] also holds for an inherited name
    that is no key: [delete] then removes nothing and the source returns
    true. *)
Definition removeEntry (k : string) (s : Store) : bool * Store :=
  match obj_get k s with
  | Some _ => (true, obj_delete k s)
  | None => (inherited k, s)
  end.

Record PruneOptions := mkPruneOptions {
  p_maxAgeDays : option R;
  p_minAccessCount : option R
}.

(** The test [shouldPrune] of prune. *)
Definition shouldPrune (cutoff minAccessCount : R) (e : TemporalMemoryEntry) : bool :=
  let fewAccesses := geR minAccessCount (IZR (accessCount e)) in
  ((if Rlt_dec (IZR (timestamp e)) cutoff then true else false) && fewAccesses)
  || ((if Rlt_dec (decayScore e) 0.1 then true else false) && fewAccesses).

(** prune *)
Definition prune (now : Z) (options : PruneOptions) (s : Store) : Z * Store :=
  let maxAge := match p_maxAgeDays options with Some d => d | None => 90 end in
  let minAccessCount :=
    match p_minAccessCount options with Some c => c | None => 0 end in
  let cutoff := IZR now - maxAge * IZR MS_PER_DAY in
  let kept := filter (fun kv => negb (shouldPrune cutoff minAccessCount (snd kv))) s in
  ((Z.of_nat (List.length s) - Z.of_nat (List.length kept))%Z, kept).


(** comparator [(a, b) => b.timestamp - a.timestamp] *)
Definition byTimestampDesc (a b : TemporalMemoryEntry) : bool :=
  (timestamp b - timestamp a <=? 0)%Z.

(** getRecentMemories *)
Definition getRecentMemories (lim : option Z) (s : Store)
  : list TemporalMemoryEntry :=
  slice0 (match lim with Some l => l | None => 10%Z end)
         (js_sort byTimestampDesc (obj_values s)).

(** One call of the public interface, and sequences of calls. *)
Inductive Op :=
| OpAddEntry (now : Z) (text : string) (context : option TemporalContext)
| OpSearch (now : Z) (query : string) (options : MemorySearchOptions)
| OpGetEntry (now : Z) (k : string)
| OpUpdateEntry (k : string) (u : EntryUpdates)
| OpAssociateTask (memoryId tid : string)
| OpRemoveEntry (k : string)
| OpPrune (now : Z) (options : PruneOptions).

Definition step (md5hex : string -> string) (cfg : Config) (s : Store) (o : Op)
  : Store :=
  match o with
  | OpAddEntry now text context => snd (addEntry md5hex cfg now text context s)
  | OpSearch now query options => snd (search cfg now query options s)
  | OpGetEntry now k => snd (getEntry now k s)
  | OpUpdateEntry k u => snd (updateEntry k u s)
  | OpAssociateTask m t => snd (associateTask m t s)
  | OpRemoveEntry k => snd (removeEntry k s)
  | OpPrune now options => snd (prune now options s)
  end.

Definition run (md5hex : string -> string) (cfg : Config) (ops : list Op)
           (s : Store) : Store :=
  fold_left (step md5hex cfg) ops s.

End Memory.

(** ** Time formatting and deadlines (utils/time-math.ts) *)
Module TimeMath.
Local Open Scope string_scope.

Definition MS_PER_WEEK : Z := 604800000.

(** [a < b] on numbers *)
Definition Qltb (a b : Q) : bool := negb (Qle_bool b a).

(** [`${n} ${unit}${n !== 1 ? 's' : ''}`] *)
Definition withUnit (n : Z) (unit : string) : string :=
  show_Z n ++ " " ++ unit ++ (if (n =? 1)%Z then "" else "s").

(** formatDuration(ms, { precise }) *)
Definition formatDuration (precise : bool) (ms : Q) : string :=
  if Qltb ms (inject_Z MS_PER_SECOND) then "less than a second"
  else if Qltb ms (inject_Z MS_PER_MINUTE) then
    let seconds := Math_round (ms / inject_Z MS_PER_SECOND) in
    if precise then withUnit seconds "second" else "a few seconds"
  else if Qltb ms (inject_Z MS_PER_HOUR) then
    let minutes := Math_round (ms / inject_Z MS_PER_MINUTE) in
    if negb precise && (minutes <=? 2)%Z then "a couple of minutes"
    else if negb precise && (minutes <=? 5)%Z then "a few minutes"
    else withUnit minutes "minute"
  else if Qltb ms (inject_Z MS_PER_DAY) then
    let hours := Math_round (ms / inject_Z MS_PER_HOUR) in
    if negb precise && (hours =? 1)%Z then "about an hour"
    else if negb precise && (hours <=? 2)%Z then "a couple of hours"
    else withUnit hours "hour"
  else if Qltb ms (inject_Z MS_PER_WEEK) then
    let days := Math_round (ms / inject_Z MS_PER_DAY) in
    if negb precise && (days =? 1)%Z then "about a day"
    else withUnit days "day"
  else
    let weeks := Math_round (ms / inject_Z MS_PER_WEEK) in
    if negb precise && (weeks =? 1)%Z then "about a week"
    else withUnit weeks "week".

(** formatDurationRange *)
Definition formatDurationRange (minMs expectedMs maxMs : Q) : string :=
  let minFormatted := formatDuration true minMs in
  let maxFormatted := formatDuration true maxMs in
  if Qltb (maxMs - minMs) (expectedMs * 0.3)
  then "about " ++ formatDuration false expectedMs
  else minFormatted ++ " to " ++ maxFormatted.

Inductive UrgencyLevel := critical | high | medium | low.

Record DeadlineInfo := mkDeadlineInfo {
  d_ms : Z;
  d_formatted : string;
  d_isPast : bool;
  d_urgencyLevel : UrgencyLevel
}.

(** timeUntilDeadline *)
Definition timeUntilDeadline (now deadlineMs : Z) : DeadlineInfo :=
  let diff := (deadlineMs - now)%Z in
  let isPast := (diff <? 0)%Z in
  let absDiff := Z.abs diff in
  let urgencyLevel :=
    if isPast || (diff <? MS_PER_HOUR)%Z then critical
    else if (diff <? MS_PER_HOUR * 4)%Z then high
    else if (diff <? MS_PER_DAY)%Z then medium
    else low in
  let formatted :=
    if isPast then formatDuration false (inject_Z absDiff) ++ " overdue"
    else formatDuration false (inject_Z diff) ++ " remaining" in
  mkDeadlineInfo diff formatted isPast urgencyLevel.

(** isTimeInRange, on "HH:MM" strings compared as JavaScript compares
    strings (code unit by code unit). *)
Definition isTimeInRange (current start finish : string) : bool :=
  if String.leb start finish
  then String.leb start current && String.ltb current finish
  else String.leb start current || String.ltb current finish.

End TimeMath.

(** ** Temporal translator (engines/temporal-translator.ts) *)
Module Translator.
Import TimeMath.
Local Open Scope string_scope.

(** Required<TemporalTranslatorConfig> *)
Record Config := mkConfig {
  enabled : bool;
  humanFriendlyUnits : bool;
  includeConfidenceInOutput : bool;
  defaultBufferPercent : Q
}.

Definition defaultConfig : Config := mkConfig true true true 20%Q.

Record DeadlineContext := mkDeadlineContext {
  timeRemaining : string;
  urgencyLevel : UrgencyLevel;
  canComplete : bool;
  recommendation : string
}.

(** formatDeadlineContext *)
Definition formatDeadlineContext (cfg : Config) (now deadlineMs : Z)
           (estimatedDurationMs : Q) : DeadlineContext :=
  let deadline := timeUntilDeadline now deadlineMs in
  let bufferMs := (estimatedDurationMs * (defaultBufferPercent cfg / 100))%Q in
  let requiredTime := (estimatedDurationMs + bufferMs)%Q in
  let can := negb (d_isPast deadline)
             && Qltb requiredTime (inject_Z (d_ms deadline)) in
  let text :=
    if d_isPast deadline then
      "Deadline has passed. Consider renegotiating or prioritizing immediately."
    else
      match d_urgencyLevel deadline with
      | critical =>
          if can then "Critical deadline - start immediately with no interruptions."
          else "Insufficient time remaining. Request deadline extension or reduce scope."
      | high =>
          if can then "High priority - schedule focused work time soon."
          else "Tight timeline. Consider starting immediately or adjusting expectations."
      | medium =>
          "Comfortable timeline. Schedule when convenient but don't delay too long."
      | low => "Plenty of time. Can be scheduled flexibly."
      end in
  mkDeadlineContext (d_formatted deadline) (d_urgencyLevel deadline) can text.

(** formatRelativeTime *)
Definition formatRelativeTime (ms : Q) : string :=
  if Qltb ms 0 then formatDuration false (Qabs ms) ++ " ago"
  else "in " ++ formatDuration false ms.

End Translator.

(** ** Predicates used in the statements *)

(** The comparator [(a, b) => key(b) - key(a)], and the order it sorts
    into. *)
Definition descBy {A} (key : A -> Z) (a b : A) : bool := (key b - key a <=? 0)%Z.
Definition descending {A} (key : A -> Z) (a b : A) : Prop := (key b <= key a)%Z.

(** The elements of a list that carry the key [p], in list order. *)
Definition withKey {A} (key : A -> Z) (p : Z) (l : list A) : list A :=
  filter (fun a => (key a =? p)%Z) l.

Definition priorityInRange (t : Scheduler.ScheduledTask) : Prop :=
  (0 <= Scheduler.priority t <= 100)%Z.

(** Ties resolved by insertion: of two tasks with the same priority, the
    one created earlier comes first in the list. *)
Definition tiesByInsertion (l : list Scheduler.ScheduledTask) : Prop :=
  forall (i j : nat) (a b : Scheduler.ScheduledTask),
    nth_error l i = Some a -> nth_error l j = Some b ->
    Scheduler.priority a = Scheduler.priority b ->
    (Scheduler.createdAt a < Scheduler.createdAt b)%Z ->
    (i < j)%nat.

(** An id that is absent, empty, or neither a key nor an inherited name
    selects the task started last. *)
Definition unresolved (tid : option string) (m : Estimator.ActiveTasks) : Prop :=
  match tid with
  | None => True
  | Some k => k = ""%string \/ (obj_get k m = None /\ inherited k = false)
  end.

(** An id that is no key but names an inherited member. *)
Definition hitsMember (tid : option string) (m : Estimator.ActiveTasks) : Prop :=
  exists k, tid = Some k /\ obj_get k m = None /\ inherited k = true.

(** The weight of a history entry as a real number, where Math.exp stays
    in the normal range. *)
Definition realWeight (now : Z) (decayDays : R) (h : TaskHistoryEntry) : R :=
  exp (- ((IZR now - IZR (h_timestamp h)) / IZR MS_PER_DAY) / decayDays)%R.

(** The two sums accumulated by calculateConfidence. *)
Fixpoint weightedSum (now : Z) (decayDays : R) (l : list TaskHistoryEntry) : R :=
  match l with
  | [] => 0
  | h :: l' =>
      Q2R (h_accuracy h) * realWeight now decayDays h
      + weightedSum now decayDays l'
  end%R.

Fixpoint weightSum (now : Z) (decayDays : R) (l : list TaskHistoryEntry) : R :=
  match l with
  | [] => 0
  | h :: l' => realWeight now decayDays h + weightSum now decayDays l'
  end%R.

(** The value returned by calculateConfidence once there are enough
    samples. *)
Definition fullConfidence (n weightedAccuracy : R) : R :=
  Rmin 0.95 (0.5 + weightedAccuracy * 0.3 + Rmin 0.2 (n * 0.02))%R.

(** calculateConfidence on the list of matching entries, with real
    weights. *)
Definition confidenceOfList (now : Z) (m D : R) (l : list TaskHistoryEntry) : R :=
  match l with
  | [] => 0.3
  | _ =>
      if Rlt_dec (INR (List.length l)) m
      then 0.3 + INR (List.length l) / m * 0.2
      else fullConfidence (INR (List.length l))
                          (weightedSum now D l / weightSum now D l)
  end%R.

(** The confidence of [estimate] with real weights. *)
Definition confidenceOf (cfg : Estimator.Config) (now : Z) (s : Estimator.State)
           (c : TaskCategory) (x : TaskComplexity) : R :=
  confidenceOfList now (Q2R (Estimator.minSamplesForEstimate cfg))
    (Q2R (Estimator.confidenceDecayDays cfg))
    (filter (Confidence.matches c x) (Estimator.taskHistory s)).

(** An entry read at [now] within the window where its weight is a normal
    double: the entry is not from the future and is at most 600 decay
    periods old (49 years for the default of 30 days; Math.exp returns 0
    from about 745 periods on). *)
Definition inWindow (now : Z) (decayDays : R) (h : TaskHistoryEntry) : Prop :=
  (0 <= (IZR now - IZR (h_timestamp h)) / IZR MS_PER_DAY <= 600 * decayDays)%R.

(** The history of the pair [(c, x)] is read at [now] within that
    window. *)
Definition readable (cfg : Estimator.Config) (now : Z) (s : Estimator.State)
           (c : TaskCategory) (x : TaskComplexity) : Prop :=
  Forall (inWindow now (Q2R (Estimator.confidenceDecayDays cfg)))
         (filter (Confidence.matches c x) (Estimator.taskHistory s)).

Definition accuracyInRange (h : TaskHistoryEntry) : Prop :=
  (0 <= h_accuracy h <= 1)%Q.

(** A history as completeTask maintains it. *)
Definition wfHistory (h : list TaskHistoryEntry) : Prop :=
  Forall accuracyInRange h /\ (List.length h <= 1000)%nat.

(** One completion of the pair [(c, x)] with an accuracy at or near 1: at
    least 14/15, and exactly 1 once the history is full, where completeTask
    also drops the oldest entry; at a time [now] that is not before the
    recorded history. *)
Definition accurateCompletion (cfg : Estimator.Config) (c : TaskCategory)
           (x : TaskComplexity) (s s' : Estimator.State) : Prop :=
  exists now tid e,
    Forall (fun h => (h_timestamp h <= now)%Z) (Estimator.taskHistory s)
    /\ Estimator.completeTask cfg now tid s = Typed (Some e, s')
    /\ h_category e = c /\ h_complexity e = x
    /\ (14 # 15 <= h_accuracy e)%Q
    /\ ((List.length (Estimator.taskHistory s) < 1000)%nat
        \/ (h_accuracy e == 1)%Q).

(** Successive completions of the pair with such an accuracy, with any
    number of startTask calls in between. *)
Inductive accurateRun (cfg : Estimator.Config) (c : TaskCategory)
          (x : TaskComplexity) : Estimator.State -> Estimator.State -> Prop :=
| run_done s : accurateRun cfg c x s s
| run_start s now rnd c' x' s' :
    accurateRun cfg c x (snd (Estimator.startTask now rnd c' x' s)) s' ->
    accurateRun cfg c x s s'
| run_complete s s1 s' :
    accurateCompletion cfg c x s s1 ->
    accurateRun cfg c x s1 s' ->
    accurateRun cfg c x s s'.

(** Moving the time of observation scales every real weight by one
    factor. *)
Definition shiftFactor (now now' : Z) (D : R) : R :=
  exp (- ((IZR now' - IZR now) / IZR MS_PER_DAY) / D)%R.

(** A memory store as addEntry builds it: distinct keys, each entry
    stored under its own id. *)
Definition wfStore (s : Memory.Store) : Prop := wfObj Memory.id s.

(** Two entries that differ at most in accessCount and lastAccessedAt. *)
Definition sameButAccess (e e' : Memory.TemporalMemoryEntry) : Prop :=
  Memory.id e' = Memory.id e
  /\ Memory.content e' = Memory.content e
  /\ Memory.timestamp e' = Memory.timestamp e
  /\ Memory.decayScore e' = Memory.decayScore e
  /\ Memory.relevanceScore e' = Memory.relevanceScore e
  /\ Memory.temporalContext e' = Memory.temporalContext e
  /\ Memory.associatedTasks e' = Memory.associatedTasks e.

Definition sameButAccessOpt (o o' : option Memory.TemporalMemoryEntry) : Prop :=
  match o, o' with
  | Some e, Some e' => sameButAccess e e'
  | None, None => True
  | _, _ => False
  end.

(** The first of the two criteria of prune, the one on the age. *)
Definition pruneByAge (cutoff minAccessCount : R)
           (e : Memory.TemporalMemoryEntry) : bool :=
  (if Rlt_dec (IZR (Memory.timestamp e)) cutoff then true else false)
  && Memory.geR minAccessCount (IZR (Memory.accessCount e)).

(** A store holding one entry, added at time 1000. *)
Definition helloEntry : Memory.TemporalMemoryEntry :=
  Memory.mkMemory "k1" "hello world" 1000 1.0 1.0 0 1000 None [].

Definition helloStore : Memory.Store := [("k1"%string, helloEntry)].

(** Every stored entry still carries the decayScore written by addEntry. *)
Definition storedDecayOne (s : Memory.Store) : Prop :=
  Forall (fun kv => Memory.decayScore (snd kv) = 1%R) s.

(** The total of the nine counters of [categoryCounts]. *)
Definition sumCounts (counts : TaskCategory -> Z) : Z :=
  (counts research + counts coding + counts writing + counts analysis
   + counts communication + counts scheduling + counts file_operations
   + counts web_browsing + counts other)%Z.

(** The characters a search token is made of: digits, lower-case letters
    and the underscore. *)
Definition tokenChar (c : ascii) : bool :=
  let n := nat_of_ascii c in
  (((48 <=? n) && (n <=? 57)) || ((97 <=? n) && (n <=? 122)) || (n =? 95))%nat.

(** * Properties *)

(** ** Stable sorting *)
Section StableSortFacts.
Context {A : Type} (key : A -> Z).

Lemma sort_insert_perm (x : A) (l : list A) :
  Permutation (sort_insert (descBy key) x l) (x :: l).
Proof.
  induction l as [|y l IH]; simpl; [reflexivity|].
  destruct (descBy key x y); [reflexivity|].
  rewrite IH. apply perm_swap.
Qed.

Lemma js_sort_perm (l : list A) : Permutation (js_sort (descBy key) l) l.
Proof.
  induction l as [|x l IH]; simpl; [constructor|].
  rewrite sort_insert_perm. now constructor.
Qed.

Lemma sort_insert_sorted (x : A) (l : list A) :
  StronglySorted (descending key) l ->
  StronglySorted (descending key) (sort_insert (descBy key) x l).
Proof.
  induction 1 as [|y l Hs IH Hy]; simpl.
  - repeat constructor.
  - unfold descBy at 1.
    destruct (Z.leb_spec (key y - key x) 0) as [Hle|Hgt].
    + constructor; [now constructor|].
      constructor; [unfold descending; lia|].
      eapply Forall_impl; [|exact Hy]. unfold descending. intros; lia.
    + constructor; [exact IH|].
      rewrite sort_insert_perm.
      constructor; [unfold descending; lia|exact Hy].
Qed.

Lemma js_sort_sorted (l : list A) : StronglySorted (descending key) (js_sort (descBy key) l).
Proof.
  induction l as [|x l IH]; simpl; [constructor|].
  now apply sort_insert_sorted.
Qed.

(** Stability: the elements of one key keep their relative order. *)
Lemma sort_insert_stable (p : Z) (x : A) (l : list A) :
  withKey key p (sort_insert (descBy key) x l) = withKey key p (x :: l).
Proof.
  unfold withKey.
  induction l as [|y l IH]; simpl; [reflexivity|].
  unfold descBy at 1.
  destruct (Z.leb_spec (key y - key x) 0) as [Hle|Hgt].
  - reflexivity.
  - simpl in *. rewrite IH.
    destruct (Z.eqb_spec (key x) p), (Z.eqb_spec (key y) p);
      try reflexivity; lia.
Qed.

Lemma js_sort_stable (p : Z) (l : list A) :
  withKey key p (js_sort (descBy key) l) = withKey key p l.
Proof.
  induction l as [|x l IH]; simpl; [reflexivity|].
  rewrite sort_insert_stable. unfold withKey in *. simpl. now rewrite IH.
Qed.
End StableSortFacts.

(** ** Rounding and clamping *)

Lemma Math_max_lower (a b : Q) : (a <= Math_max a b)%Q.
Proof.
  unfold Math_max. destruct (Qle_bool a b) eqn:E.
  - now apply Qle_bool_iff.
  - apply Qle_refl.
Qed.

Lemma Math_max_right (a b : Q) : (b <= Math_max a b)%Q.
Proof.
  unfold Math_max. destruct (Qle_bool a b) eqn:E.
  - apply Qle_refl.
  - apply Qlt_le_weak, Qnot_le_lt. intro H. apply Qle_bool_iff in H. congruence.
Qed.

Lemma Math_min_upper (a b : Q) : (Math_min a b <= a)%Q.
Proof.
  unfold Math_min. destruct (Qle_bool a b) eqn:E.
  - apply Qle_refl.
  - apply Qlt_le_weak, Qnot_le_lt. intro H. apply Qle_bool_iff in H. congruence.
Qed.

Lemma Math_min_lower (a b c : Q) : (c <= a)%Q -> (c <= b)%Q -> (c <= Math_min a b)%Q.
Proof. unfold Math_min. now destruct (Qle_bool a b). Qed.

Lemma Math_round_mono (a b : Q) : (a <= b)%Q -> (Math_round a <= Math_round b)%Z.
Proof.
  intros H. unfold Math_round. apply Qfloor_resp_le.
  apply Qplus_le_compat; [exact H | apply Qle_refl].
Qed.

Lemma Math_round_clamp (q : Q) :
  (0 <= Math_round (Math_min 100 (Math_max 0 q)) <= 100)%Z.
Proof.
  split.
  - change 0%Z with (Math_round 0). apply Math_round_mono.
    apply Math_min_lower; [discriminate | apply Math_max_lower].
  - change 100%Z with (Math_round 100). apply Math_round_mono, Math_min_upper.
Qed.

(** ** Priority scheduler *)
Module SchedulerProofs.
Import Scheduler.
Local Open Scope Z_scope.

Lemma calculatePriority_range (cfg : Config) (now : Z) (t : ScheduledTask) :
  0 <= calculatePriority cfg now t <= 100.
Proof. apply Math_round_clamp. Qed.

Lemma calculatePriority_set_priority cfg now p t :
  calculatePriority cfg now (set_priority p t) = calculatePriority cfg now t.
Proof. reflexivity. Qed.

Lemma refreshOne_range cfg now t :
  priorityInRange t -> priorityInRange (refreshOne cfg now t).
Proof.
  unfold refreshOne, priorityInRange. destruct (is_pending (status t)); simpl; auto.
  intros _. apply calculatePriority_range.
Qed.

Lemma sortTasks_range (s : Store) :
  Forall priorityInRange s -> Forall priorityInRange (sortTasks s).
Proof.
  intros H. unfold sortTasks.
  eapply Permutation_Forall; [|exact H].
  symmetry. apply (js_sort_perm priority).
Qed.

Lemma updateFirst_range tid f s :
  (forall t, priorityInRange t -> priorityInRange (f t)) ->
  Forall priorityInRange s ->
  Forall priorityInRange (snd (updateFirst tid f s)).
Proof.
  intros Hf. induction 1 as [|t s Ht Hs IH]; simpl; [constructor|].
  destruct (String.eqb (id t) tid); simpl.
  - constructor; auto.
  - destruct (updateFirst tid f s) as [r s'] eqn:E. simpl in *.
    constructor; auto.
Qed.

Lemma removeFirst_range tid s :
  Forall priorityInRange s -> Forall priorityInRange (snd (removeFirst tid s)).
Proof.
  induction 1 as [|t s Ht Hs IH]; simpl; [constructor|].
  destruct (String.eqb (id t) tid); simpl; auto.
  destruct (removeFirst tid s) as [r s'] eqn:E. simpl in *.
  constructor; auto.
Qed.

Lemma filter_range (f : ScheduledTask -> bool) s :
  Forall priorityInRange s -> Forall priorityInRange (filter f s).
Proof.
  intros H. apply Forall_forall. intros t Ht.
  apply filter_In in Ht. destruct Ht as [Ht _].
  revert t Ht. now apply Forall_forall.
Qed.

Lemma refreshPriorities_range cfg now s :
  Forall priorityInRange s -> Forall priorityInRange (refreshPriorities cfg now s).
Proof.
  intros H. unfold refreshPriorities. apply sortTasks_range.
  apply Forall_map. eapply Forall_impl; [|exact H].
  intros t. apply refreshOne_range.
Qed.

Lemma step_range cfg s o :
  Forall priorityInRange s -> Forall priorityInRange (step cfg s o).
Proof.
  intros H. destruct o; simpl.
  - apply sortTasks_range. apply Forall_app. split; [exact H|].
    constructor; [|constructor]. apply calculatePriority_range.
  - now apply updateFirst_range.
  - unfold updateTask.
    match goal with
    | |- context [updateFirst ?a ?f ?b] =>
        pose proof (updateFirst_range a f b) as Hu;
        destruct (updateFirst a f b) as [r s'] eqn:E
    end.
    destruct r; simpl; [|exact H].
    apply sortTasks_range. apply Hu; [|exact H].
    intros t _. apply calculatePriority_range.
  - now apply refreshPriorities_range.
  - now apply refreshPriorities_range.
  - now apply removeFirst_range.
  - now apply filter_range.
Qed.

Lemma run_range cfg ops : forall s,
  Forall priorityInRange s -> Forall priorityInRange (run cfg ops s).
Proof.
  induction ops as [|o ops IH]; intros s H; simpl; [exact H|].
  apply IH. now apply step_range.
Qed.

(** C1 (as stated, refuted): for urgency 90, importance 80, no deadline,
    an expected duration of 600000 ms and the default weights, the priority
    returned by addTask is not 79 (nor 78). *)
Lemma addTask_scenario_priority_not_79 :
  priority (fst (addTask defaultConfig 1000 "x" scenarioInput [])) <> 79
  /\ priority (fst (addTask defaultConfig 1000 "x" scenarioInput [])) <> 78.
Proof. split; vm_compute; discriminate. Qed.

(** C1 (amended): for urgency 90, importance 80, no deadline, an expected
    duration of 600000 ms and the default weights, addTask returns a task
    of priority 85: the weighted score is 84.86..., not 78.5, and it is
    not a rounding tie. *)
Theorem addTask_scenario_priority (now : Z) (rnd : string)
        (input : AddTaskInput) (s : Store) :
  in_urgency input = 90%Q ->
  in_importance input = 80%Q ->
  in_deadline input = None ->
  expectedMs (in_estimatedDuration input) = 600000%Q ->
  priority (fst (addTask defaultConfig now rnd input s)) = 85
  /\ (weightedScore defaultConfig now (fst (addTask defaultConfig now rnd input s))
      == 6110 # 72)%Q.
Proof.
  intros Hu Hi Hd He.
  unfold addTask. cbn [fst].
  unfold calculatePriority, weightedScore. cbn -[Math_round Math_min Math_max Qmult Qplus Qdiv Qminus inject_Z show_Z].
  rewrite Hu, Hi, Hd, He. split; vm_compute; reflexivity.
Qed.

Lemma addTask_scenario_priority_witness :
  priority (fst (addTask defaultConfig 1000 "x" scenarioInput [])) = 85
  /\ (weightedScore defaultConfig 1000
        (fst (addTask defaultConfig 1000 "x" scenarioInput [])) == 6110 # 72)%Q.
Proof.
  apply (addTask_scenario_priority 1000 "x" scenarioInput []); reflexivity.
Defined.

(** C10: starting from the empty store, after any sequence of scheduler
    operations, with arbitrary arguments, every stored task has a priority
    in [0, 100], and so has the task that a further addTask returns: the
    weighted score is clamped before it is rounded. *)
Theorem scheduler_priority_in_range (cfg : Config) (ops : list Op) :
  Forall priorityInRange (run cfg ops [])
  /\ forall now rnd input,
       priorityInRange (fst (addTask cfg now rnd input (run cfg ops []))).
Proof.
  split.
  - apply run_range. constructor.
  - intros now rnd input. apply calculatePriority_range.
Qed.

(** C3 (as stated, refuted): after addTask A, addTask B and an updateTask
    that raises A to the priority of B, getTaskList lists B, the task
    added later, before A. *)
Lemma getTaskList_ties_not_by_insertion :
  ~ tiesByInsertion
      (fst (getTaskList defaultConfig 4000 (run defaultConfig tieScenario []))).
Proof.
  intros H.
  assert (E : map (fun t => (id t, createdAt t, priority t))
                  (fst (getTaskList defaultConfig 4000
                          (run defaultConfig tieScenario [])))
              = [("sched_2000_b"%string, 2000, 64);
                 ("sched_1000_a"%string, 1000, 64)])
    by (vm_compute; reflexivity).
  destruct (fst (getTaskList defaultConfig 4000 (run defaultConfig tieScenario [])))
    as [|b [|a [|c l]]]; try discriminate E.
  injection E as Eb1 Eb2 Eb3 Ea1 Ea2 Ea3.
  specialize (H 1%nat 0%nat a b eq_refl eq_refl).
  rewrite Ea3, Eb3, Ea2, Eb2 in H.
  specialize (H eq_refl ltac:(lia)). lia.
Qed.

(** C3 (amended): in every store and at every time, getTaskList returns
    the stored tasks, the pending ones with their priority recomputed, in
    descending order of priority; tasks of equal priority keep the order
    they had in the store before the call (the stable order of the
    previous ranking, which need not be the order of insertion). *)
Theorem getTaskList_sorted_stable (cfg : Config) (now : Z) (s : Store) :
  let l := fst (getTaskList cfg now s) in
  StronglySorted (descending priority) l
  /\ Permutation l (map (refreshOne cfg now) s)
  /\ (forall t, In t l -> status t = pending ->
                priority t = calculatePriority cfg now t)
  /\ (forall p, withKey priority p l
                = withKey priority p (map (refreshOne cfg now) s))
  /\ snd (getTaskList cfg now s) = l.
Proof.
  unfold getTaskList, refreshPriorities, sortTasks. cbn [fst snd].
  change byPriorityDesc with (descBy priority).
  repeat split.
  - apply js_sort_sorted.
  - now rewrite !js_sort_perm.
  - intros t Ht Hp.
    apply (Permutation_in _ (js_sort_perm priority _)) in Ht.
    apply (Permutation_in _ (js_sort_perm priority _)) in Ht.
    apply in_map_iff in Ht. destruct Ht as [t0 [<- _]].
    unfold refreshOne in *. destruct (is_pending (status t0)) eqn:E.
    + reflexivity.
    + rewrite Hp in E. discriminate.
  - intros p. now rewrite !js_sort_stable.
  - clear. generalize (map (refreshOne cfg now) s). intros l.
    assert (H : forall m, StronglySorted (descending priority) m ->
                          js_sort (descBy priority) m = m).
    { induction 1 as [|x m Hm IH Hx]; simpl; [reflexivity|].
      rewrite IH. destruct Hm as [|y m' Hm' Hy]; simpl; [reflexivity|].
      inversion Hx as [|? ? Hxy _]; subst. unfold descBy, descending in *.
      destruct (Z.leb_spec (priority y - priority x) 0); [reflexivity|lia]. }
    symmetry. apply H, js_sort_sorted.
Qed.

Lemma getTaskList_sorted_stable_witness :
  StronglySorted (descending priority)
    (fst (getTaskList defaultConfig 4000 (run defaultConfig tieScenario [])))
  /\ priority tieSecond = calculatePriority defaultConfig 4000 tieSecond.
Proof.
  destruct (getTaskList_sorted_stable defaultConfig 4000
              (run defaultConfig tieScenario [])) as [Hs [_ [Hf _]]].
  split; [exact Hs|].
  apply Hf; [|reflexivity]. vm_compute. left. reflexivity.
Defined.

End SchedulerProofs.

(** ** Confidence utilities *)
Module ConfidenceProofs.
Import Confidence.

Ltac qlra := Lqa.lra.
Ltac rlra := Lra.lra.

Lemma Qle_bool_false (a b : Q) : Qle_bool a b = false -> (b < a)%Q.
Proof.
  intros E. apply Qnot_le_lt. intro H. apply Qle_bool_iff in H. congruence.
Qed.

(** Turns the tests of the code into order facts. *)
Ltac qtests :=
  repeat match goal with
    | H : Qle_bool _ _ = true |- _ => apply Qle_bool_iff in H
    | H : Qle_bool _ _ = false |- _ => apply Qle_bool_false in H
    | H : Qeq_bool _ _ = true |- _ => apply Qeq_bool_iff in H
    | H : Qeq_bool _ _ = false |- _ => apply Qeq_bool_neq in H
    end.

Ltac qbranch :=
  repeat match goal with
    | |- context [Qle_bool ?a ?b] => destruct (Qle_bool a b) eqn:?
    | |- context [Qeq_bool ?a ?b] => destruct (Qeq_bool a b) eqn:?
    end; qtests.

Lemma ratio_times (est actual : Q) :
  ~ (actual == 0)%Q -> (est == est / actual * actual)%Q.
Proof. intros H. field. exact H. Qed.

Lemma calculateAccuracy_range (est actual : Q) :
  (0 <= calculateAccuracy est actual <= 1)%Q.
Proof.
  unfold calculateAccuracy, Math_max. qbranch; qlra.
Qed.

Lemma calculateAccuracy_zero (est actual : Q) :
  (actual == 0)%Q -> (calculateAccuracy est actual == 0)%Q.
Proof.
  intros H. unfold calculateAccuracy.
  destruct (Qeq_bool actual 0) eqn:E; [reflexivity|].
  apply Qeq_bool_neq in E. contradiction.
Qed.

Lemma calculateAccuracy_over (est actual : Q) :
  ~ (actual == 0)%Q -> (1 <= est / actual)%Q ->
  calculateAccuracy est actual = Math_max 0 (1 - (est / actual - 1) * 0.5).
Proof.
  intros H0 H1. unfold calculateAccuracy.
  destruct (Qeq_bool actual 0) eqn:E; qtests; [contradiction|].
  destruct (Qle_bool 1 (est / actual)) eqn:E1; qtests; [reflexivity|qlra].
Qed.

Lemma calculateAccuracy_under (est actual : Q) :
  ~ (actual == 0)%Q -> (est / actual < 1)%Q ->
  calculateAccuracy est actual = Math_max 0 (est / actual).
Proof.
  intros H0 H1. unfold calculateAccuracy.
  destruct (Qeq_bool actual 0) eqn:E; qtests; [contradiction|].
  destruct (Qle_bool 1 (est / actual)) eqn:E1; qtests; [qlra|reflexivity].
Qed.

(** C5 (as stated, refuted): an estimate equal to an actual duration of 0
    has accuracy 0, not 1; and beyond the ratio 3 the accuracy no longer
    decreases (it is 0 at the ratios 4 and 5 alike). *)
Lemma calculateAccuracy_not_strict :
  ~ (calculateAccuracy 0 0 == 1)%Q
  /\ ~ (calculateAccuracy 5 1 < calculateAccuracy 4 1)%Q.
Proof. split; vm_compute; intro H; discriminate H. Qed.

(** C5 (amended): calculateAccuracy returns 0 when actual is 0 (also when
    the estimate is 0 too); for a non-zero actual it returns 1 exactly
    when est equals actual, max(0, 1-(ratio-1)*0.5) for a ratio
    est/actual of at least 1 and max(0, ratio) for a ratio below 1 (the
    ratio itself when it is not negative); it strictly decreases as the
    ratio departs from 1 only while the ratio stays in (0, 3), and is 0
    for every ratio of 3 or more and every ratio of 0 or less. *)
Theorem calculateAccuracy_profile (est actual est' actual' : Q) :
  ((actual == 0 -> calculateAccuracy est actual == 0)
   /\ (~ actual == 0 ->
       (est == actual <-> calculateAccuracy est actual == 1))
   /\ (~ actual == 0 -> 1 <= est / actual ->
       calculateAccuracy est actual == Math_max 0 (1 - (est / actual - 1) * 0.5))
   /\ (~ actual == 0 -> est / actual < 1 ->
       calculateAccuracy est actual == Math_max 0 (est / actual))
   /\ (~ actual == 0 -> 0 <= est / actual < 1 ->
       calculateAccuracy est actual == est / actual)
   /\ (~ actual == 0 -> ~ actual' == 0 ->
       1 <= est / actual < est' / actual' -> est / actual < 3 ->
       calculateAccuracy est' actual' < calculateAccuracy est actual)
   /\ (~ actual == 0 -> ~ actual' == 0 ->
       est' / actual' < est / actual <= 1 -> 0 < est / actual ->
       calculateAccuracy est' actual' < calculateAccuracy est actual)
   /\ (~ actual == 0 -> 3 <= est / actual \/ est / actual <= 0 ->
       calculateAccuracy est actual == 0))%Q.
Proof.
  repeat apply conj.
  - apply calculateAccuracy_zero.
  - intros H0. pose proof (ratio_times est actual H0) as Hr. split.
    + intros He. assert (H1 : (est / actual == 1)%Q) by (rewrite He; field; exact H0).
      rewrite calculateAccuracy_over by (try exact H0; qlra).
      unfold Math_max. qbranch; qlra.
    + intros Ha.
      destruct (Qlt_le_dec (est / actual) 1) as [Hlt|Hge].
      * rewrite calculateAccuracy_under in Ha by assumption.
        revert Ha. unfold Math_max. qbranch; qlra.
      * rewrite calculateAccuracy_over in Ha by assumption.
        assert (H1 : (est / actual == 1)%Q).
        { revert Ha. unfold Math_max. qbranch; qlra. }
        rewrite Hr, H1. ring.
  - intros H0 H1. now rewrite calculateAccuracy_over.
  - intros H0 H1. now rewrite calculateAccuracy_under.
  - intros H0 [H1 H2]. rewrite calculateAccuracy_under by assumption.
    unfold Math_max. qbranch; qlra.
  - intros H0 H0' [H1 H2] H3.
    rewrite !calculateAccuracy_over by (try assumption; qlra).
    unfold Math_max. qbranch; qlra.
  - intros H0 H0' [H1 H2] H3.
    rewrite (calculateAccuracy_under est' actual') by (try assumption; qlra).
    destruct (Qlt_le_dec (est / actual) 1) as [Hlt|Hge].
    + rewrite calculateAccuracy_under by assumption.
      unfold Math_max. qbranch; qlra.
    + rewrite calculateAccuracy_over by assumption.
      unfold Math_max. qbranch; qlra.
  - intros H0 [H3|Hn].
    + rewrite calculateAccuracy_over by (try assumption; qlra).
      unfold Math_max. qbranch; qlra.
    + rewrite calculateAccuracy_under by (try assumption; qlra).
      unfold Math_max. qbranch; qlra.
Qed.

Ltac qeval :=
  vm_compute;
  first [ reflexivity | discriminate
        | let H := fresh in intro H; discriminate H ].

Lemma calculateAccuracy_profile_witness :
  (calculateAccuracy 7 0 == 0
   /\ calculateAccuracy 5 5 == 1
   /\ calculateAccuracy 1 2 == 1 / 2
   /\ calculateAccuracy 3 1 < calculateAccuracy 2 1
   /\ calculateAccuracy 1 4 < calculateAccuracy 1 2
   /\ calculateAccuracy 4 1 == 0)%Q.
Proof.
  repeat apply conj.
  - apply (proj1 (calculateAccuracy_profile 7 0 0 0)). qeval.
  - apply (proj1 (proj2 (calculateAccuracy_profile 5 5 0 0))); qeval.
  - apply (proj1 (proj2 (proj2 (proj2 (proj2 (calculateAccuracy_profile 1 2 0 0))))));
      [qeval | split; qeval].
  - apply (proj1 (proj2 (proj2 (proj2 (proj2 (proj2
             (calculateAccuracy_profile 2 1 3 1)))))));
      [qeval | qeval | split; qeval | qeval].
  - apply (proj1 (proj2 (proj2 (proj2 (proj2 (proj2 (proj2
             (calculateAccuracy_profile 1 2 1 4))))))));
      [qeval | qeval | split; qeval | qeval].
  - apply (proj2 (proj2 (proj2 (proj2 (proj2 (proj2 (proj2
             (calculateAccuracy_profile 4 1 0 0))))))));
      [qeval | left; qeval].
Defined.

End ConfidenceProofs.

(** ** Object maps *)
Section ObjectMapFacts.
Context {V : Type}.
Implicit Types (m : obj V) (k : string) (v : V).

Lemma obj_get_In k m v : obj_get k m = Some v -> In (k, v) m.
Proof.
  induction m as [|[k' v'] m IH]; simpl; [discriminate|].
  destruct (String.eqb_spec k' k) as [->|Hne].
  - intros [= ->]. now left.
  - intros H. right. now apply IH.
Qed.

Lemma obj_get_not_key k m : ~ In k (obj_keys m) -> obj_get k m = None.
Proof.
  induction m as [|[k' v'] m IH]; simpl; [reflexivity|].
  intros H. destruct (String.eqb_spec k' k) as [->|Hne].
  - exfalso. apply H. now left.
  - apply IH. intros Hin. apply H. now right.
Qed.

Lemma In_obj_get k v m : NoDup (obj_keys m) -> In (k, v) m -> obj_get k m = Some v.
Proof.
  induction m as [|[k' v'] m IH]; simpl; [contradiction|].
  intros Hnd [H|H].
  - injection H as -> ->. now rewrite String.eqb_refl.
  - inversion Hnd as [|? ? Hk Hnd']; subst.
    destruct (String.eqb_spec k' k) as [->|Hne].
    + exfalso. apply Hk. apply in_map_iff. now exists (k, v).
    + now apply IH.
Qed.

Lemma obj_get_delete_same k m : obj_get k (obj_delete k m) = None.
Proof.
  induction m as [|[k' v'] m IH]; simpl; [reflexivity|].
  destruct (String.eqb_spec k' k) as [->|Hne]; simpl; [exact IH|].
  destruct (String.eqb_spec k' k); [contradiction|exact IH].
Qed.

Lemma obj_get_delete_other k k' m :
  k' <> k -> obj_get k' (obj_delete k m) = obj_get k' m.
Proof.
  intros Hne. induction m as [|[k0 v0] m IH]; simpl; [reflexivity|].
  destruct (String.eqb_spec k0 k) as [->|Hk]; simpl.
  - destruct (String.eqb_spec k k'); [congruence|exact IH].
  - now rewrite IH.
Qed.

Lemma obj_delete_not_key k m : ~ In k (obj_keys m) -> obj_delete k m = m.
Proof.
  induction m as [|[k' v'] m IH]; simpl; [reflexivity|].
  intros H. destruct (String.eqb_spec k' k) as [->|Hne]; simpl.
  - exfalso. apply H. now left.
  - f_equal. apply IH. intros Hin. apply H. now right.
Qed.


Lemma obj_delete_keys_incl k m k' :
  In k' (obj_keys (obj_delete k m)) -> In k' (obj_keys m).
Proof.
  unfold obj_keys, obj_delete. intros H.
  apply in_map_iff in H. destruct H as [[k0 v0] [<- H]].
  apply filter_In in H. destruct H as [H _].
  apply in_map_iff. now exists (k0, v0).
Qed.

Lemma obj_delete_NoDup k m : NoDup (obj_keys m) -> NoDup (obj_keys (obj_delete k m)).
Proof.
  induction m as [|[k' v'] m IH]; simpl; [constructor|].
  intros Hnd. inversion Hnd as [|? ? Hk Hnd']; subst.
  destruct (String.eqb k' k); simpl; [now apply IH|].
  constructor; [|now apply IH].
  intros Hin. apply Hk. eapply obj_delete_keys_incl. exact Hin.
Qed.
End ObjectMapFacts.

(** ** Task time estimator *)
Module EstimatorProofs.
Import Confidence Estimator.

Lemma resolveTask_explicit (k : string) (t : ActiveTask) (m : ActiveTasks) :
  k <> ""%string -> obj_get k m = Some t ->
  resolveTask (Some k) m = Typed (Some t, obj_delete k m).
Proof.
  intros Hk Hg. unfold resolveTask.
  destruct (String.eqb_spec k ""); [contradiction|]. now rewrite Hg.
Qed.

Lemma last_values (m : ActiveTasks) (k : string) (t : ActiveTask) :
  last (map Some (obj_values (m ++ [(k, t)]))) None = Some t.
Proof.
  unfold obj_values. rewrite !map_app. simpl. apply last_last.
Qed.

Lemma inherited_nonempty (k : string) : inherited k = true -> k <> ""%string.
Proof. intros H ->. discriminate H. Qed.


Lemma unresolved_not_member (tid : option string) (m : ActiveTasks) :
  unresolved tid m -> ~ hitsMember tid m.
Proof.
  intros Hu [k [-> [Hg Hi]]]. simpl in Hu.
  destruct Hu as [->|[_ Hn]]; [discriminate Hi|congruence].
Qed.



Lemma resolveTask_member (tid : option string) (m : ActiveTasks) :
  resolveTask tid m = OnMember <-> hitsMember tid m.
Proof.
  unfold resolveTask. split.
  - destruct tid as [k|];
      [|destruct (last (map Some (obj_values m)) None); discriminate].
    destruct (String.eqb k "");
      [destruct (last (map Some (obj_values m)) None); discriminate|].
    destruct (obj_get k m) eqn:Eg; [discriminate|].
    destruct (inherited k) eqn:Ei;
      [|destruct (last (map Some (obj_values m)) None); discriminate].
    intros _. now exists k.
  - intros [k [-> [Hg Hi]]].
    destruct (String.eqb_spec k "") as [->|_]; [discriminate Hi|].
    now rewrite Hg, Hi.
Qed.

Lemma completeTask_member cfg now tid s :
  completeTask cfg now tid s = OnMember <-> hitsMember tid (activeTasks s).
Proof.
  rewrite <- resolveTask_member. unfold completeTask.
  destruct (resolveTask tid (activeTasks s)) as [[[task|] remaining]|];
    split; intros H; try discriminate H; reflexivity.
Qed.

Lemma completeTask_some cfg now tid s t remaining :
  resolveTask tid (activeTasks s) = Typed (Some t, remaining) ->
  exists e s', completeTask cfg now tid s = Typed (Some e, s')
               /\ h_taskId e = taskId t
               /\ h_category e = category t
               /\ h_complexity e = complexity t
               /\ activeTasks s' = remaining.
Proof.
  intros E. unfold completeTask. rewrite E.
  eexists. eexists. split; [reflexivity|]. cbn. auto.
Qed.





End EstimatorProofs.

(** ** Exponential decay *)
Module DecayProofs.
Local Open Scope R_scope.

Lemma ln_half_neg : ln (1 / 2) < 0.
Proof.
  rewrite <- ln_1. apply ln_increasing; Lra.lra.
Qed.

Lemma Rpower_half_decreasing (x y : R) :
  x < y -> Rpower (1 / 2) y < Rpower (1 / 2) x.
Proof.
  intros H. unfold Rpower. apply exp_increasing.
  pose proof ln_half_neg. Lra.nra.
Qed.

Lemma exponentialDecay_at_zero (v h : R) : h <> 0 -> exponentialDecay v h 0 = v.
Proof.
  intros H. unfold exponentialDecay.
  replace (0 / h) with 0 by (field; exact H).
  rewrite Rpower_O by Lra.lra. ring.
Qed.

(** C8: for every positive half-life, exponentialDecay(1.0, halfLife,
    halfLife) is 0.5, and the decay score 0.5^(age/halfLife) strictly
    decreases as the age grows. *)
Theorem exponentialDecay_half_life (halfLife : R) :
  0 < halfLife ->
  exponentialDecay 1.0 halfLife halfLife = 0.5
  /\ forall age age', age < age' ->
       exponentialDecay 1.0 halfLife age' < exponentialDecay 1.0 halfLife age.
Proof.
  intros Hh. unfold exponentialDecay. split.
  - replace (halfLife / halfLife) with 1 by (field; Lra.lra).
    rewrite Rpower_1 by Lra.lra. Lra.lra.
  - intros age age' Hlt.
    assert (Hq : age / halfLife < age' / halfLife).
    { unfold Rdiv. apply Rmult_lt_compat_r; [|exact Hlt].
      now apply Rinv_0_lt_compat. }
    pose proof (Rpower_half_decreasing _ _ Hq). Lra.lra.
Qed.

Lemma exponentialDecay_half_life_witness :
  exponentialDecay 1.0 (7 * IZR MS_PER_DAY) (7 * IZR MS_PER_DAY) = 0.5
  /\ exponentialDecay 1.0 (7 * IZR MS_PER_DAY) 2000
     < exponentialDecay 1.0 (7 * IZR MS_PER_DAY) 1000.
Proof.
  assert (H : 0 < 7 * IZR MS_PER_DAY) by (unfold MS_PER_DAY; Lra.lra).
  destruct (exponentialDecay_half_life (7 * IZR MS_PER_DAY) H) as [H1 H2].
  split; [exact H1|]. apply H2. Lra.lra.
Defined.

End DecayProofs.

(** ** Math.exp inside and outside the normal range *)
Module ExpProofs.
Local Open Scope R_scope.

Lemma exp_nat_upper (n : nat) : exp (INR n) <= 3 ^ n.
Proof.
  induction n as [|n IH].
  - simpl. rewrite exp_0. Lra.lra.
  - rewrite S_INR, exp_plus. change (3 ^ S n) with (3 * 3 ^ n).
    pose proof exp_le_3 as H3. pose proof (exp_pos (INR n)) as Hp.
    pose proof (exp_pos 1) as H1. Lra.nra.
Qed.

Lemma exp_nat_lower (n : nat) : 2 ^ n <= exp (INR n).
Proof.
  induction n as [|n IH].
  - simpl. rewrite exp_0. Lra.lra.
  - rewrite S_INR, exp_plus. change (2 ^ S n) with (2 * 2 ^ n).
    assert (H2 : 2 <= exp 1).
    { left. replace 2 with (1 + 1) by ring. apply exp_ineq1. Lra.lra. }
    assert (Hp : 0 < 2 ^ n) by (apply pow_lt; Lra.lra).
    Lra.nra.
Qed.

Lemma underflowBound_pos : 0 < underflowBound.
Proof.
  unfold underflowBound. apply Rinv_0_lt_compat. apply IZR_lt. reflexivity.
Qed.

Lemma exp_600 : exp 600 <= IZR (2 ^ 1075).
Proof.
  apply Rle_trans with (3 ^ 600).
  - pose proof (exp_nat_upper 600) as H.
    rewrite (INR_IZR_INZ 600) in H. exact H.
  - rewrite pow_IZR. apply IZR_le.
    vm_compute. discriminate.
Qed.

Lemma exp_1100 : IZR (2 ^ 1075) < exp 1100.
Proof.
  apply Rlt_le_trans with (2 ^ 1100).
  - rewrite pow_IZR. apply IZR_lt.
    vm_compute. reflexivity.
  - pose proof (exp_nat_lower 1100) as H.
    rewrite (INR_IZR_INZ 1100) in H. exact H.
Qed.

Lemma exp_monotone (x y : R) : x <= y -> exp x <= exp y.
Proof.
  intros [H|H]; [left; now apply exp_increasing | right; now rewrite H].
Qed.

(** Down to -600 and up to 0 the result is the exponential itself. *)
Lemma Math_exp_normal (x : R) : -600 <= x <= 0 -> Math_exp x = Num (exp x).
Proof.
  intros [Hlo Hhi]. unfold Math_exp.
  assert (H1 : exp x <= 1) by (rewrite <- exp_0; now apply exp_monotone).
  assert (H2 : underflowBound <= exp x).
  { apply Rle_trans with (exp (-600)); [|now apply exp_monotone].
    replace (exp (-600)) with (/ exp 600)
      by (rewrite <- exp_Ropp; f_equal; Lra.lra).
    unfold underflowBound.
    apply Rinv_le_contravar; [apply exp_pos|apply exp_600]. }
  assert (H3 : 1 < overflowBound).
  { unfold overflowBound. apply IZR_lt. reflexivity. }
  destruct (Rlt_dec (exp x) underflowBound); [Lra.lra|].
  destruct (Rle_dec overflowBound (exp x)); [Lra.lra|reflexivity].
Qed.

(** From -1100 downwards the result is 0. *)
Lemma Math_exp_underflow (x : R) : x <= -1100 -> Math_exp x = Num 0.
Proof.
  intros Hx. unfold Math_exp.
  destruct (Rlt_dec (exp x) underflowBound) as [_|Hn]; [reflexivity|].
  exfalso. apply Hn.
  apply Rle_lt_trans with (exp (-1100)); [now apply exp_monotone|].
  replace (exp (-1100)) with (/ exp 1100)
    by (rewrite <- exp_Ropp; f_equal; Lra.lra).
  unfold underflowBound.
  apply Rinv_lt_contravar; [|apply exp_1100].
  apply Rmult_lt_0_compat; [apply IZR_lt; reflexivity|apply exp_pos].
Qed.

End ExpProofs.

(** ** Confidence of the estimate *)
Module LearningProofs.
Import Confidence Estimator.
Local Open Scope R_scope.

Ltac rlra := Lra.lra.

(** Inside the window the weight computed by the code is the real one. *)
Lemma entryWeight_window now D h :
  0 < D -> inWindow now D h -> entryWeight now D h = Num (realWeight now D h).
Proof.
  intros HD [H0 H1]. unfold entryWeight, realWeight.
  apply ExpProofs.Math_exp_normal.
  set (a := (IZR now - IZR (h_timestamp h)) / IZR MS_PER_DAY) in *.
  assert (Hi : 0 < / D) by (now apply Rinv_0_lt_compat).
  assert (E : - a / D = - (a * / D)) by (unfold Rdiv; ring).
  assert (Hq : 0 <= a * / D) by (apply Rmult_le_pos; rlra).
  assert (Hq' : a * / D <= 600).
  { apply (Rmult_le_reg_r D); [exact HD|].
    rewrite Rmult_assoc, Rinv_l by rlra. rlra. }
  rewrite E. rlra.
Qed.

Lemma accumulate_sums (now : Z) (D : R) (l : list TaskHistoryEntry) :
  0 < D -> Forall (inWindow now D) l ->
  accumulate now D l = (Num (weightedSum now D l), Num (weightSum now D l)).
Proof.
  intros HD Hw. unfold accumulate.
  assert (G : forall a b,
             fold_left
               (fun acc h =>
                  let w := entryWeight now D h in
                  (JS.add (fst acc) (JS.mul (Num (Q2R (h_accuracy h))) w),
                   JS.add (snd acc) w)) l (Num a, Num b)
             = (Num (a + weightedSum now D l), Num (b + weightSum now D l))).
  { induction Hw as [|h l Hh Hl IH]; intros a b; simpl.
    - f_equal; f_equal; ring.
    - rewrite (entryWeight_window now D h HD Hh). cbn [JS.mul JS.add].
      rewrite IH. f_equal; f_equal; ring. }
  rewrite G. f_equal; f_equal; ring.
Qed.

(** Outside it, once every entry is 1100 decay periods old or older, all
    weights are 0 and so are both sums. *)
Lemma accumulate_underflow (now : Z) (D : R) (l : list TaskHistoryEntry) :
  0 < D ->
  Forall (fun h => 1100 * D <= (IZR now - IZR (h_timestamp h)) / IZR MS_PER_DAY) l ->
  accumulate now D l = (Num 0, Num 0).
Proof.
  intros HD Hw. unfold accumulate.
  induction Hw as [|h l Hh Hl IH]; simpl; [reflexivity|].
  assert (E : entryWeight now D h = Num 0).
  { unfold entryWeight. apply ExpProofs.Math_exp_underflow.
    set (a := (IZR now - IZR (h_timestamp h)) / IZR MS_PER_DAY) in *.
    assert (Hi : 0 < / D) by (now apply Rinv_0_lt_compat).
    assert (Hq : 1100 <= a * / D).
    { apply (Rmult_le_reg_r D); [exact HD|].
      rewrite Rmult_assoc, Rinv_l by rlra. rlra. }
    replace (- a / D) with (- (a * / D)) by (unfold Rdiv; ring). rlra. }
  rewrite E. cbn [JS.mul JS.add].
  replace (0 + Q2R (h_accuracy h) * 0) with 0 by ring.
  replace (0 + 0) with 0 by ring. exact IH.
Qed.

Lemma realWeight_pos now D h : 0 < realWeight now D h.
Proof. apply exp_pos. Qed.

Lemma weightSum_pos now D l : l <> [] -> 0 < weightSum now D l.
Proof.
  destruct l as [|h l]; [congruence|]. intros _. simpl.
  assert (H : 0 <= weightSum now D l).
  { induction l as [|h' l IH]; simpl; [rlra|].
    pose proof (realWeight_pos now D h'). rlra. }
  pose proof (realWeight_pos now D h). rlra.
Qed.

Lemma weightSum_nonneg now D l : 0 <= weightSum now D l.
Proof.
  induction l as [|h l IH]; simpl; [rlra|].
  pose proof (realWeight_pos now D h). rlra.
Qed.

Lemma accuracyInRange_R h :
  accuracyInRange h -> 0 <= Q2R (h_accuracy h) <= 1.
Proof.
  intros [H0 H1]. apply Qle_Rle in H0, H1.
  rewrite RMicromega.Q2R_0 in H0. rewrite RMicromega.Q2R_1 in H1. rlra.
Qed.

Lemma weightedSum_bounds now D l :
  Forall accuracyInRange l ->
  0 <= weightedSum now D l <= weightSum now D l.
Proof.
  induction 1 as [|h l Hh Hl IH]; simpl; [rlra|].
  pose proof (realWeight_pos now D h).
  pose proof (accuracyInRange_R h Hh). Lra.nra.
Qed.

Lemma realWeight_shift now now' D h :
  realWeight now' D h = realWeight now D h * shiftFactor now now' D.
Proof.
  unfold realWeight, shiftFactor. rewrite <- exp_plus. f_equal.
  unfold Rdiv. ring.
Qed.

Lemma weightSum_shift now now' D l :
  weightSum now' D l = weightSum now D l * shiftFactor now now' D.
Proof.
  induction l as [|h l IH]; simpl; [ring|].
  rewrite IH, (realWeight_shift now now'). ring.
Qed.

Lemma weightedSum_shift now now' D l :
  weightedSum now' D l = weightedSum now D l * shiftFactor now now' D.
Proof.
  induction l as [|h l IH]; simpl; [ring|].
  rewrite IH, (realWeight_shift now now'). ring.
Qed.

Lemma weightedAccuracy_shift now now' D l :
  l <> [] ->
  weightedSum now' D l / weightSum now' D l
  = weightedSum now D l / weightSum now D l.
Proof.
  intros Hl. rewrite (weightedSum_shift now now'), (weightSum_shift now now').
  pose proof (weightSum_pos now D l Hl).
  assert (0 < shiftFactor now now' D) by apply exp_pos.
  field. split; rlra.
Qed.

Lemma filter_matches_idem c x (h : list TaskHistoryEntry) :
  filter (matches c x) (filter (matches c x) h) = filter (matches c x) h.
Proof.
  induction h as [|e h IH]; simpl; [reflexivity|].
  destruct (matches c x e) eqn:E; simpl; [|exact IH].
  now rewrite E, IH.
Qed.

(** Inside the window calculateConfidence returns the number given by the
    real weights. *)
Lemma calculateConfidence_eq now h c x m D :
  0 < D -> Forall (inWindow now D) (filter (matches c x) h) ->
  calculateConfidence now h c x m D
  = Num (confidenceOfList now m D (filter (matches c x) h)).
Proof.
  intros HD Hw. unfold calculateConfidence, confidenceOfList.
  set (l := filter (matches c x) h) in *.
  destruct l as [|e l'] eqn:El; [reflexivity|]. rewrite <- El in *.
  destruct (Rlt_dec (INR (List.length l)) m); [reflexivity|].
  rewrite (accumulate_sums now D l HD Hw).
  assert (Hp : 0 < weightSum now D l)
    by (apply weightSum_pos; rewrite El; discriminate).
  cbn [JS.positive].
  destruct (Rlt_dec 0 (weightSum now D l)) as [_|Hn]; [|contradiction].
  unfold JS.div.
  destruct (Req_dec_T (weightSum now D l) 0) as [E0|_]; [rlra|].
  reflexivity.
Qed.

(** Once every matching entry is 1100 decay periods old or older, and
    there are enough samples, the weighted accuracy is replaced by 0.5. *)
Lemma calculateConfidence_underflow now h c x m D :
  0 < D ->
  Forall (fun e => 1100 * D <= (IZR now - IZR (h_timestamp e)) / IZR MS_PER_DAY)
         (filter (matches c x) h) ->
  filter (matches c x) h <> [] ->
  ~ INR (List.length (filter (matches c x) h)) < m ->
  calculateConfidence now h c x m D
  = Num (fullConfidence (INR (List.length (filter (matches c x) h))) 0.5).
Proof.
  intros HD Hw Hne Hm. unfold calculateConfidence.
  set (l := filter (matches c x) h) in *.
  destruct l as [|e l'] eqn:El; [congruence|]. rewrite <- El in *.
  destruct (Rlt_dec (INR (List.length l)) m); [contradiction|].
  rewrite (accumulate_underflow now D l HD Hw).
  cbn [JS.positive].
  destruct (Rlt_dec 0 0) as [H0|_]; [rlra|]. reflexivity.
Qed.

Lemma fullConfidence_mono n n' a a' :
  n <= n' -> a <= a' -> fullConfidence n a <= fullConfidence n' a'.
Proof.
  intros Hn Ha. unfold fullConfidence.
  apply Rle_min_compat_l.
  assert (Rmin 0.2 (n * 0.02) <= Rmin 0.2 (n' * 0.02))
    by (apply Rle_min_compat_l; rlra).
  rlra.
Qed.

Lemma fullConfidence_bounds n a :
  0 <= n -> 0 <= a -> 0.5 <= fullConfidence n a <= 0.95.
Proof.
  intros Hn Ha. unfold fullConfidence. split.
  - apply Rmin_glb; [rlra|].
    assert (0 <= Rmin 0.2 (n * 0.02)) by (apply Rmin_glb; rlra). rlra.
  - apply Rmin_l.
Qed.

(** One more sample makes up for a weighted accuracy that falls from 1
    to 14/15. *)
Lemma fullConfidence_step n :
  fullConfidence n 1 <= fullConfidence (n + 1) (14 / 15).
Proof.
  unfold fullConfidence.
  destruct (Rle_dec 0.2 (n * 0.02)) as [H|H];
    destruct (Rle_dec 0.2 ((n + 1) * 0.02)) as [H'|H'];
    rewrite ?(Rmin_left 0.2 (n * 0.02)), ?(Rmin_right 0.2 (n * 0.02)),
      ?(Rmin_left 0.2 ((n + 1) * 0.02)), ?(Rmin_right 0.2 ((n + 1) * 0.02))
      by rlra;
    apply Rmin_glb; try apply Rmin_l;
    (eapply Rle_trans; [apply Rmin_r|rlra])
    || (eapply Rle_trans; [apply Rmin_l|rlra]).
Qed.

Lemma confidenceOf_list cfg now s c x :
  confidenceOf cfg now s c x
  = confidenceOfList now (Q2R (minSamplesForEstimate cfg))
                     (Q2R (confidenceDecayDays cfg))
                     (filter (matches c x) (taskHistory s)).
Proof. reflexivity. Qed.

Lemma weightedAccuracy_bounds now D l :
  l <> [] -> Forall accuracyInRange l ->
  0 <= weightedSum now D l / weightSum now D l <= 1.
Proof.
  intros Hl Hr.
  pose proof (weightSum_pos now D l Hl) as Hw.
  pose proof (weightedSum_bounds now D l Hr) as [H0 H1].
  split.
  - apply Rmult_le_pos; [exact H0|]. left. now apply Rinv_0_lt_compat.
  - apply (Rmult_le_reg_r (weightSum now D l)); [exact Hw|].
    unfold Rdiv. rewrite Rmult_assoc, Rinv_l by rlra. rlra.
Qed.

Lemma ramp_bounds n m : 1 <= n -> n < m -> 0.3 < 0.3 + n / m * 0.2 < 0.5.
Proof.
  intros Hn Hm.
  assert (Hq : 0 < n / m < 1).
  { split.
    - apply Rdiv_lt_0_compat; rlra.
    - apply (Rmult_lt_reg_r m); [rlra|].
      unfold Rdiv. rewrite Rmult_assoc, Rinv_l by rlra. rlra. }
  rlra.
Qed.

Lemma length_pos_INR {A} (l : list A) : l <> [] -> 1 <= INR (List.length l).
Proof.
  destruct l as [|a l]; [congruence|]. intros _.
  change (List.length (a :: l)) with (S (List.length l)). rewrite S_INR.
  pose proof (pos_INR (List.length l)). rlra.
Qed.

Lemma confidenceOfList_bounds now m D l :
  Forall accuracyInRange l -> 0.3 <= confidenceOfList now m D l <= 0.95.
Proof.
  intros Hr. unfold confidenceOfList.
  destruct l as [|e l'] eqn:El; [rlra|]. rewrite <- El in *.
  assert (Hl : l <> []) by (rewrite El; discriminate).
  pose proof (length_pos_INR l Hl) as Hn.
  destruct (Rlt_dec (INR (List.length l)) m) as [Hlt|Hge].
  - pose proof (ramp_bounds _ _ Hn Hlt). rlra.
  - pose proof (weightedAccuracy_bounds now D l Hl Hr) as [Ha _].
    pose proof (fullConfidence_bounds (INR (List.length l)) _ ltac:(rlra) Ha).
    rlra.
Qed.

Lemma confidenceOfList_time now now' m D l :
  confidenceOfList now' m D l = confidenceOfList now m D l.
Proof.
  unfold confidenceOfList. destruct l as [|e l'] eqn:El; [reflexivity|].
  rewrite (weightedAccuracy_shift now now') by discriminate. reflexivity.
Qed.

Lemma weightedSum_app now D l l' :
  weightedSum now D (l ++ l') = weightedSum now D l + weightedSum now D l'.
Proof. induction l as [|h l IH]; simpl; [ring|]. rewrite IH. ring. Qed.

Lemma weightSum_app now D l l' :
  weightSum now D (l ++ l') = weightSum now D l + weightSum now D l'.
Proof. induction l as [|h l IH]; simpl; [ring|]. rewrite IH. ring. Qed.

Lemma frac_le a b c d : 0 < b -> 0 < d -> a * d <= c * b -> a / b <= c / d.
Proof.
  intros Hb Hd H.
  replace (a / b) with (a * d * / (b * d)) by (field; split; rlra).
  replace (c / d) with (c * b * / (b * d)) by (field; split; rlra).
  apply Rmult_le_compat_r; [|exact H].
  left. apply Rinv_0_lt_compat. Lra.nra.
Qed.

Lemma le_frac a c d : 0 < d -> a * d <= c -> a <= c / d.
Proof.
  intros Hd H. apply (Rmult_le_reg_r d); [exact Hd|].
  unfold Rdiv. rewrite Rmult_assoc, Rinv_l by rlra. rlra.
Qed.

Lemma realWeight_mono now D a e :
  0 < D -> (h_timestamp a <= h_timestamp e)%Z ->
  realWeight now D a <= realWeight now D e.
Proof.
  intros HD Ht. unfold realWeight.
  apply IZR_le in Ht.
  assert (Hday : 0 < IZR MS_PER_DAY) by (unfold MS_PER_DAY; rlra).
  apply ExpProofs.exp_monotone.
  unfold Rdiv. apply Rmult_le_compat_r; [left; now apply Rinv_0_lt_compat|].
  apply Ropp_le_contravar. apply Rmult_le_compat_r; [|rlra].
  left. now apply Rinv_0_lt_compat.
Qed.

(** One more matching entry of accuracy at least 14/15 does not lower the
    confidence: where the weighted accuracy falls, it falls by 1/15 at
    most, which costs 0.02, the gain of one more sample; and once the
    samples count no more, the value is above the cap either way. *)
Lemma confidenceOfList_snoc now now' m D l e :
  Forall accuracyInRange l -> 14 / 15 <= Q2R (h_accuracy e) <= 1 ->
  confidenceOfList now m D l <= confidenceOfList now' m D (l ++ [e]).
Proof.
  intros Hr He.
  assert (Hre : Forall accuracyInRange (l ++ [e])).
  { apply Forall_app. split; [exact Hr|]. constructor; [|constructor].
    unfold accuracyInRange. split; apply Rle_Qle;
      rewrite ?RMicromega.Q2R_0, ?RMicromega.Q2R_1; rlra. }
  rewrite (confidenceOfList_time now now').
  destruct l as [|a l0] eqn:El.
  { pose proof (confidenceOfList_bounds now m D ([] ++ [e]) Hre). simpl in *. rlra. }
  rewrite <- El in *.
  assert (Hl : l <> []) by (rewrite El; discriminate).
  assert (Hl' : l ++ [e] <> []) by (destruct l; discriminate).
  pose proof (length_pos_INR l Hl) as Hn.
  assert (Hlen : INR (List.length (l ++ [e])) = INR (List.length l) + 1).
  { rewrite length_app. simpl. rewrite plus_INR. simpl. ring. }
  unfold confidenceOfList.
  destruct l as [|a' l0'] eqn:El2; [congruence|]. rewrite <- El2 in *.
  destruct (l ++ [e]) as [|b l1] eqn:El3; [congruence|]. rewrite <- El3 in *.
  destruct (Rlt_dec (INR (List.length l)) m) as [Hlt|Hge];
    destruct (Rlt_dec (INR (List.length (l ++ [e]))) m) as [Hlt'|Hge'].
  - rewrite Hlen. unfold Rdiv.
    assert (0 < / m) by (apply Rinv_0_lt_compat; rlra). Lra.nra.
  - pose proof (ramp_bounds _ _ Hn Hlt).
    pose proof (weightedAccuracy_bounds now D _ Hl' Hre) as [Ha _].
    pose proof (fullConfidence_bounds (INR (List.length (l ++ [e]))) _
                  ltac:(rlra) Ha).
    rlra.
  - rlra.
  - rewrite Hlen, weightedSum_app, weightSum_app. simpl.
    pose proof (weightSum_pos now D l Hl) as Hw.
    pose proof (weightedSum_bounds now D l Hr) as [H0 H1].
    pose proof (realWeight_pos now D e) as Hwe.
    pose proof (weightedAccuracy_bounds now D l Hl Hr) as [_ Hq1].
    set (S0 := weightedSum now D l) in *. set (W0 := weightSum now D l) in *.
    set (we := realWeight now D e) in *. set (q := Q2R (h_accuracy e)) in *.
    destruct (Rle_dec (q * W0) S0) as [Hhigh|Hlow].
    + (* the new accuracy is below the weighted one *)
      apply Rle_trans with (fullConfidence (INR (List.length l)) 1);
        [apply fullConfidence_mono; rlra|].
      apply Rle_trans with (fullConfidence (INR (List.length l) + 1) (14 / 15));
        [apply fullConfidence_step|].
      apply fullConfidence_mono; [rlra|].
      apply Rle_trans with q; [rlra|].
      apply le_frac; [rlra|]. Lra.nra.
    + apply fullConfidence_mono; [rlra|].
      apply frac_le; [rlra|rlra|]. Lra.nra.
Qed.

(** Nor does replacing the oldest matching entry by a newer one of
    accuracy 1. *)
Lemma confidenceOfList_shift now now' m D a l e :
  0 < D -> (h_timestamp a <= h_timestamp e)%Z ->
  Forall accuracyInRange (a :: l) -> Q2R (h_accuracy e) = 1 ->
  confidenceOfList now m D (a :: l) <= confidenceOfList now' m D (l ++ [e]).
Proof.
  intros HD Ht Hr He.
  rewrite (confidenceOfList_time now now').
  assert (Hlen : List.length (l ++ [e]) = List.length (a :: l))
    by (rewrite length_app; simpl; lia).
  unfold confidenceOfList.
  destruct (l ++ [e]) as [|b l1] eqn:El3; [destruct l; discriminate|].
  rewrite <- El3 in *. rewrite Hlen.
  destruct (Rlt_dec (INR (List.length (a :: l))) m) as [Hlt|Hge]; [rlra|].
  apply fullConfidence_mono; [rlra|].
  rewrite weightedSum_app, weightSum_app. simpl. rewrite He.
  inversion Hr as [|? ? Ha Hl]; subst.
  pose proof (weightedSum_bounds now D l Hl) as [H0 H1].
  pose proof (weightSum_nonneg now D l) as Hw.
  pose proof (realWeight_pos now D e) as Hwe.
  pose proof (realWeight_pos now D a) as Hwa.
  pose proof (realWeight_mono now D a e HD Ht) as Hm.
  pose proof (accuracyInRange_R a Ha) as [Ha0 Ha1].
  apply frac_le; [rlra|rlra|].
  set (wa := realWeight now D a) in *. set (we := realWeight now D e) in *.
  set (S0 := weightedSum now D l) in *. set (W0 := weightSum now D l) in *.
  set (q := Q2R (h_accuracy a)) in *.
  assert (E : (S0 + (1 * we + 0)) * (wa + W0) - (q * wa + S0) * (W0 + (we + 0))
              = wa * we * (1 - q) + (W0 - S0) * (we - wa)
                + wa * ((W0 - S0) - (q * W0 - S0))) by ring.
  assert (0 <= wa * we * (1 - q)).
  { apply Rmult_le_pos; [apply Rmult_le_pos|]; rlra. }
  assert (0 <= (W0 - S0) * (we - wa)) by (apply Rmult_le_pos; rlra).
  assert (0 <= wa * ((W0 - S0) - (q * W0 - S0))).
  { apply Rmult_le_pos; [rlra|]. Lra.nra. }
  rlra.
Qed.

Lemma matches_refl h : matches (h_category h) (h_complexity h) h = true.
Proof.
  unfold matches. now destruct (h_category h), (h_complexity h).
Qed.

Lemma bounded_snoc h e :
  (List.length h <= 1000)%nat ->
  bounded (h ++ [e]) = h ++ [e]
  \/ exists a h0, h = a :: h0 /\ List.length h = 1000%nat
                  /\ bounded (h ++ [e]) = h0 ++ [e].
Proof.
  intros Hlen. unfold bounded. rewrite length_app. cbn [List.length].
  destruct (Nat.ltb_spec 1000 (List.length h + 1)) as [Hlt|Hge]; [|now left].
  right. assert (E : List.length h = 1000%nat) by lia.
  destruct h as [|a h0]; [discriminate E|].
  exists a, h0. split; [reflexivity|]. split; [exact E|].
  rewrite E. replace (1000 + 1 - 1000)%nat with 1%nat by lia. reflexivity.
Qed.

Lemma bounded_length h : (List.length (bounded h) <= 1000)%nat.
Proof.
  unfold bounded. destruct (Nat.ltb_spec 1000 (List.length h)) as [Hlt|Hge].
  - rewrite length_skipn. lia.
  - exact Hge.
Qed.

Lemma bounded_Forall (P : TaskHistoryEntry -> Prop) h :
  Forall P h -> Forall P (bounded h).
Proof.
  intros H. unfold bounded. destruct (1000 <? List.length h)%nat; [|exact H].
  apply Forall_forall. intros e He.
  assert (Hin : In e h).
  { rewrite <- (firstn_skipn (List.length h - 1000) h).
    apply in_or_app. now right. }
  clear He. revert e Hin. now apply Forall_forall.
Qed.

(** What completeTask does to the history. *)
Lemma completeTask_history cfg now tid s e s' :
  completeTask cfg now tid s = Typed (Some e, s') ->
  taskHistory s' = bounded (taskHistory s ++ [e])
  /\ h_timestamp e = now /\ accuracyInRange e.
Proof.
  unfold completeTask.
  destruct (resolveTask tid (activeTasks s)) as [[[task|] remaining]|];
    [|discriminate|discriminate].
  intros [= <- <-]. cbn. repeat split;
    apply ConfidenceProofs.calculateAccuracy_range.
Qed.

Lemma completeTask_wfHistory cfg now tid s e s' :
  completeTask cfg now tid s = Typed (Some e, s') ->
  wfHistory (taskHistory s) -> wfHistory (taskHistory s').
Proof.
  intros Hc [Hr Hl]. destruct (completeTask_history _ _ _ _ _ _ Hc) as [-> [_ He]].
  split; [|apply bounded_length].
  apply bounded_Forall. apply Forall_app. split; [exact Hr|].
  now constructor.
Qed.

Lemma startTask_history now rnd c x s :
  taskHistory (snd (startTask now rnd c x s)) = taskHistory s.
Proof. reflexivity. Qed.

Lemma filter_Forall {A} (P : A -> Prop) (f : A -> bool) l :
  Forall P l -> Forall P (filter f l).
Proof.
  intros H. apply Forall_forall. intros a Ha. apply filter_In in Ha.
  destruct Ha as [Ha _]. revert a Ha. now apply Forall_forall.
Qed.

(** One completion of the pair with an accuracy at or near 1 does not
    lower the confidence given by the real weights. *)
Lemma accurateCompletion_confidence cfg c x s s' t t' :
  (0 < confidenceDecayDays cfg)%Q ->
  wfHistory (taskHistory s) ->
  accurateCompletion cfg c x s s' ->
  confidenceOf cfg t s c x <= confidenceOf cfg t' s' c x.
Proof.
  intros HD [Hr Hl] [now [tid [e [Hts [Hc [Ec [Ex [Ea Hev]]]]]]]].
  destruct (completeTask_history _ _ _ _ _ _ Hc) as [Hh [Ht He]].
  rewrite !confidenceOf_list, Hh.
  assert (HDR : 0 < Q2R (confidenceDecayDays cfg)).
  { apply Qlt_Rlt in HD. now rewrite RMicromega.Q2R_0 in HD. }
  assert (Hnear : 14 / 15 <= Q2R (h_accuracy e) <= 1).
  { pose proof (accuracyInRange_R e He) as [_ H1]. split; [|exact H1].
    apply Qle_Rle in Ea. unfold Q2R in Ea at 1. simpl in Ea. rlra. }
  assert (Hm : matches c x e = true) by (subst c x; apply matches_refl).
  destruct (bounded_snoc (taskHistory s) e Hl) as [->|[a [h0 [Eh [Efull ->]]]]].
  - rewrite filter_app. simpl. rewrite Hm.
    apply confidenceOfList_snoc; [|exact Hnear]. now apply filter_Forall.
  - destruct Hev as [Hlt|Ea1]; [lia|].
    assert (Ha1 : Q2R (h_accuracy e) = 1).
    { rewrite (Qeq_eqR _ _ Ea1). apply RMicromega.Q2R_1. }
    rewrite Eh in *. rewrite filter_app. simpl. rewrite Hm.
    inversion Hr as [|? ? Hra Hr0]; subst.
    inversion Hts as [|? ? Hta Hts0]; subst.
    destruct (matches (h_category e) (h_complexity e) a) eqn:Em.
    + apply confidenceOfList_shift; [exact HDR| lia | | exact Ha1].
      constructor; [exact Hra|]. now apply filter_Forall.
    + apply confidenceOfList_snoc; [|exact Hnear]. now apply filter_Forall.
Qed.

(** Read inside the window, the confidence of [estimate] is the number
    given by the real weights. *)
Lemma estimate_confidence cfg t s c x :
  (0 < confidenceDecayDays cfg)%Q -> readable cfg t s c x ->
  confidence (estimate cfg t s c x) = Num (confidenceOf cfg t s c x).
Proof.
  intros HD Hw. unfold estimate. cbn [confidence].
  assert (HDR : 0 < Q2R (confidenceDecayDays cfg)).
  { apply Qlt_Rlt in HD. now rewrite RMicromega.Q2R_0 in HD. }
  unfold readable in Hw.
  rewrite calculateConfidence_eq;
    [|exact HDR|now rewrite filter_matches_idem].
  now rewrite filter_matches_idem.
Qed.

(** A test on the timestamps that puts a history inside the window, for a
    decay period of one day or more. *)
Lemma readable_by_test cfg t s c x :
  (1 <= confidenceDecayDays cfg)%Q ->
  forallb (fun h => (h_timestamp h <=? t)%Z
                    && (t - h_timestamp h <=? 600 * MS_PER_DAY)%Z)
          (filter (matches c x) (taskHistory s)) = true ->
  readable cfg t s c x.
Proof.
  intros HD Hall. unfold readable. apply Forall_forall. intros h Hh.
  pose proof (proj1 (forallb_forall _ _) Hall h Hh) as H.
  apply andb_true_iff in H. destruct H as [H1 H2].
  apply Z.leb_le in H1, H2. apply IZR_le in H1, H2.
  rewrite minus_IZR, mult_IZR in H2.
  apply Qle_Rle in HD. rewrite RMicromega.Q2R_1 in HD.
  assert (Hday : 0 < IZR MS_PER_DAY) by (unfold MS_PER_DAY; rlra).
  unfold inWindow. split.
  - apply Rmult_le_pos; [rlra|]. left. now apply Rinv_0_lt_compat.
  - apply Rle_trans with 600; [|rlra].
    apply (Rmult_le_reg_r (IZR MS_PER_DAY)); [exact Hday|].
    unfold Rdiv. rewrite Rmult_assoc, Rinv_l by rlra. rlra.
Qed.

Lemma sums_all_perfect now D l :
  Forall (fun h => (h_accuracy h == 1)%Q) l ->
  weightedSum now D l = weightSum now D l.
Proof.
  induction 1 as [|h l Hh Hl IH]; simpl; [reflexivity|].
  rewrite IH, (Qeq_eqR _ _ Hh), RMicromega.Q2R_1. ring.
Qed.

(** With enough samples, all of accuracy 1, the confidence is
    min(0.95, 0.8 + min(0.2, n * 0.02)): the cap itself from 8 samples on. *)
Lemma confidenceOfList_all_perfect now m D l :
  Forall (fun h => (h_accuracy h == 1)%Q) l ->
  (8 <= List.length l)%nat -> ~ INR (List.length l) < m ->
  confidenceOfList now m D l = 0.95.
Proof.
  intros Hp Hn Hm. unfold confidenceOfList.
  destruct l as [|e l'] eqn:El; [simpl in Hn; lia|]. rewrite <- El in *.
  destruct (Rlt_dec (INR (List.length l)) m); [contradiction|].
  rewrite (sums_all_perfect now D l Hp).
  assert (Hw : 0 < weightSum now D l)
    by (apply weightSum_pos; rewrite El; discriminate).
  replace (weightSum now D l / weightSum now D l) with 1 by (field; rlra).
  apply le_INR in Hn. rewrite (INR_IZR_INZ 8) in Hn. simpl in Hn.
  unfold fullConfidence, Rmin.
  repeat match goal with |- context [Rle_dec ?a ?b] => destruct (Rle_dec a b) end;
    rlra.
Qed.

(** C4 (as stated, refuted): after eight completions of one pair, each
    with accuracy exactly 1, the confidence returned by estimate for the
    pair is 0.95 itself, not a value strictly below it.  And the bound of
    the amended claim on the age of the history is needed: read 95 years
    later, when every weight has become 0, the same history gives 0.81. *)
Lemma confidence_reaches_cap :
  List.length (taskHistory (perfectTasks 8)) = 8%nat
  /\ Forall (fun h => matches coding moderate h = true /\ (h_accuracy h == 1)%Q)
            (taskHistory (perfectTasks 8))
  /\ confidence (estimate defaultConfig 9000000 (perfectTasks 8) coding moderate)
     = Num 0.95
  /\ confidence (estimate defaultConfig 3000000000000 (perfectTasks 8)
                          coding moderate)
     = Num 0.81.
Proof.
  assert (Hlen : List.length (taskHistory (perfectTasks 8)) = 8%nat)
    by (vm_compute; reflexivity).
  assert (Hall : forallb (fun h => matches coding moderate h
                                   && Qeq_bool (h_accuracy h) 1)
                         (taskHistory (perfectTasks 8)) = true)
    by (vm_compute; reflexivity).
  assert (Hnear : forallb (fun h => (h_timestamp h <=? 9000000)%Z
                                    && (9000000 - h_timestamp h
                                        <=? 600 * MS_PER_DAY)%Z)
                    (filter (matches coding moderate)
                            (taskHistory (perfectTasks 8))) = true)
    by (vm_compute; reflexivity).
  assert (Hfar : forallb (fun h => (33000 * MS_PER_DAY
                                    <=? 3000000000000 - h_timestamp h)%Z)
                   (filter (matches coding moderate)
                           (taskHistory (perfectTasks 8))) = true)
    by (vm_compute; reflexivity).
  assert (HF : Forall (fun h => matches coding moderate h = true
                                /\ (h_accuracy h == 1)%Q)
                      (taskHistory (perfectTasks 8))).
  { apply Forall_forall. intros h Hh.
    pose proof (proj1 (forallb_forall _ _) Hall h Hh) as H.
    apply andb_true_iff in H. destruct H as [H1 H2].
    split; [exact H1 | now apply Qeq_bool_iff]. }
  clear Hall. revert Hlen HF Hnear Hfar. generalize (perfectTasks 8).
  intros s8 Hlen HF Hnear Hfar.
  assert (HD : (0 < confidenceDecayDays defaultConfig)%Q) by reflexivity.
  assert (Hf : filter (matches coding moderate) (taskHistory s8) = taskHistory s8).
  { apply forallb_filter_id. apply forallb_forall. intros h Hh.
    pose proof (proj1 (Forall_forall _ _) HF h Hh) as [H _]. exact H. }
  assert (Hm : ~ INR (List.length (taskHistory s8))
                 < Q2R (minSamplesForEstimate defaultConfig)).
  { rewrite Hlen, (INR_IZR_INZ 8). unfold Q2R. simpl. rlra. }
  split; [exact Hlen | split; [exact HF|]]. split.
  - rewrite estimate_confidence;
      [|exact HD|apply readable_by_test; [discriminate|exact Hnear]].
    f_equal. rewrite confidenceOf_list, Hf.
    apply confidenceOfList_all_perfect; [|rewrite Hlen; lia|exact Hm].
    eapply Forall_impl; [|exact HF]. now intros h [_ H].
  - unfold estimate. cbn [confidence].
    rewrite calculateConfidence_underflow.
    + rewrite filter_matches_idem, Hf, Hlen, (INR_IZR_INZ 8).
      change (IZR (Z.of_nat 8)) with 8.
      f_equal. unfold fullConfidence.
      rewrite (Rmin_right 0.2 (8 * 0.02)) by rlra.
      rewrite Rmin_right by rlra. rlra.
    + unfold Q2R. simpl. rlra.
    + rewrite filter_matches_idem. apply Forall_forall. intros h Hh.
      pose proof (proj1 (forallb_forall _ _) Hfar h Hh) as H.
      apply Z.leb_le in H. apply IZR_le in H.
      rewrite minus_IZR, mult_IZR in H.
      assert (Hday : 0 < IZR MS_PER_DAY) by (unfold MS_PER_DAY; rlra).
      apply le_frac; [exact Hday|].
      unfold Q2R. simpl. rlra.
    + rewrite filter_matches_idem, Hf. intros E. rewrite E in Hlen.
      discriminate Hlen.
    + rewrite filter_matches_idem, Hf. exact Hm.
Qed.

(** C4 (amended): over any run of completions of one pair, each with an
    accuracy at or near 1 (at least 14/15, and exactly 1 once the history
    holds 1000 entries and a completion drops the oldest one), with a clock
    that does not run backwards (a positive decay period, a well-formed
    history), the confidence returned by estimate for the pair is
    non-decreasing and never exceeds 0.95, wherever the history of the
    pair is read inside the window of its weights (no entry from the
    future or older than 600 decay periods); it is not kept strictly
    below 0.95: it equals 0.95 as soon as the pair has at least 8 samples
    (and at least minSamples), all of accuracy 1. *)
Theorem confidence_over_perfect_run (cfg : Config) (c : TaskCategory)
        (x : TaskComplexity) (s s' : State) :
  (0 < confidenceDecayDays cfg)%Q ->
  wfHistory (taskHistory s) ->
  accurateRun cfg c x s s' ->
  (forall t t', readable cfg t s c x -> readable cfg t' s' c x ->
     exists r r',
       confidence (estimate cfg t s c x) = Num r
       /\ confidence (estimate cfg t' s' c x) = Num r'
       /\ r <= r' /\ r' <= 0.95)
  /\ (forall t, readable cfg t s' c x ->
        let l := filter (matches c x) (taskHistory s') in
        Forall (fun h => (h_accuracy h == 1)%Q) l ->
        (8 <= List.length l)%nat ->
        ~ INR (List.length l) < Q2R (minSamplesForEstimate cfg) ->
        confidence (estimate cfg t s' c x) = Num 0.95).
Proof.
  intros HD Hwf Hrun.
  assert (G : (forall t t', confidenceOf cfg t s c x <= confidenceOf cfg t' s' c x)
              /\ wfHistory (taskHistory s')).
  { induction Hrun as [s|s now rnd c' x' s' Hrun IH|s s1 s' Hstep Hrun IH].
    - split; [|exact Hwf]. intros t t'.
      rewrite !confidenceOf_list, (confidenceOfList_time t t'). rlra.
    - apply IH. exact Hwf.
    - assert (Hwf1 : wfHistory (taskHistory s1)).
      { destruct Hstep as [now [tid [e [_ [Hc _]]]]].
        eapply completeTask_wfHistory; eassumption. }
      destruct (IH Hwf1) as [IH1 IH2]. split; [|exact IH2].
      intros t t'.
      pose proof (accurateCompletion_confidence cfg c x s s1 t t HD Hwf Hstep).
      pose proof (IH1 t t'). rlra. }
  destruct G as [G1 [G2 G3]]. split.
  - intros t t' Hr Hr'.
    exists (confidenceOf cfg t s c x), (confidenceOf cfg t' s' c x).
    split; [now apply estimate_confidence|].
    split; [now apply estimate_confidence|].
    split; [apply G1|].
    rewrite confidenceOf_list.
    apply confidenceOfList_bounds. now apply filter_Forall.
  - intros t Hr l Hp Hn Hm.
    rewrite (estimate_confidence cfg t s' c x HD Hr). f_equal.
    rewrite confidenceOf_list. now apply confidenceOfList_all_perfect.
Qed.

Lemma accurateRun_one :
  accurateRun defaultConfig coding moderate (initialState 0) (perfectTasks 1).
Proof.
  apply (run_start _ _ _ _ 1000000 "r"%string coding moderate).
  eapply run_complete; [|apply run_done].
  exists 1600000%Z, (Some "task_1000000_r"%string).
  eexists. split; [constructor|].
  split; [vm_compute; reflexivity|].
  split; [reflexivity|]. split; [reflexivity|].
  split; [vm_compute; discriminate|]. left. vm_compute. lia.
Defined.

Lemma confidence_over_perfect_run_witness :
  exists r r',
    confidence (estimate defaultConfig 0 (initialState 0) coding moderate) = Num r
    /\ confidence (estimate defaultConfig 5000000 (perfectTasks 1) coding moderate)
       = Num r'
    /\ r <= r' /\ r' <= 0.95.
Proof.
  assert (HD : (0 < confidenceDecayDays defaultConfig)%Q) by reflexivity.
  assert (Hwf : wfHistory (taskHistory (initialState 0))).
  { split; [constructor|]. simpl. apply Nat.le_0_l. }
  destruct (confidence_over_perfect_run defaultConfig coding moderate
              (initialState 0) (perfectTasks 1) HD Hwf accurateRun_one)
    as [H1 _].
  apply H1.
  - constructor.
  - apply readable_by_test; [discriminate|]. vm_compute. reflexivity.
Defined.

(** Three samples of accuracy 1 give 0.86; with the last one below 1 the
    value is lower. *)
Lemma confidenceOfList_three_perfect now m D a b c :
  ~ INR 3 < m ->
  Forall (fun h => (h_accuracy h == 1)%Q) [a; b; c] ->
  confidenceOfList now m D [a; b; c] = 0.86.
Proof.
  intros Hm Hall. unfold confidenceOfList.
  change (List.length [a; b; c]) with 3%nat.
  destruct (Rlt_dec (INR 3) m); [contradiction|].
  rewrite (sums_all_perfect now D _ Hall).
  assert (Hp : 0 < weightSum now D [a; b; c])
    by (apply weightSum_pos; discriminate).
  replace (weightSum now D [a; b; c] / weightSum now D [a; b; c]) with 1
    by (field; rlra).
  rewrite (INR_IZR_INZ 3). change (IZR (Z.of_nat 3)) with 3.
  unfold fullConfidence.
  rewrite (Rmin_right 0.2 (3 * 0.02)) by rlra.
  rewrite Rmin_right by rlra. rlra.
Qed.

Lemma confidenceOfList_three_last now m D a b e :
  ~ INR 3 < m ->
  (h_accuracy a == 1)%Q -> (h_accuracy b == 1)%Q -> (h_accuracy e < 1)%Q ->
  confidenceOfList now m D [a; b; e] < 0.86.
Proof.
  intros Hm Ha Hb He. unfold confidenceOfList.
  change (List.length [a; b; e]) with 3%nat.
  destruct (Rlt_dec (INR 3) m); [contradiction|].
  rewrite (INR_IZR_INZ 3). change (IZR (Z.of_nat 3)) with 3.
  simpl weightedSum. simpl weightSum.
  rewrite (Qeq_eqR _ _ Ha), (Qeq_eqR _ _ Hb), RMicromega.Q2R_1.
  apply Qlt_Rlt in He. rewrite RMicromega.Q2R_1 in He.
  pose proof (realWeight_pos now D a) as Wa.
  pose proof (realWeight_pos now D b) as Wb.
  pose proof (realWeight_pos now D e) as We.
  set (wa := realWeight now D a) in *. set (wb := realWeight now D b) in *.
  set (we := realWeight now D e) in *. set (q := Q2R (h_accuracy e)) in *.
  assert (Hr : (1 * wa + (1 * wb + (q * we + 0))) / (wa + (wb + (we + 0))) < 1).
  { apply (Rmult_lt_reg_r (wa + (wb + (we + 0)))); [rlra|].
    unfold Rdiv. rewrite Rmult_assoc, Rinv_l by rlra. Lra.nra. }
  unfold fullConfidence.
  rewrite (Rmin_right 0.2 (3 * 0.02)) by rlra.
  eapply Rle_lt_trans; [apply Rmin_r|]. rlra.
Qed.

(** The amended monotonicity needs accuracy exactly 1 once the history is
    full: on a history of 1000 entries whose oldest entry belongs to the
    pair, a completion with accuracy 14/15 replaces a sample of accuracy 1
    and the confidence of the pair falls below its former 0.86. *)
Lemma eviction_lowers_confidence :
  List.length (taskHistory fullState) = 1000%nat
  /\ exists e s',
       completeTask defaultConfig 5015000 (Some "t"%string) fullState
       = Typed (Some e, s')
       /\ (h_accuracy e == 14 # 15)%Q
       /\ exists r r',
            confidence (estimate defaultConfig 5015000 fullState coding moderate)
            = Num r
            /\ confidence (estimate defaultConfig 5015000 s' coding moderate)
               = Num r'
            /\ r' < r.
Proof.
  split; [vm_compute; reflexivity|].
  assert (Hres : resolveTask (Some "t"%string) (activeTasks fullState)
                 = Typed (Some (mkActive "t" coding moderate 5000000 14000), []))
    by (vm_compute; reflexivity).
  destruct (EstimatorProofs.completeTask_some defaultConfig 5015000
              (Some "t"%string) fullState _ _ Hres)
    as [e [s' [Hc [_ [Hcat [Hcx _]]]]]].
  exists e, s'. split; [exact Hc|].
  assert (Hacc : (h_accuracy e == 14 # 15)%Q).
  { unfold completeTask in Hc. rewrite Hres in Hc. injection Hc as <- _.
    vm_compute. reflexivity. }
  split; [exact Hacc|].
  destruct (completeTask_history _ _ _ _ _ _ Hc) as [Hh [Ht _]].
  assert (HD : (0 < confidenceDecayDays defaultConfig)%Q) by reflexivity.
  assert (Hm : ~ INR 3 < Q2R (minSamplesForEstimate defaultConfig)).
  { rewrite (INR_IZR_INZ 3). unfold Q2R. simpl. rlra. }
  assert (Hfill : filter (matches coding moderate) fillers = [])
    by (vm_compute; reflexivity).
  assert (Hlen : List.length fillers = 997%nat) by (vm_compute; reflexivity).
  assert (Hf : filter (matches coding moderate) (taskHistory fullState)
               = [perfectEntry coding moderate 1000;
                  perfectEntry coding moderate 2000;
                  perfectEntry coding moderate 3000]).
  { change (taskHistory fullState) with fullHistory. unfold fullHistory.
    cbn [filter app]. rewrite Hfill. reflexivity. }
  assert (Hf' : filter (matches coding moderate) (taskHistory s')
                = [perfectEntry coding moderate 2000;
                   perfectEntry coding moderate 3000; e]).
  { rewrite Hh. change (taskHistory fullState) with fullHistory.
    unfold bounded, fullHistory.
    cbn [app List.length]. rewrite length_app, Hlen.
    cbn [List.length Nat.add Nat.ltb Nat.leb Nat.sub skipn].
    cbn [filter]. 
    change (matches coding moderate (perfectEntry coding moderate 2000)) with true.
    change (matches coding moderate (perfectEntry coding moderate 3000)) with true.
    cbv iota. rewrite filter_app, Hfill. cbn [filter app].
    unfold matches. rewrite Hcat, Hcx. reflexivity. }
  assert (Hnear : forall s0,
            Forall (fun h => (h_timestamp h <= 5015000)%Z
                             /\ (0 <= h_timestamp h)%Z)
                   (filter (matches coding moderate) (taskHistory s0)) ->
            readable defaultConfig 5015000 s0 coding moderate).
  { intros s0 Hall. apply readable_by_test; [discriminate|].
    apply forallb_forall. intros h Hin.
    pose proof (proj1 (Forall_forall _ _) Hall h Hin) as [H1 H2].
    apply andb_true_iff. split; apply Z.leb_le; unfold MS_PER_DAY; lia. }
  assert (Hr : readable defaultConfig 5015000 fullState coding moderate).
  { apply Hnear. rewrite Hf. repeat constructor; cbn; lia. }
  assert (Hr' : readable defaultConfig 5015000 s' coding moderate).
  { apply Hnear. rewrite Hf'. repeat constructor; cbn; rewrite ?Ht; lia. }
  exists (confidenceOf defaultConfig 5015000 fullState coding moderate),
         (confidenceOf defaultConfig 5015000 s' coding moderate).
  split; [now apply estimate_confidence|].
  split; [now apply estimate_confidence|].
  rewrite !confidenceOf_list, Hf, Hf'.
  rewrite (confidenceOfList_three_perfect _ _ _ (perfectEntry coding moderate 1000));
    [|exact Hm|repeat (apply Forall_cons; [reflexivity|]); apply Forall_nil].
  apply confidenceOfList_three_last;
    [exact Hm|reflexivity|reflexivity|].
  rewrite Hacc. reflexivity.
Qed.

End LearningProofs.

(** ** Range of the estimate *)
Module EstimateProofs.
Import Confidence Estimator.
Local Open Scope R_scope.

Lemma sumR_zeros (l : list R) : Forall (fun v => v = 0) l -> sumR l = 0.
Proof.
  unfold sumR. intros H.
  assert (G : forall a, fold_left Rplus l a = a).
  { induction H as [|v l Hv Hl IH]; intros a; simpl; [reflexivity|].
    rewrite IH, Hv. ring. }
  apply G.
Qed.

(** Matching history made only of tasks that took 0 ms: the mean is 0 and
    the coefficient of variation is 0/0. *)
Lemma calculateVariance_all_zero (l : list TaskHistoryEntry) :
  (2 <= List.length l)%nat ->
  Forall (fun h => h_actualMs h = 0%Z) l ->
  calculateVariance l = NaN.
Proof.
  intros Hlen Hz. unfold calculateVariance.
  destruct (Nat.ltb_spec (List.length l) 2) as [Hlt|_]; [lia|].
  assert (Ha : Forall (fun v => v = 0) (map (fun h => IZR (h_actualMs h)) l)).
  { apply Forall_map. eapply Forall_impl; [|exact Hz].
    intros h Hh. simpl. now rewrite Hh. }
  cbv zeta. rewrite (sumR_zeros _ Ha).
  assert (Hm : 0 / INR (List.length (map (fun h => IZR (h_actualMs h)) l)) = 0)
    by (unfold Rdiv; ring).
  rewrite Hm.
  assert (Hs : Forall (fun v => v = 0)
                 (map (fun v => (v - 0) ^ 2)
                      (map (fun h => IZR (h_actualMs h)) l))).
  { apply Forall_map. eapply Forall_impl; [|exact Ha].
    intros v Hv. simpl. rewrite Hv. ring. }
  rewrite (sumR_zeros _ Hs), Hm, sqrt_0.
  unfold JS.div. now destruct (Req_dec_T 0 0).
Qed.

Lemma estimate_all_zero cfg now s c x :
  (2 <= List.length (filter (matches c x) (taskHistory s)))%nat ->
  Forall (fun h => h_actualMs h = 0%Z) (filter (matches c x) (taskHistory s)) ->
  minimumMs (estimate cfg now s c x) = NaN
  /\ maximumMs (estimate cfg now s c x) = NaN.
Proof.
  intros Hlen Hz. unfold estimate. cbn [minimumMs maximumMs].
  rewrite (calculateVariance_all_zero _ Hlen Hz). split; reflexivity.
Qed.

(** C6 (the code at the failing input): after two coding tasks of
    moderate complexity that were each completed in the millisecond they
    were started, estimate returns NaN as minimumMs and as maximumMs, next
    to the expectedMs 600000: neither minimumMs <= expectedMs nor
    expectedMs <= maximumMs holds. *)
Theorem estimate_instant_tasks_nan :
  map h_actualMs (taskHistory twoInstantTasks) = [0%Z; 0%Z]
  /\ minimumMs (estimate defaultConfig 3000 twoInstantTasks coding moderate) = NaN
  /\ maximumMs (estimate defaultConfig 3000 twoInstantTasks coding moderate) = NaN
  /\ expectedMs (estimate defaultConfig 3000 twoInstantTasks coding moderate)
     = Num 600000
  /\ ~ JS.le (minimumMs (estimate defaultConfig 3000 twoInstantTasks coding moderate))
             (expectedMs (estimate defaultConfig 3000 twoInstantTasks coding moderate))
  /\ ~ JS.le (expectedMs (estimate defaultConfig 3000 twoInstantTasks coding moderate))
             (maximumMs (estimate defaultConfig 3000 twoInstantTasks coding moderate)).
Proof.
  assert (Hact : map h_actualMs (taskHistory twoInstantTasks) = [0%Z; 0%Z])
    by (vm_compute; reflexivity).
  assert (Hlen : List.length (filter (matches coding moderate)
                                     (taskHistory twoInstantTasks)) = 2%nat)
    by (vm_compute; reflexivity).
  assert (Hall : forallb (fun h => (h_actualMs h =? 0)%Z)
                   (filter (matches coding moderate)
                           (taskHistory twoInstantTasks)) = true)
    by (vm_compute; reflexivity).
  assert (Hexp : Math_round (getBaseline twoInstantTasks coding moderate)
                 = 600000%Z) by (vm_compute; reflexivity).
  assert (Hz : Forall (fun h => h_actualMs h = 0%Z)
                 (filter (matches coding moderate) (taskHistory twoInstantTasks))).
  { apply Forall_forall. intros h Hh.
    apply Z.eqb_eq. exact (proj1 (forallb_forall _ _) Hall h Hh). }
  clear Hall. revert Hact Hlen Hexp Hz. generalize twoInstantTasks.
  intros s Hact Hlen Hexp Hz.
  destruct (estimate_all_zero defaultConfig 3000 s coding moderate
              ltac:(rewrite Hlen; lia) Hz) as [Hmin Hmax].
  assert (He : expectedMs (estimate defaultConfig 3000 s coding moderate)
               = Num 600000).
  { unfold estimate. cbn [expectedMs]. now rewrite Hexp. }
  rewrite Hmin, Hmax, He. repeat split; auto.
Qed.

End EstimateProofs.

(** ** More on sorting and object maps *)
Section SortAnyOrder.
Context {A : Type} (before : A -> A -> bool).

Lemma sort_insert_perm_any (x : A) (l : list A) :
  Permutation (sort_insert before x l) (x :: l).
Proof.
  induction l as [|y l IH]; simpl; [reflexivity|].
  destruct (before x y); [reflexivity|].
  rewrite IH. apply perm_swap.
Qed.

Lemma js_sort_perm_any (l : list A) : Permutation (js_sort before l) l.
Proof.
  induction l as [|x l IH]; simpl; [constructor|].
  rewrite sort_insert_perm_any. now constructor.
Qed.
End SortAnyOrder.

(** Filtering keeps the names of the elements distinct. *)
Lemma filter_keeps_distinct {X Y : Type} (name : X -> Y) (keep : X -> bool) :
  forall xs : list X,
    NoDup (map name xs) -> NoDup (map name (filter keep xs)).
Proof.
  intros xs. induction xs as [|x xs IHxs]; simpl; [constructor|].
  intros Hd. inversion Hd as [|? ? Hfresh Hrest]; subst.
  destruct (keep x); simpl; [|now apply IHxs].
  constructor; [|now apply IHxs].
  intros Hin. apply Hfresh. apply in_map_iff in Hin.
  destruct Hin as [x' [Hx' Hin]]. apply filter_In in Hin.
  apply in_map_iff. exists x'. tauto.
Qed.

Section ObjectModifyFacts.
Context {V : Type}.
Implicit Types (m : obj V) (k : string) (f : V -> V).

Lemma obj_get_modify k k0 f m :
  obj_get k (obj_modify k0 f m)
  = if String.eqb k0 k then option_map f (obj_get k m) else obj_get k m.
Proof.
  induction m as [|[k' v] m IH]; simpl.
  - now destruct (String.eqb k0 k).
  - destruct (String.eqb_spec k' k0) as [->|Hne0]; simpl.
    + destruct (String.eqb_spec k0 k) as [->|Hne]; reflexivity.
    + destruct (String.eqb_spec k' k) as [->|Hne].
      * destruct (String.eqb_spec k0 k) as [->|_]; [congruence|reflexivity].
      * exact IH.
Qed.

Lemma obj_keys_modify k f m : obj_keys (obj_modify k f m) = obj_keys m.
Proof.
  induction m as [|[k' v] m IH]; simpl; [reflexivity|].
  destruct (String.eqb k' k); simpl; [reflexivity|]. now rewrite IH.
Qed.

Lemma obj_modify_Forall (P : V -> Prop) k f m :
  (forall v, P v -> P (f v)) ->
  Forall (fun kv => P (snd kv)) m ->
  Forall (fun kv => P (snd kv)) (obj_modify k f m).
Proof.
  intros Hf. induction 1 as [|[k' v] m Hv Hm IH]; simpl; [constructor|].
  destruct (String.eqb k' k); constructor; simpl in *; auto.
Qed.

Lemma obj_set_Forall (P : V -> Prop) k (v : V) m :
  P v ->
  Forall (fun kv => P (snd kv)) m ->
  Forall (fun kv => P (snd kv)) (obj_set k v m).
Proof.
  intros Hv. induction 1 as [|[k' v'] m Hv' Hm IH]; simpl.
  - repeat constructor. exact Hv.
  - destruct (String.eqb k' k); constructor; simpl in *; auto.
Qed.

Lemma obj_filter_Forall (P : string * V -> Prop) (p : string * V -> bool) m :
  Forall P m -> Forall P (filter p m).
Proof.
  intros H. apply Forall_forall. intros a Ha. apply filter_In in Ha.
  destruct Ha as [Ha _]. revert a Ha. now apply Forall_forall.
Qed.
Lemma obj_set_In k v m k0 v0 :
  In (k0, v0) (obj_set k v m) -> (k0 = k /\ v0 = v) \/ In (k0, v0) m.
Proof.
  induction m as [|[k' v'] m IH]; simpl.
  - intros [H|[]]. injection H as <- <-. now left.
  - destruct (String.eqb_spec k' k) as [->|Hne]; simpl.
    + intros [H|H]; [injection H as <- <-; now left | right; now right].
    + intros [H|H]; [right; now left|].
      destruct (IH H) as [?|?]; [now left | right; now right].
Qed.

Lemma obj_set_keys_In k v m k0 :
  In k0 (obj_keys (obj_set k v m)) -> k0 = k \/ In k0 (obj_keys m).
Proof.
  unfold obj_keys. intros H. apply in_map_iff in H.
  destruct H as [[k1 v1] [E H]]. simpl in E. subst k1.
  destruct (obj_set_In _ _ _ _ _ H) as [[? _]|Hin]; [now left|].
  right. apply in_map_iff. now exists (k0, v1).
Qed.

Lemma obj_set_NoDup k v m : NoDup (obj_keys m) -> NoDup (obj_keys (obj_set k v m)).
Proof.
  induction m as [|[k' v'] m IH]; simpl.
  - intros _. repeat constructor. intros [].
  - intros H. inversion H as [|? ? Hn Hd]; subst.
    destruct (String.eqb_spec k' k) as [->|Hne]; simpl; [exact H|].
    constructor; [|now apply IH].
    intros Hin. destruct (obj_set_keys_In _ _ _ _ Hin); [congruence|contradiction].
Qed.

Lemma obj_modify_In k f m k0 v0 :
  In (k0, v0) (obj_modify k f m) ->
  In (k0, v0) m \/ exists v1, In (k0, v1) m /\ v0 = f v1.
Proof.
  induction m as [|[k' v'] m IH]; simpl; [intros []|].
  destruct (String.eqb k' k); simpl.
  - intros [H|H]; [injection H as <- <-; right; exists v'; auto | left; now right].
  - intros [H|H]; [left; now left|].
    destruct (IH H) as [?|[v1 [? ?]]]; [left; now right|].
    right. exists v1. auto.
Qed.

Section WellFormed.
Context (idOf : V -> string).

Lemma wfObj_nil : wfObj idOf [].
Proof. split; [constructor | intros k v []]. Qed.

Lemma wfObj_set k v m : idOf v = k -> wfObj idOf m -> wfObj idOf (obj_set k v m).
Proof.
  intros Hv [Hnd Hid]. split; [now apply obj_set_NoDup|].
  intros k0 v0 Hin. destruct (obj_set_In _ _ _ _ _ Hin) as [[-> ->]|H]; auto.
Qed.

Lemma wfObj_modify k f m :
  (forall v, idOf (f v) = idOf v) -> wfObj idOf m -> wfObj idOf (obj_modify k f m).
Proof.
  intros Hf [Hnd Hid]. split; [now rewrite obj_keys_modify|].
  intros k0 v0 Hin.
  destruct (obj_modify_In _ _ _ _ _ Hin) as [H|[v1 [H ->]]]; [auto|].
  rewrite Hf. auto.
Qed.

Lemma wfObj_filter (p : string * V -> bool) m :
  wfObj idOf m -> wfObj idOf (filter p m).
Proof.
  intros [Hnd Hid]. split.
  - unfold obj_keys. now apply filter_keeps_distinct.
  - intros k v Hin. apply filter_In in Hin. apply Hid. tauto.
Qed.
End WellFormed.
End ObjectModifyFacts.

(** ** Temporal memory index *)
Module MemoryProofs.
Import Memory.
Local Open Scope R_scope.

(** [slice(0, n)] keeps a prefix. *)
Lemma slice0_prefix {A} (n : Z) (l : list A) :
  exists rest, slice0 n l ++ rest = l.
Proof.
  unfold slice0. destruct (n <? 0)%Z; eexists; apply firstn_skipn.
Qed.

Lemma slice0_In {A} (n : Z) (l : list A) (a : A) : In a (slice0 n l) -> In a l.
Proof.
  destruct (slice0_prefix n l) as [rest E]. intros H.
  rewrite <- E. apply in_or_app. now left.
Qed.

Lemma slice0_map {A B} (f : A -> B) (n : Z) (l : list A) :
  map f (slice0 n l) = slice0 n (map f l).
Proof.
  unfold slice0. rewrite length_map.
  destruct (n <? 0)%Z; symmetry; apply firstn_map.
Qed.

Lemma slice0_NoDup {A} (n : Z) (l : list A) : NoDup l -> NoDup (slice0 n l).
Proof.
  destruct (slice0_prefix n l) as [rest E]. intros H.
  rewrite <- E in H. exact (NoDup_app_remove_r _ _ H).
Qed.

(** Every ranked result is a copy of a stored entry with the two scores
    replaced, the decay score by the freshly computed one. *)
Lemma rankedResults_origin cfg now query options s r :
  In r (rankedResults cfg now query options s) ->
  exists e rel,
    In e (obj_values s)
    /\ r = set_relevanceScore rel
             (set_decayScore
                (exponentialDecay 1.0 (decayHalfLifeDays cfg * IZR MS_PER_DAY)
                                  (IZR now - IZR (timestamp e))) e).
Proof.
  unfold rankedResults. intros H.
  apply slice0_In in H.
  apply (Permutation_in _ (js_sort_perm_any _ _)) in H.
  apply filter_In in H. destruct H as [H _].
  apply in_map_iff in H. destruct H as [e1 [<- H]].
  apply in_map_iff in H. destruct H as [e [<- H]].
  apply filter_In in H. destruct H as [H _].
  eauto.
Qed.

Lemma rankedResults_ids cfg now query options s :
  NoDup (map id (obj_values s)) ->
  NoDup (map id (rankedResults cfg now query options s)).
Proof.
  intros Hnd. unfold rankedResults.
  rewrite slice0_map. apply slice0_NoDup.
  eapply Permutation_NoDup.
  { symmetry. apply Permutation_map. apply js_sort_perm_any. }
  apply filter_keeps_distinct.
  rewrite !map_map. cbn [id set_relevanceScore set_decayScore].
  now apply filter_keeps_distinct.
Qed.

Lemma wfStore_ids (s : Store) : wfStore s -> map id (obj_values s) = obj_keys s.
Proof.
  intros [_ Hid]. induction s as [|[k e] s IH]; simpl; [reflexivity|].
  f_equal.
  - apply Hid. now left.
  - apply IH. intros k' e' Hin. apply Hid. now right.
Qed.

Lemma In_obj_values {V} (m : obj V) (v : V) :
  In v (obj_values m) -> exists k, In (k, v) m.
Proof.
  unfold obj_values. intros H. apply in_map_iff in H.
  destruct H as [[k v'] [E H]]. simpl in E. subst. now exists k.
Qed.

(** The loop of search that records the accesses. *)
Lemma recordAll_get now (results : list TemporalMemoryEntry) : forall (s : Store) k,
  NoDup (map id results) ->
  obj_get k (fold_left (fun st r => obj_modify (id r) (recordAccess now) st)
                       results s)
  = if existsb (String.eqb k) (map id results)
    then option_map (recordAccess now) (obj_get k s)
    else obj_get k s.
Proof.
  induction results as [|r results IH]; intros s k Hnd; simpl; [reflexivity|].
  inversion Hnd as [|? ? Hn Hd]; subst.
  rewrite IH by exact Hd. rewrite obj_get_modify.
  destruct (String.eqb_spec k (id r)) as [->|Hne]; simpl.
  - rewrite String.eqb_refl.
    destruct (existsb (String.eqb (id r)) (map id results)) eqn:E; [|reflexivity].
    exfalso. apply Hn. apply existsb_exists in E. destruct E as [k' [Hin Hk]].
    apply String.eqb_eq in Hk. now subst.
  - destruct (String.eqb_spec (id r) k) as [E|_]; [congruence|]. reflexivity.
Qed.

Lemma recordAll_keys now (results : list TemporalMemoryEntry) : forall (s : Store),
  obj_keys (fold_left (fun st r => obj_modify (id r) (recordAccess now) st)
                      results s)
  = obj_keys s.
Proof.
  induction results as [|r results IH]; intros s; simpl; [reflexivity|].
  now rewrite IH, obj_keys_modify.
Qed.

Lemma existsb_eqb_In (k : string) (l : list string) :
  existsb (String.eqb k) l = true <-> In k l.
Proof.
  rewrite existsb_exists. split.
  - intros [k' [Hin E]]. apply String.eqb_eq in E. now subst.
  - intros H. exists k. split; [exact H|apply String.eqb_refl].
Qed.

(** C7: on a well-formed store, for every entry E that search returns,
    the stored entry with E's id has its accessCount incremented by
    exactly 1 and its lastAccessedAt set to the call time (and nothing else
    changed); the entries that are not returned are unchanged, and so is
    the set of keys. *)
Theorem search_records_access (cfg : Config) (now : Z) (query : string)
        (options : MemorySearchOptions) (s : Store) :
  wfStore s ->
  let results := fst (search cfg now query options s) in
  let s' := snd (search cfg now query options s) in
  (forall E, In E results ->
     exists e e', obj_get (id E) s = Some e
                  /\ obj_get (id E) s' = Some e'
                  /\ accessCount e' = (accessCount e + 1)%Z
                  /\ lastAccessedAt e' = now
                  /\ e' = recordAccess now e)
  /\ (forall k, ~ In k (map id results) -> obj_get k s' = obj_get k s)
  /\ obj_keys s' = obj_keys s.
Proof.
  intros Hwf results s'. subst results s'. unfold search. cbn [fst snd].
  assert (Hnd : NoDup (map id (rankedResults cfg now query options s))).
  { apply rankedResults_ids. rewrite (wfStore_ids s Hwf). apply Hwf. }
  repeat apply conj.
  - intros E HE.
    destruct (rankedResults_origin _ _ _ _ _ _ HE) as [e [rel [He ->]]].
    cbn [id set_relevanceScore set_decayScore].
    destruct (In_obj_values _ _ He) as [k Hk].
    destruct Hwf as [Hkeys Hid].
    pose proof (Hid k e Hk) as Ek. subst k.
    pose proof (In_obj_get _ _ _ Hkeys Hk) as Hg.
    exists e, (recordAccess now e).
    rewrite (recordAll_get now _ s (id e) Hnd), Hg.
    assert (Hex : existsb (String.eqb (id e))
                    (map id (rankedResults cfg now query options s)) = true).
    { apply existsb_eqb_In. apply in_map_iff.
      eexists. split; [|exact HE]. reflexivity. }
    rewrite Hex. repeat split; reflexivity.
  - intros k Hk. rewrite (recordAll_get now _ s k Hnd).
    destruct (existsb (String.eqb k)
                (map id (rankedResults cfg now query options s))) eqn:E;
      [|reflexivity].
    exfalso. apply Hk. now apply existsb_eqb_In.
  - apply recordAll_keys.
Qed.

Lemma decay_now (h : R) (t : Z) :
  h <> 0 -> exponentialDecay 1.0 h (IZR t - IZR t) = 1.
Proof.
  intros H. replace (IZR t - IZR t) with 0 by ring.
  rewrite DecayProofs.exponentialDecay_at_zero by exact H. Lra.lra.
Qed.

Lemma scoreRelevance_hello :
  scoreRelevance defaultConfig (tokenize "hello") (set_decayScore 1 helloEntry)
  = 1.5.
Proof.
  unfold scoreRelevance.
  cbn [content decayScore accessCount set_decayScore helloEntry
       relevanceBoostRecent defaultConfig].
  replace (tokenize "hello world") with ["hello"%string; "world"%string]
    by (vm_compute; reflexivity).
  replace (tokenize "hello") with ["hello"%string] by (vm_compute; reflexivity).
  replace (List.length
             (filter
                (fun qt : string =>
                   existsb (fun ct : string =>
                              (includes ct qt || includes qt ct)%bool)
                           ["hello"%string; "world"%string])
                ["hello"%string])) with 1%nat by (vm_compute; reflexivity).
  cbn [List.length Nat.ltb Nat.leb INR].
  destruct (Rlt_dec 0.8 1) as [_|H]; [|exfalso; Lra.lra].
  unfold Rmin. destruct (Rle_dec 0.2 (0 * 0.02)); Lra.lra.
Qed.

(** A search that returns the one stored entry. *)
Lemma rankedResults_hello :
  rankedResults defaultConfig 1000 "hello" noOptions helloStore
  = [set_relevanceScore 1.5 (set_decayScore 1 helloEntry)].
Proof.
  unfold rankedResults.
  cbn [limit minRelevance maxAgeDays noOptions helloStore obj_values map snd
       decayHalfLifeDays defaultConfig].
  assert (H1 : geR (IZR (timestamp helloEntry)) 0 = true).
  { unfold geR. destruct (Rle_dec 0 (IZR (timestamp helloEntry))) as [_|H];
      [reflexivity|]. exfalso. apply H. cbn. Lra.lra. }
  cbn [filter]. rewrite H1. cbn [map].
  change (timestamp helloEntry) with 1000%Z.
  rewrite decay_now by (unfold MS_PER_DAY; Lra.lra).
  rewrite scoreRelevance_hello.
  assert (H2 : geR (relevanceScore
                      (set_relevanceScore 1.5 (set_decayScore 1 helloEntry))) 0.1
               = true).
  { unfold geR. cbn [relevanceScore set_relevanceScore].
    destruct (Rle_dec 0.1 1.5) as [_|H]; [reflexivity|exfalso; Lra.lra]. }
  cbn [filter]. rewrite H2. reflexivity.
Qed.

Lemma wfStore_hello : wfStore helloStore.
Proof.
  split.
  - repeat constructor. intros [].
  - intros k e [H|[]]. injection H as <- <-. reflexivity.
Defined.

Lemma search_records_access_witness :
  exists e', obj_get "k1" (snd (search defaultConfig 1000 "hello" noOptions
                                       helloStore)) = Some e'
             /\ accessCount e' = 1%Z /\ lastAccessedAt e' = 1000%Z.
Proof.
  destruct (search_records_access defaultConfig 1000 "hello" noOptions
              helloStore wfStore_hello) as [H _].
  destruct (H (set_relevanceScore 1.5 (set_decayScore 1 helloEntry)))
    as [e [e' [Hg [Hg' [Ha [Hl _]]]]]].
  { unfold search. cbn [fst]. rewrite rankedResults_hello. now left. }
  cbn in Hg. injection Hg as <-.
  exists e'. split; [exact Hg'|]. split; [exact Ha|exact Hl].
Defined.

Lemma sameButAccess_refl e : sameButAccess e e.
Proof. unfold sameButAccess. tauto. Qed.

Lemma sameButAccess_recordAccess now e : sameButAccess e (recordAccess now e).
Proof. unfold sameButAccess. cbn. tauto. Qed.

Lemma sameButAccess_trans e1 e2 e3 :
  sameButAccess e1 e2 -> sameButAccess e2 e3 -> sameButAccess e1 e3.
Proof.
  unfold sameButAccess. intros H1 H2.
  repeat match goal with H : _ /\ _ |- _ => destruct H end.
  repeat split; congruence.
Qed.

Lemma recordAll_frame now (results : list TemporalMemoryEntry) :
  forall (s : Store) k,
    sameButAccessOpt
      (obj_get k s)
      (obj_get k (fold_left (fun st r => obj_modify (id r) (recordAccess now) st)
                            results s)).
Proof.
  induction results as [|r results IH]; intros s k; simpl.
  - destruct (obj_get k s); simpl; [apply sameButAccess_refl|exact I].
  - specialize (IH (obj_modify (id r) (recordAccess now) s) k).
    rewrite obj_get_modify in IH.
    destruct (String.eqb (id r) k); [|exact IH].
    destruct (obj_get k s) as [e|]; simpl in *; [|exact IH].
    match goal with
    | |- context [obj_get k ?m] => destruct (obj_get k m) as [e'|]
    end; simpl in *; [|exact IH].
    eapply sameButAccess_trans; [apply sameButAccess_recordAccess|exact IH].
Qed.

Lemma recordAll_Forall (P : TemporalMemoryEntry -> Prop) now
      (results : list TemporalMemoryEntry) :
  (forall e, P e -> P (recordAccess now e)) ->
  forall s : Store,
    Forall (fun kv => P (snd kv)) s ->
    Forall (fun kv => P (snd kv))
           (fold_left (fun st r => obj_modify (id r) (recordAccess now) st)
                      results s).
Proof.
  intros Hf. induction results as [|r results IH]; intros s Hs; simpl; [exact Hs|].
  apply IH. now apply obj_modify_Forall.
Qed.

Lemma step_storedDecayOne md5hex cfg s o :
  storedDecayOne s -> storedDecayOne (step md5hex cfg s o).
Proof.
  unfold storedDecayOne. intros H. destruct o; simpl.
  - apply (obj_set_Forall (fun e => decayScore e = 1)); [|exact H].
    cbn. Lra.lra.
  - apply (recordAll_Forall (fun e => decayScore e = 1)); [|exact H].
    intros e He. exact He.
  - unfold getEntry. destruct (obj_get k s); [|exact H]. simpl.
    apply (obj_modify_Forall (fun e => decayScore e = 1)); [|exact H].
    intros e He. exact He.
  - unfold updateEntry. destruct (obj_get k s); [|exact H]. simpl.
    apply (obj_modify_Forall (fun e => decayScore e = 1)); [|exact H].
    intros e He. exact He.
  - unfold associateTask. destruct (obj_get memoryId s); [|exact H]. simpl.
    apply (obj_modify_Forall (fun e => decayScore e = 1)); [|exact H].
    intros e He. unfold pushTask.
    destruct (existsb (String.eqb tid) (associatedTasks e)); exact He.
  - unfold removeEntry. destruct (obj_get k s); [|exact H]. simpl.
    now apply obj_filter_Forall.
  - now apply obj_filter_Forall.
Qed.

Lemma run_storedDecayOne md5hex cfg ops : forall s,
  storedDecayOne s -> storedDecayOne (run md5hex cfg ops s).
Proof.
  induction ops as [|o ops IH]; intros s H; simpl; [exact H|].
  apply IH. now apply step_storedDecayOne.
Qed.

Lemma shouldPrune_decay_one cutoff minAccessCount e :
  decayScore e = 1 ->
  shouldPrune cutoff minAccessCount e = pruneByAge cutoff minAccessCount e.
Proof.
  intros H. unfold shouldPrune, pruneByAge. rewrite H.
  destruct (Rlt_dec 1 0.1) as [Hlt|_]; [exfalso; Lra.lra|].
  cbn [andb]. apply orb_false_r.
Qed.

(** C9: search changes nothing in the store but the accessCount and the
    lastAccessedAt of stored entries, and keeps the keys; the recomputed
    decay goes to the returned copies, and to them only, so that in every
    store built
    by the operations of the index each stored decayScore is still the 1.0
    written by addEntry, and the test of prune, which reads the stored
    decayScore, reduces there to its age criterion. *)
Theorem search_frame_stored_decay (md5hex : string -> string) (cfg : Config) :
  (forall now query options (s : Store) k,
     sameButAccessOpt (obj_get k s)
                      (obj_get k (snd (search cfg now query options s))))
  /\ (forall now query options (s : Store),
        obj_keys (snd (search cfg now query options s)) = obj_keys s)
  /\ (forall now query options (s : Store),
        Forall (fun E => decayScore E
                         = exponentialDecay 1.0
                             (decayHalfLifeDays cfg * IZR MS_PER_DAY)
                             (IZR now - IZR (timestamp E)))
               (fst (search cfg now query options s)))
  /\ (forall ops, storedDecayOne (run md5hex cfg ops []))
  /\ (forall ops,
        Forall (fun kv => forall cutoff minAccessCount,
                    shouldPrune cutoff minAccessCount (snd kv)
                    = pruneByAge cutoff minAccessCount (snd kv))
               (run md5hex cfg ops [])).
Proof.
  repeat apply conj.
  - intros now query options s k. apply recordAll_frame.
  - intros now query options s. apply recordAll_keys.
  - intros now query options s. apply Forall_forall. intros E HE.
    unfold search in HE. cbn [fst] in HE.
    destruct (rankedResults_origin _ _ _ _ _ _ HE) as [e [rel [_ ->]]].
    reflexivity.
  - intros ops. apply run_storedDecayOne. constructor.
  - intros ops. eapply Forall_impl; [|apply (run_storedDecayOne md5hex cfg ops [])].
    + intros kv H cutoff minAccessCount. now apply shouldPrune_decay_one.
    + constructor.
Qed.

End MemoryProofs.

(** ** Well-formedness is kept by the operations *)
Module InvariantProofs.

Lemma startTask_wfActive now rnd c x (s : Estimator.State) :
  Estimator.wfActive (Estimator.activeTasks s) ->
  Estimator.wfActive
    (Estimator.activeTasks (snd (Estimator.startTask now rnd c x s))).
Proof.
  intros H. unfold Estimator.startTask. cbn [snd Estimator.activeTasks].
  now apply wfObj_set.
Qed.

Lemma resolveTask_wfActive tid (m : Estimator.ActiveTasks) :
  Estimator.wfActive m ->
  match Estimator.resolveTask tid m with
  | Typed (_, remaining) => Estimator.wfActive remaining
  | OnMember => True
  end.
Proof.
  intros H. unfold Estimator.resolveTask.
  set (mostRecent := match last (map Some (obj_values m)) None with
                     | Some t => (Some t, obj_delete (Estimator.taskId t) m)
                     | None => (None, m)
                     end).
  assert (Hm : Estimator.wfActive (snd mostRecent)).
  { unfold mostRecent. destruct (last (map Some (obj_values m)) None);
      cbn [snd]; [apply wfObj_filter|]; exact H. }
  destruct mostRecent as [r remaining]. cbn [snd] in Hm.
  destruct tid as [k|]; [|exact Hm].
  destruct (String.eqb k ""); [exact Hm|].
  destruct (obj_get k m); [apply wfObj_filter; exact H|].
  destruct (inherited k); [exact I|exact Hm].
Qed.

Lemma completeTask_wfActive cfg now tid (s : Estimator.State) :
  Estimator.wfActive (Estimator.activeTasks s) ->
  match Estimator.completeTask cfg now tid s with
  | Typed (_, s') => Estimator.wfActive (Estimator.activeTasks s')
  | OnMember => True
  end.
Proof.
  intros H. unfold Estimator.completeTask.
  pose proof (resolveTask_wfActive tid _ H) as Hr.
  destruct (Estimator.resolveTask tid (Estimator.activeTasks s))
    as [[[task|] remaining]|]; cbn in *; assumption.
Qed.

Lemma recordAll_wfStore now (results : list Memory.TemporalMemoryEntry) :
  forall s : Memory.Store,
    wfStore s ->
    wfStore (fold_left
               (fun st r => obj_modify (Memory.id r) (Memory.recordAccess now) st)
               results s).
Proof.
  induction results as [|r results IH]; intros s H; simpl; [exact H|].
  apply IH. apply wfObj_modify; [reflexivity|exact H].
Qed.

Lemma step_wfStore md5hex cfg (s : Memory.Store) o :
  wfStore s -> wfStore (Memory.step md5hex cfg s o).
Proof.
  intros H. destruct o; simpl.
  - apply wfObj_set; [reflexivity|exact H].
  - now apply recordAll_wfStore.
  - unfold Memory.getEntry. destruct (obj_get k s); [|exact H].
    apply wfObj_modify; [reflexivity|exact H].
  - unfold Memory.updateEntry. destruct (obj_get k s); [|exact H].
    apply wfObj_modify; [reflexivity|exact H].
  - unfold Memory.associateTask. destruct (obj_get memoryId s); [|exact H].
    apply wfObj_modify; [|exact H].
    intros e. unfold Memory.pushTask.
    now destruct (existsb (String.eqb tid) (Memory.associatedTasks e)).
  - unfold Memory.removeEntry. destruct (obj_get k s); [|exact H].
    now apply wfObj_filter.
  - now apply wfObj_filter.
Qed.

(** Every store built by the operations of the index is well-formed. *)
Lemma run_wfStore md5hex cfg ops : forall s : Memory.Store,
  wfStore s -> wfStore (Memory.run md5hex cfg ops s).
Proof.
  induction ops as [|o ops IH]; intros s H; simpl; [exact H|].
  apply IH. now apply step_wfStore.
Qed.

End InvariantProofs.

(** ** The estimate away from a zero mean *)
Module EstimateRangeProofs.
Import Confidence Estimator.
Local Open Scope R_scope.

Lemma round_R_spec (x : R) :
  IZR (JS.round_R x) <= x + / 2 < IZR (JS.round_R x) + 1.
Proof.
  unfold JS.round_R. rewrite minus_IZR.
  destruct (archimed (x + / 2)) as [H1 H2]. Lra.lra.
Qed.

Lemma floor_unique (r : R) (z z' : Z) :
  IZR z <= r < IZR z + 1 -> IZR z' <= r < IZR z' + 1 -> z = z'.
Proof.
  intros [H1 H2] [H3 H4].
  assert (A : (z < z' + 1)%Z) by (apply lt_IZR; rewrite plus_IZR; Lra.lra).
  assert (B : (z' < z + 1)%Z) by (apply lt_IZR; rewrite plus_IZR; Lra.lra).
  lia.
Qed.

Lemma round_R_mono (x y : R) : x <= y -> (JS.round_R x <= JS.round_R y)%Z.
Proof.
  intros H. pose proof (round_R_spec x) as [H1 H2].
  pose proof (round_R_spec y) as [H3 H4].
  assert (A : (JS.round_R x < JS.round_R y + 1)%Z)
    by (apply lt_IZR; rewrite plus_IZR; Lra.lra).
  lia.
Qed.

(** The two models of [Math.round] agree on rationals. *)
Lemma round_R_Q (q : Q) : JS.round_R (Q2R q) = Math_round q.
Proof.
  apply (floor_unique (Q2R q + / 2)); [apply round_R_spec|].
  unfold Math_round.
  pose proof (Qfloor_le (q + (1 # 2))) as H1.
  pose proof (Qlt_floor (q + (1 # 2))) as H2.
  apply Qle_Rle in H1. apply Qlt_Rlt in H2.
  rewrite Q2R_plus in H1, H2.
  assert (E : Q2R (1 # 2) = / 2) by (unfold Q2R; simpl; Lra.lra).
  rewrite E in H1, H2.
  assert (F : forall z, Q2R (inject_Z z) = IZR z).
  { intros z. unfold Q2R, inject_Z. simpl. Lra.lra. }
  rewrite F in H1, H2. rewrite plus_IZR in H2. Lra.lra.
Qed.

(** With fewer than two samples, or a positive total of the actual
    durations, the coefficient of variation is a non-negative number. *)
Lemma calculateVariance_finite (l : list TaskHistoryEntry) :
  (List.length l < 2)%nat
  \/ 0 < sumR (map (fun h => IZR (h_actualMs h)) l) ->
  exists v, calculateVariance l = Num v /\ 0 <= v.
Proof.
  intros H. unfold calculateVariance.
  destruct (Nat.ltb_spec (List.length l) 2) as [Hlt|Hge].
  - exists 0.5. split; [reflexivity|Lra.lra].
  - destruct H as [H|H]; [lia|]. cbv zeta.
    set (actuals := map (fun h => IZR (h_actualMs h)) l) in *.
    assert (Hlen : 0 < INR (List.length actuals)).
    { unfold actuals. rewrite length_map. apply lt_0_INR. lia. }
    set (mean := sumR actuals / INR (List.length actuals)).
    assert (Hmean : 0 < mean) by (now apply Rdiv_lt_0_compat).
    unfold JS.div. destruct (Req_dec_T mean 0) as [E|_]; [Lra.lra|].
    eexists. split; [reflexivity|].
    apply Rmult_le_pos; [apply sqrt_pos|].
    left. now apply Rinv_0_lt_compat.
Qed.

(** X17: With a non-negative baseline and either fewer than two matching
    history entries or a positive total of their actual durations, estimate
    returns minimumMs <= expectedMs <= maximumMs. *)
Lemma estimate_ordered cfg now s c x :
  (0 <= getBaseline s c x)%Q ->
  (List.length (filter (matches c x) (taskHistory s)) < 2)%nat
  \/ 0 < sumR (map (fun h => IZR (h_actualMs h))
                   (filter (matches c x) (taskHistory s))) ->
  JS.le (minimumMs (estimate cfg now s c x)) (expectedMs (estimate cfg now s c x))
  /\ JS.le (expectedMs (estimate cfg now s c x))
           (maximumMs (estimate cfg now s c x)).
Proof.
  intros Hb Hm. unfold estimate. cbn [minimumMs expectedMs maximumMs].
  destruct (calculateVariance_finite _ Hm) as [v [-> Hv]].
  apply Qle_Rle in Hb. rewrite RMicromega.Q2R_0 in Hb.
  set (b := Q2R (getBaseline s c x)) in *.
  cbn [JS.add JS.mul]. unfold JS.div.
  destruct (Req_dec_T (1 + v) 0) as [E|_]; [Lra.lra|].
  cbn [JS.round JS.le]. rewrite <- round_R_Q. fold b.
  assert (Hinv : 0 < / (1 + v) <= 1).
  { split; [apply Rinv_0_lt_compat; Lra.lra|].
    rewrite <- Rinv_1. apply Rinv_le_contravar; Lra.lra. }
  split; apply IZR_le, round_R_mono.
  - unfold Rdiv. Lra.nra.
  - Lra.nra.
Qed.

Lemma estimate_ordered_witness :
  (0 <= getBaseline (initialState 0) coding moderate)%Q
  /\ JS.le (minimumMs (estimate defaultConfig 0 (initialState 0) coding moderate))
           (expectedMs (estimate defaultConfig 0 (initialState 0) coding moderate)).
Proof.
  assert (H1 : (0 <= getBaseline (initialState 0) coding moderate)%Q)
    by (apply Qle_bool_iff; vm_compute; reflexivity).
  split; [exact H1|].
  refine (proj1 (estimate_ordered defaultConfig 0
                   (initialState 0) coding moderate H1 _)).
  left. simpl. lia.
Defined.

(** On a history with accuracies in [0, 1], read inside the window of its
    weights, the confidence of [estimate] is a number in [0.3, 0.95]. *)
Lemma estimate_confidence_range cfg now s c x :
  (0 < confidenceDecayDays cfg)%Q -> readable cfg now s c x ->
  Forall accuracyInRange (taskHistory s) ->
  exists r, confidence (estimate cfg now s c x) = Num r /\ 0.3 <= r <= 0.95.
Proof.
  intros HD Hr H. exists (confidenceOf cfg now s c x).
  split; [now apply LearningProofs.estimate_confidence|].
  rewrite LearningProofs.confidenceOf_list.
  apply LearningProofs.confidenceOfList_bounds.
  now apply LearningProofs.filter_Forall.
Qed.

End EstimateRangeProofs.

(** ** The object map under assignment *)
Section ObjectSetFacts.
Context {V : Type}.
Implicit Types (m : obj V) (k : string) (v : V).

Lemma obj_get_set_same k v m : obj_get k (obj_set k v m) = Some v.
Proof.
  induction m as [|[k' v'] m IH]; simpl.
  - now rewrite String.eqb_refl.
  - destruct (String.eqb_spec k' k) as [->|Hne]; simpl.
    + now rewrite String.eqb_refl.
    + destruct (String.eqb_spec k' k); [contradiction|exact IH].
Qed.

Lemma obj_get_set_other k k0 v m :
  k0 <> k -> obj_get k0 (obj_set k v m) = obj_get k0 m.
Proof.
  intros Hne. induction m as [|[k' v'] m IH]; simpl.
  - destruct (String.eqb_spec k k0); [congruence|reflexivity].
  - destruct (String.eqb_spec k' k) as [->|Hk]; simpl.
    + destruct (String.eqb_spec k k0); [congruence|reflexivity].
    + now rewrite IH.
Qed.

Lemma obj_set_fresh k v m : ~ In k (obj_keys m) -> obj_set k v m = m ++ [(k, v)].
Proof.
  induction m as [|[k' v'] m IH]; simpl; [reflexivity|].
  intros H. destruct (String.eqb_spec k' k) as [->|Hne].
  - exfalso. apply H. now left.
  - f_equal. apply IH. intros Hin. apply H. now right.
Qed.

Lemma obj_set_existing_keys k v m :
  In k (obj_keys m) -> obj_keys (obj_set k v m) = obj_keys m.
Proof.
  induction m as [|[k' v'] m IH]; simpl; [intros []|].
  intros H. destruct (String.eqb_spec k' k) as [->|Hne]; simpl; [reflexivity|].
  f_equal. apply IH. destruct H; [contradiction|assumption].
Qed.

Lemma obj_delete_set_fresh k v m :
  ~ In k (obj_keys m) -> obj_delete k (obj_set k v m) = m.
Proof.
  intros H. rewrite (obj_set_fresh k v m H).
  unfold obj_delete. rewrite filter_app. simpl. rewrite String.eqb_refl. simpl.
  rewrite app_nil_r. now apply obj_delete_not_key.
Qed.
End ObjectSetFacts.

(** ** Sorting into any total order *)
Section SortAnyOrderSorted.
Context {A : Type} (before : A -> A -> bool) (le : A -> A -> Prop).
Hypothesis before_le : forall x y, before x y = true -> le x y.
Hypothesis before_total : forall x y, before x y = false -> le y x.
Hypothesis le_trans : forall x y z, le x y -> le y z -> le x z.

Lemma sort_insert_sorted_any (x : A) (l : list A) :
  StronglySorted le l -> StronglySorted le (sort_insert before x l).
Proof.
  induction 1 as [|y l Hs IH Hy]; simpl.
  - repeat constructor.
  - destruct (before x y) eqn:E.
    + constructor; [now constructor|].
      constructor; [now apply before_le|].
      eapply Forall_impl; [|exact Hy]. intros z Hz.
      eapply le_trans; [|exact Hz]. now apply before_le.
    + constructor; [exact IH|].
      eapply Permutation_Forall.
      * symmetry. apply sort_insert_perm_any.
      * constructor; [now apply before_total|exact Hy].
Qed.

Lemma js_sort_sorted_any (l : list A) : StronglySorted le (js_sort before l).
Proof.
  induction l as [|x l IH]; simpl; [constructor|].
  now apply sort_insert_sorted_any.
Qed.
End SortAnyOrderSorted.

(** ** The task queue of the scheduler *)
Module QueueProofs.
Import Scheduler.
Local Open Scope Z_scope.

Lemma sorted_head_max {A} (key : A -> Z) (l : list A) (x : A) :
  StronglySorted (descending key) l -> hd_error l = Some x ->
  forall y, In y l -> key y <= key x.
Proof.
  intros Hs Hh y Hy. destruct l as [|a l]; [discriminate|].
  injection Hh as ->. inversion Hs as [|? ? _ Hall]; subst.
  destruct Hy as [->|Hy]; [lia|].
  exact (proj1 (Forall_forall _ _) Hall y Hy).
Qed.

Lemma refreshOne_status cfg now t : status (refreshOne cfg now t) = status t.
Proof. unfold refreshOne. now destruct (is_pending (status t)). Qed.

Lemma refreshOne_id cfg now t : id (refreshOne cfg now t) = id t.
Proof. unfold refreshOne. now destruct (is_pending (status t)). Qed.

Lemma is_pending_iff st : is_pending st = true <-> st = pending.
Proof. destruct st; simpl; split; congruence. Qed.

Lemma refreshed_In cfg now s t :
  In t (refreshPriorities cfg now s) <-> exists t0, In t0 s /\ t = refreshOne cfg now t0.
Proof.
  unfold refreshPriorities, sortTasks. split.
  - intros H. apply (Permutation_in _ (js_sort_perm_any _ _)) in H.
    apply in_map_iff in H. destruct H as [t0 [E H]]. eauto.
  - intros [t0 [H ->]].
    apply (Permutation_in _ (Permutation_sym (js_sort_perm_any _ _))).
    now apply in_map.
Qed.

(** X1: getNextTask returns null exactly when no stored task is pending;
    otherwise it returns a pending task of the refreshed store, whose
    priority is the one calculatePriority gives at the call time and is the
    highest among the pending tasks. *)
Theorem getNextTask_highest (cfg : Config) (now : Z) (s : Store) :
  (fst (getNextTask cfg now s) = None <-> forall t, In t s -> status t <> pending)
  /\ (forall t, fst (getNextTask cfg now s) = Some t ->
        In t (snd (getNextTask cfg now s))
        /\ status t = pending
        /\ priority t = calculatePriority cfg now t
        /\ forall u, In u (snd (getNextTask cfg now s)) -> status u = pending ->
                     priority u <= priority t).
Proof.
  unfold getNextTask. cbn [fst snd].
  set (s' := refreshPriorities cfg now s).
  set (p := filter (fun t => is_pending (status t)) s').
  assert (Hperm : Permutation (js_sort byPriorityDesc p) p)
    by apply js_sort_perm_any.
  assert (Hsorted : StronglySorted (descending priority) (js_sort byPriorityDesc p))
    by apply (js_sort_sorted priority).
  split.
  - split.
    + intros Hn t Ht Hp.
      destruct (js_sort byPriorityDesc p) as [|a l] eqn:E; [|discriminate].
      apply Permutation_nil in Hperm.
      assert (Hin : In (refreshOne cfg now t) p).
      { apply filter_In. split.
        - apply refreshed_In. eauto.
        - rewrite refreshOne_status. now apply is_pending_iff. }
      rewrite Hperm in Hin. destruct Hin.
    + intros Hno.
      destruct (js_sort byPriorityDesc p) as [|a l] eqn:E; [reflexivity|exfalso].
      assert (Ha : In a p) by (apply (Permutation_in _ Hperm); now left).
      apply filter_In in Ha. destruct Ha as [Ha Hp].
      apply refreshed_In in Ha. destruct Ha as [t0 [Ht0 ->]].
      rewrite refreshOne_status in Hp. apply is_pending_iff in Hp.
      exact (Hno t0 Ht0 Hp).
  - intros t Ht.
    assert (Hin : In t p).
    { apply (Permutation_in _ Hperm).
      destruct (js_sort byPriorityDesc p); [discriminate|].
      injection Ht as ->. now left. }
    apply filter_In in Hin. destruct Hin as [Hin Hp].
    apply is_pending_iff in Hp.
    repeat split; [exact Hin | exact Hp | |].
    + apply refreshed_In in Hin. destruct Hin as [t0 [_ ->]].
      rewrite refreshOne_status in Hp.
      unfold refreshOne. rewrite Hp. reflexivity.
    + intros u Hu Hpu.
      apply (sorted_head_max priority _ t Hsorted Ht).
      apply (Permutation_in _ (Permutation_sym Hperm)).
      apply filter_In. split; [exact Hu|]. now apply is_pending_iff.
Qed.

Lemma sorted_same_keys {A} (key : A -> Z) (l : list A) : forall l',
  map key l = map key l' ->
  StronglySorted (descending key) l -> StronglySorted (descending key) l'.
Proof.
  induction l as [|a l IH]; intros [|b l'] E Hs; try discriminate; [constructor|].
  injection E as Eab El. inversion Hs as [|? ? Hs' Hall]; subst.
  constructor; [now apply IH|].
  apply Forall_forall. intros y Hy.
  assert (Hk : In (key y) (map key l)) by (rewrite El; now apply in_map).
  apply in_map_iff in Hk. destruct Hk as [y0 [E0 Hy0]].
  pose proof (proj1 (Forall_forall _ _) Hall y0 Hy0) as H.
  unfold descending in *. lia.
Qed.

Lemma updateFirst_priorities tid f s :
  (forall t, priority (f t) = priority t) ->
  map priority (snd (updateFirst tid f s)) = map priority s.
Proof.
  intros Hf. induction s as [|t s IH]; simpl; [reflexivity|].
  destruct (String.eqb (id t) tid); simpl; [now rewrite Hf|].
  destruct (updateFirst tid f s) as [r s']. simpl in *. now rewrite IH.
Qed.

Lemma sorted_filter {A} (key : A -> Z) (p : A -> bool) (l : list A) :
  StronglySorted (descending key) l -> StronglySorted (descending key) (filter p l).
Proof.
  induction 1 as [|a l Hs IH Hall]; simpl; [constructor|].
  destruct (p a); [|exact IH]. constructor; [exact IH|].
  apply Forall_forall. intros y Hy. apply filter_In in Hy.
  exact (proj1 (Forall_forall _ _) Hall y (proj1 Hy)).
Qed.

Lemma removeFirst_In tid s t : In t (snd (removeFirst tid s)) -> In t s.
Proof.
  induction s as [|a s IH]; simpl; [auto|].
  destruct (String.eqb (id a) tid); simpl; [auto|].
  destruct (removeFirst tid s) as [r s']. simpl in *. intros [H|H]; auto.
Qed.

Lemma removeFirst_sorted tid s :
  StronglySorted (descending priority) s ->
  StronglySorted (descending priority) (snd (removeFirst tid s)).
Proof.
  induction 1 as [|a l Hs IH Hall]; simpl; [constructor|].
  destruct (String.eqb (id a) tid); simpl; [exact Hs|].
  pose proof (removeFirst_In tid l) as Hin.
  destruct (removeFirst tid l) as [r s']. simpl in *.
  constructor; [exact IH|].
  apply Forall_forall. intros y Hy.
  exact (proj1 (Forall_forall _ _) Hall y (Hin y Hy)).
Qed.

Lemma step_sorted cfg s o :
  StronglySorted (descending priority) s ->
  StronglySorted (descending priority) (step cfg s o).
Proof.
  intros H. destruct o; simpl.
  - apply (js_sort_sorted priority).
  - eapply sorted_same_keys; [|exact H]. symmetry.
    now apply updateFirst_priorities.
  - unfold updateTask.
    match goal with
    | |- context [updateFirst ?a ?f ?b] => destruct (updateFirst a f b) as [r s']
    end.
    destruct r; simpl; [apply (js_sort_sorted priority)|exact H].
  - apply (js_sort_sorted priority).
  - apply (js_sort_sorted priority).
  - now apply removeFirst_sorted.
  - now apply sorted_filter.
Qed.

(** X2: After any sequence of calls of the scheduler (addTask,
    updateTaskStatus, updateTask, getNextTask, getTaskList, removeTask,
    cleanupOldTasks) from the empty store, the stored task list is sorted by
    descending priority. *)
Theorem store_always_sorted (cfg : Config) (ops : list Op) :
  StronglySorted (descending priority) (run cfg ops []).
Proof.
  unfold run.
  assert (G : forall s, StronglySorted (descending priority) s ->
                        StronglySorted (descending priority)
                                       (fold_left (step cfg) ops s)).
  { induction ops as [|o ops IH]; intros s H; simpl; [exact H|].
    apply IH. now apply step_sorted. }
  apply G. constructor.
Qed.

(** X3: cleanupOldTasks returns the number of tasks it removed, which is
    never negative; it keeps exactly the tasks that are pending or in
    progress or were updated after the cutoff, and calling it again with the
    same arguments removes nothing. *)
Theorem cleanupOldTasks_keeps_open (now : Z) (maxAgeDays : Q) (s : Store) :
  let cutoff := (inject_Z now - maxAgeDays * inject_Z MS_PER_DAY)%Q in
  let n := fst (cleanupOldTasks now maxAgeDays s) in
  let kept := snd (cleanupOldTasks now maxAgeDays s) in
  n = Z.of_nat (List.length s) - Z.of_nat (List.length kept)
  /\ 0 <= n
  /\ (forall t, In t kept <->
                In t s /\ (is_open (status t) = true
                           \/ (cutoff < inject_Z (updatedAt t))%Q))
  /\ cleanupOldTasks now maxAgeDays kept = (0, kept).
Proof.
  unfold cleanupOldTasks. cbn [fst snd].
  set (keep := fun t : ScheduledTask =>
                 if is_open (status t) then true
                 else negb (Qle_bool (inject_Z (updatedAt t))
                              (inject_Z now - maxAgeDays * inject_Z MS_PER_DAY))).
  split; [reflexivity|]. split; [|split].
  - pose proof (filter_length_le keep s). lia.
  - intros t. split.
    + intros H. apply filter_In in H. destruct H as [Hin H].
      split; [exact Hin|]. unfold keep in H.
      destruct (is_open (status t)); [now left|right].
      apply negb_true_iff in H. now apply ConfidenceProofs.Qle_bool_false.
    + intros [Hin H]. apply filter_In. split; [exact Hin|]. unfold keep.
      destruct (is_open (status t)); [reflexivity|].
      destruct H as [H|H]; [discriminate|].
      apply negb_true_iff. destruct (Qle_bool _ _) eqn:E; [|reflexivity].
      apply Qle_bool_iff in E. exfalso. Lqa.lra.
  - assert (E : filter keep (filter keep s) = filter keep s).
    { induction s as [|a s IH]; simpl; [reflexivity|].
      destruct (keep a) eqn:Ea; simpl; [rewrite Ea, IH|]; auto. }
    rewrite E. f_equal. lia.
Qed.

(** X4: removeTask returns true exactly when some stored task has the id; it
    then removes the first task with that id and keeps every other task in
    its place, and otherwise leaves the store unchanged. *)
Theorem removeTask_first_match (tid : string) (s : Store) :
  (fst (removeTask tid s) = true <-> In tid (map id s))
  /\ (fst (removeTask tid s) = false -> snd (removeTask tid s) = s)
  /\ (fst (removeTask tid s) = true ->
      exists l1 t l2,
        s = l1 ++ t :: l2 /\ id t = tid /\ ~ In tid (map id l1)
        /\ snd (removeTask tid s) = l1 ++ l2).
Proof.
  unfold removeTask. induction s as [|a s [IH1 [IH2 IH3]]]; simpl.
  - repeat split; try discriminate; try tauto.
  - destruct (String.eqb_spec (id a) tid) as [E|E]; simpl.
    + split; [tauto|]. split; [discriminate|]. intros _.
      exists [], a, s. simpl. auto.
    + destruct (removeFirst tid s) as [r s'] eqn:Er. simpl in *.
      split; [|split].
      * rewrite IH1. split; [auto|]. intros [H|H]; [contradiction|exact H].
      * intros H. now rewrite IH2.
      * intros H. destruct (IH3 H) as [l1 [t [l2 [-> [Ht [Hn ->]]]]]].
        exists (a :: l1), t, l2. simpl. repeat split; auto.
        intros [H'|H']; [contradiction|auto].
Qed.

Lemma updateFirst_ids tid f s :
  (forall t, id (f t) = id t) ->
  map id (snd (updateFirst tid f s)) = map id s.
Proof.
  intros Hf. induction s as [|t s IH]; simpl; [reflexivity|].
  destruct (String.eqb (id t) tid); simpl; [now rewrite Hf|].
  destruct (updateFirst tid f s) as [r s']. simpl in *. now rewrite IH.
Qed.

Lemma updateFirst_result tid f s :
  match fst (updateFirst tid f s) with
  | None => ~ In tid (map id s) /\ snd (updateFirst tid f s) = s
  | Some t => exists t0, In t0 s /\ id t0 = tid /\ t = f t0
              /\ In t (snd (updateFirst tid f s))
  end.
Proof.
  induction s as [|a s IH]; simpl; [auto|].
  destruct (String.eqb_spec (id a) tid) as [E|E]; simpl.
  - exists a. auto.
  - destruct (updateFirst tid f s) as [[t|] s']; simpl in *.
    + destruct IH as [t0 [H1 [H2 [H3 H4]]]]. exists t0. auto.
    + destruct IH as [Hn ->]. split; [|reflexivity].
      intros [H|H]; [contradiction|auto].
Qed.

(** X5: updateTaskStatus changes neither the order of the stored tasks nor
    any priority: it returns null exactly for an unknown id (store
    unchanged), and otherwise the stored task with the new status, updatedAt
    set to the call time, and completedAt set to it when the status is
    completed. *)
Theorem updateTaskStatus_keeps_ranking (now : Z) (tid : string)
        (st : TaskStatus) (s : Store) :
  map id (snd (updateTaskStatus now tid st s)) = map id s
  /\ map priority (snd (updateTaskStatus now tid st s)) = map priority s
  /\ (fst (updateTaskStatus now tid st s) = None <-> ~ In tid (map id s))
  /\ (fst (updateTaskStatus now tid st s) = None ->
      snd (updateTaskStatus now tid st s) = s)
  /\ (forall t, fst (updateTaskStatus now tid st s) = Some t ->
        In t (snd (updateTaskStatus now tid st s))
        /\ id t = tid /\ status t = st /\ updatedAt t = now
        /\ (st = completed -> completedAt t = Some now)).
Proof.
  unfold updateTaskStatus.
  match goal with |- context [updateFirst tid ?f s] => set (f0 := f) end.
  pose proof (updateFirst_result tid f0 s) as R.
  split; [now apply updateFirst_ids|].
  split; [now apply updateFirst_priorities|].
  destruct (fst (updateFirst tid f0 s)) as [t|] eqn:E.
  - destruct R as [t0 [H1 [H2 [H3 H4]]]].
    split; [split; [discriminate|]|split; [discriminate|]].
    + intros Hn. exfalso. apply Hn. apply in_map_iff. eauto.
    + intros t' [= <-]. subst t. unfold f0. cbn.
      repeat split; auto. intros ->. reflexivity.
  - destruct R as [Hn Hs].
    split; [tauto|]. split; [auto|]. discriminate.
Qed.

Lemma isOverdue_iff now t :
  isOverdue now t = true <->
  status t = pending /\ exists d, deadline t = Some d /\ d <> 0 /\ d < now.
Proof.
  unfold isOverdue. destruct (deadline t) as [d|].
  - rewrite !andb_true_iff, negb_true_iff, Z.eqb_neq, Z.ltb_lt, is_pending_iff.
    split.
    + intros [[H1 H2] H3]. split; [exact H3|]. exists d. auto.
    + intros [H3 [d' [[= <-] [H1 H2]]]]. auto.
  - split; [discriminate|]. intros [_ [d [H _]]]. discriminate.
Qed.

(** X6: getOverdueTasks returns, sorted by ascending deadline, exactly the
    stored tasks that are pending and have a non-zero deadline strictly
    before the call time. *)
Theorem getOverdueTasks_sound_complete (now : Z) (s : Store) :
  Permutation (getOverdueTasks now s) (filter (isOverdue now) s)
  /\ StronglySorted (fun a b => deadlineOrZero a <= deadlineOrZero b)
                    (getOverdueTasks now s)
  /\ (forall t, In t (getOverdueTasks now s) <->
                In t s /\ status t = pending
                /\ exists d, deadline t = Some d /\ d <> 0 /\ d < now).
Proof.
  unfold getOverdueTasks. split; [apply js_sort_perm_any|]. split.
  - apply js_sort_sorted_any; unfold byDeadlineAsc; intros.
    + apply Z.leb_le in H. lia.
    + apply Z.leb_gt in H. lia.
    + lia.
  - intros t. split.
    + intros H. apply (Permutation_in _ (js_sort_perm_any _ _)) in H.
      apply filter_In in H. destruct H as [H1 H2].
      apply isOverdue_iff in H2. tauto.
    + intros [H1 H2].
      apply (Permutation_in _ (Permutation_sym (js_sort_perm_any _ _))).
      apply filter_In. split; [exact H1|]. now apply isOverdue_iff.
Qed.

Lemma Math_max_mono a b b' : (b <= b')%Q -> (Math_max a b <= Math_max a b')%Q.
Proof.
  intros H. unfold Math_max.
  destruct (Qle_bool a b) eqn:E1, (Qle_bool a b') eqn:E2;
    ConfidenceProofs.qtests; Lqa.lra.
Qed.

Lemma Math_min_mono a b b' : (b <= b')%Q -> (Math_min a b <= Math_min a b')%Q.
Proof.
  intros H. unfold Math_min.
  destruct (Qle_bool a b) eqn:E1, (Qle_bool a b') eqn:E2;
    ConfidenceProofs.qtests; Lqa.lra.
Qed.

(** X7: With non-negative urgency and importance weights, raising the
    urgency or the importance of a task (same deadline, same expected
    duration) never lowers its calculated priority. *)
Theorem calculatePriority_monotone (cfg : Config) (now : Z)
        (t t' : ScheduledTask) :
  (0 <= urgencyWeight cfg)%Q -> (0 <= importanceWeight cfg)%Q ->
  deadline t' = deadline t ->
  expectedMs (estimatedDuration t') = expectedMs (estimatedDuration t) ->
  (urgency t <= urgency t')%Q -> (importance t <= importance t')%Q ->
  calculatePriority cfg now t <= calculatePriority cfg now t'.
Proof.
  intros Hu Hi Ed Ee Hut Hit. unfold calculatePriority.
  apply Math_round_mono, Math_min_mono, Math_max_mono.
  unfold weightedScore. rewrite Ed, Ee.
  set (e := (1 - Math_min 1 (expectedMs (estimatedDuration t)
                             / inject_Z MS_PER_DAY))%Q).
  set (d := deadlineScore now (expectedMs (estimatedDuration t)) (deadline t)).
  assert (H1 : (urgency t / 100 * urgencyWeight cfg
                <= urgency t' / 100 * urgencyWeight cfg)%Q).
  { apply Qmult_le_compat_r; [|exact Hu].
    apply Qmult_le_compat_r; [exact Hut|]. vm_compute. discriminate. }
  assert (H2 : (importance t / 100 * importanceWeight cfg
                <= importance t' / 100 * importanceWeight cfg)%Q).
  { apply Qmult_le_compat_r; [|exact Hi].
    apply Qmult_le_compat_r; [exact Hit|]. vm_compute. discriminate. }
  Lqa.lra.
Qed.

Lemma calculatePriority_monotone_witness :
  (0 <= urgencyWeight defaultConfig)%Q
  /\ (0 <= importanceWeight defaultConfig)%Q
  /\ (urgency tieSecond <= 70)%Q
  /\ calculatePriority defaultConfig 3000 tieSecond
     <= calculatePriority defaultConfig 3000
          (mkTask "sched_2000_b" "task" None None scenarioEstimate 64 70%Q 50%Q
                  pending 2000 2000 None None None []).
Proof.
  assert (H1 : (0 <= urgencyWeight defaultConfig)%Q) by (simpl; Lqa.lra).
  assert (H2 : (0 <= importanceWeight defaultConfig)%Q) by (simpl; Lqa.lra).
  assert (H3 : (urgency tieSecond <= 70)%Q) by (simpl; Lqa.lra).
  assert (H4 : (importance tieSecond <= 50)%Q) by (simpl; Lqa.lra).
  split; [exact H1|]. split; [exact H2|]. split; [exact H3|].
  exact (calculatePriority_monotone defaultConfig 3000 tieSecond
           (mkTask "sched_2000_b" "task" None None scenarioEstimate 64 70%Q 50%Q
                   pending 2000 2000 None None None [])
           H1 H2 eq_refl eq_refl H3 H4).
Defined.

Lemma count_disjoint3 (p q r : ScheduledTask -> bool) (s : Store) :
  (forall t, p t = true -> q t = false /\ r t = false) ->
  (forall t, q t = true -> r t = false) ->
  (List.length (filter p s) + List.length (filter q s)
   + List.length (filter r s) <= List.length s)%nat.
Proof.
  intros Hpq Hqr. induction s as [|a s IH]; simpl; [lia|].
  destruct (p a) eqn:Ep, (q a) eqn:Eq, (r a) eqn:Er; simpl; try lia.
  - destruct (Hpq a Ep). congruence.
  - destruct (Hpq a Ep). congruence.
  - destruct (Hpq a Ep). congruence.
  - pose proof (Hqr a Eq). congruence.
Qed.

Lemma count_le (p q : ScheduledTask -> bool) (s : Store) :
  (forall t, p t = true -> q t = true) ->
  (List.length (filter p s) <= List.length (filter q s))%nat.
Proof.
  intros H. induction s as [|a s IH]; simpl; [lia|].
  destruct (p a) eqn:Ep.
  - rewrite (H a Ep). simpl. lia.
  - destruct (q a); simpl; lia.
Qed.

Lemma priority_sum_bounds (s : Store) :
  Forall priorityInRange s ->
  forall acc, acc <= fold_left (fun sum t => sum + priority t) s acc
              <= acc + 100 * Z.of_nat (List.length s).
Proof.
  induction 1 as [|a s Ha Hs IH]; intros acc; simpl fold_left.
  - simpl. lia.
  - specialize (IH (acc + priority a)). unfold priorityInRange in Ha.
    cbn [List.length]. lia.
Qed.

(** X8: On every store reached by calls of the scheduler from the empty
    store, getStatistics reports the total as the number of stored tasks,
    non-negative counters with pending + inProgress + completed at most the
    total, overdue at most pending, and an average priority between 0 and
    100. *)
Theorem getStatistics_consistent (cfg : Config) (ops : list Op) (now : Z) :
  let st := getStatistics now (run cfg ops []) in
  st_total st = Z.of_nat (List.length (run cfg ops []))
  /\ 0 <= st_pending st /\ 0 <= st_inProgress st /\ 0 <= st_completed st
  /\ st_pending st + st_inProgress st + st_completed st <= st_total st
  /\ 0 <= st_overdue st <= st_pending st
  /\ 0 <= st_avgPriority st <= 100.
Proof.
  set (s := run cfg ops []).
  assert (Hr : Forall priorityInRange s)
    by (apply SchedulerProofs.run_range; constructor).
  cbn zeta. unfold getStatistics, countIf. cbn [st_total st_pending st_inProgress st_completed st_overdue st_avgPriority].
  split; [reflexivity|].
  split; [lia|]. split; [lia|]. split; [lia|].
  split.
  - pose proof (count_disjoint3
                  (fun t => TaskStatus_eqb (status t) pending)
                  (fun t => TaskStatus_eqb (status t) in_progress)
                  (fun t => TaskStatus_eqb (status t) completed) s) as H.
    assert (H' : (List.length (filter (fun t => TaskStatus_eqb (status t) pending) s)
             + List.length (filter (fun t => TaskStatus_eqb (status t) in_progress) s)
             + List.length (filter (fun t => TaskStatus_eqb (status t) completed) s)
             <= List.length s)%nat).
    { apply H; intros t; destruct (status t); simpl; auto; discriminate. }
    lia.
  - split.
    + split; [lia|].
      apply inj_le, count_le. intros t Ht. apply isOverdue_iff in Ht.
      destruct Ht as [-> _]. reflexivity.
    + destruct (Nat.ltb_spec 0 (List.length s)) as [Hpos|Hz].
      * pose proof (priority_sum_bounds s Hr 0) as [Hlo Hhi].
        set (sum := fold_left (fun sum t => sum + priority t) s 0) in *.
        set (n := Z.of_nat (List.length s)) in *.
        assert (Hn : 0 < n) by (unfold n; lia).
        assert (Hq : (0 <= inject_Z sum / inject_Z n <= 100)%Q).
        { assert (Hnq : (0 < inject_Z n)%Q)
            by (unfold Qlt, inject_Z; simpl; lia).
          split.
          - apply Qle_shift_div_l; [exact Hnq|].
            rewrite Qmult_0_l. unfold Qle, inject_Z; simpl; lia.
          - apply Qle_shift_div_r; [exact Hnq|].
            change 100%Q with (inject_Z 100). rewrite <- inject_Z_mult.
            rewrite <- Zle_Qle. lia. }
        split.
        -- change 0 with (Math_round 0). apply Math_round_mono, Hq.
        -- change 100 with (Math_round 100). apply Math_round_mono, Hq.
      * vm_compute. split; discriminate.
Qed.
End QueueProofs.

(** ** History and baselines of the estimator *)
Module HistoryProofs.
Import Confidence Estimator.

(** X9: Completing the task that startTask has just registered under a fresh
    id yields a history entry with that id, the category and complexity
    given to startTask, the rounded baseline as estimate, the elapsed time
    as actual duration and the completion time as timestamp, and leaves the
    active tasks as they were before startTask. *)
Theorem startTask_completeTask_roundtrip (cfg : Config) (now now' : Z)
        (rnd : string) (c : TaskCategory) (x : TaskComplexity) (s : State) :
  ~ In (fst (startTask now rnd c x s)) (obj_keys (activeTasks s)) ->
  exists e s',
    completeTask cfg now' (Some (fst (startTask now rnd c x s)))
                 (snd (startTask now rnd c x s)) = Typed (Some e, s')
    /\ h_taskId e = fst (startTask now rnd c x s)
    /\ h_category e = c /\ h_complexity e = x
    /\ h_estimatedMs e = Math_round (getBaseline s c x)
    /\ h_actualMs e = (now' - now)%Z
    /\ h_timestamp e = now'
    /\ activeTasks s' = activeTasks s.
Proof.
  unfold startTask. cbn [fst snd]. intros Hfresh.
  set (tid := ("task_" ++ show_Z now ++ "_" ++ rnd)%string) in *.
  set (task := mkActive tid c x now (Math_round (getBaseline s c x))).
  assert (Hne : tid <> ""%string) by (unfold tid; simpl; discriminate).
  unfold completeTask. cbn [activeTasks].
  rewrite (EstimatorProofs.resolveTask_explicit tid task _ Hne
             (obj_get_set_same tid task (activeTasks s))).
  eexists. eexists. split; [reflexivity|]. cbn.
  repeat split. now apply obj_delete_set_fresh.
Qed.

Lemma startTask_completeTask_roundtrip_witness :
  ~ In (fst (startTask 1000 "a" coding moderate (initialState 0)))
       (obj_keys (activeTasks (initialState 0)))
  /\ exists e s',
       completeTask defaultConfig 5000
         (Some (fst (startTask 1000 "a" coding moderate (initialState 0))))
         (snd (startTask 1000 "a" coding moderate (initialState 0)))
       = Typed (Some e, s')
       /\ h_actualMs e = 4000%Z.
Proof.
  assert (H : ~ In (fst (startTask 1000 "a" coding moderate (initialState 0)))
                   (obj_keys (activeTasks (initialState 0))))
    by (simpl; tauto).
  split; [exact H|].
  destruct (startTask_completeTask_roundtrip defaultConfig 1000 5000 "a" coding
              moderate (initialState 0) H)
    as [e [s' [He [_ [_ [_ [_ [Ha _]]]]]]]].
  exists e, s'. split; [exact He|exact Ha].
Defined.

Lemma skipn_snoc {A} (k : nat) (l : list A) (a : A) :
  (k <= List.length l)%nat -> skipn k (l ++ [a]) = skipn k l ++ [a].
Proof.
  revert k. induction l as [|b l IH]; intros [|k] H; simpl in *; try reflexivity; try lia.
  apply IH. lia.
Qed.

(** X10: A successful completeTask appends its entry at the end of the
    history, drops entries from the front only, and only once the history
    would exceed 1000 entries; the entry carries the call time and an
    accuracy in [0, 1]. completeTask returns null only when no task is
    active, and then changes nothing. The one call that returns neither
    null nor the entry of an active task is the call on an id that is no
    key but names a member that every plain object inherits (such as
    constructor): it goes on with that member. *)
Theorem completeTask_appends_bounded (cfg : Config) (now : Z)
        (tid : option string) (s : State) :
  match completeTask cfg now tid s with
  | Typed (Some e, s') =>
      exists dropped older,
        taskHistory s = dropped ++ older
        /\ taskHistory s' = older ++ [e]
        /\ (List.length (taskHistory s') <= 1000)%nat
        /\ ((List.length (taskHistory s) < 1000)%nat -> dropped = [])
        /\ h_timestamp e = now
        /\ (0 <= h_accuracy e <= 1)%Q
        /\ bootTime s' = bootTime s
  | Typed (None, s') =>
      s' = s /\ activeTasks s = [] /\ ~ hitsMember tid (activeTasks s)
  | OnMember => hitsMember tid (activeTasks s)
  end.
Proof.
  destruct (completeTask cfg now tid s) as [[[e|] s']|] eqn:E.
  - destruct (LearningProofs.completeTask_history _ _ _ _ _ _ E) as [Hh [Ht Ha]].
    assert (Hb : bootTime s' = bootTime s).
    { unfold completeTask in E.
      destruct (resolveTask tid (activeTasks s)) as [[[task|] rem]|];
        [|discriminate|discriminate]. now injection E as _ <-. }
    set (h := taskHistory s) in *.
    destruct (Nat.ltb_spec 1000 (List.length (h ++ [e]))) as [Hlt|Hge].
    + exists (firstn (List.length (h ++ [e]) - 1000) h),
             (skipn (List.length (h ++ [e]) - 1000) h).
      rewrite length_app in *. cbn [List.length] in *.
      split; [now rewrite firstn_skipn|].
      split.
      { rewrite Hh. unfold bounded. rewrite length_app. cbn [List.length].
        destruct (Nat.ltb_spec 1000 (List.length h + 1)); [|lia].
        apply skipn_snoc. lia. }
      split; [rewrite Hh; apply LearningProofs.bounded_length|].
      split; [intros Hl; lia|].
      split; [exact Ht|]. split; [exact Ha|exact Hb].
    + exists [], h. rewrite length_app in *. cbn [List.length] in *.
      split; [reflexivity|].
      split.
      { rewrite Hh. unfold bounded. rewrite length_app. cbn [List.length].
        destruct (Nat.ltb_spec 1000 (List.length h + 1)); [lia|reflexivity]. }
      split; [rewrite Hh; apply LearningProofs.bounded_length|].
      split; [reflexivity|].
      split; [exact Ht|]. split; [exact Ha|exact Hb].
  - assert (Hn : ~ hitsMember tid (activeTasks s)).
    { intros Hm. apply (EstimatorProofs.completeTask_member cfg now) in Hm.
      congruence. }
    unfold completeTask in E.
    destruct (resolveTask tid (activeTasks s)) as [[[task|] rem]|] eqn:Er;
      [discriminate| |discriminate].
    injection E as <-. split; [reflexivity|]. split; [|exact Hn].
    destruct (activeTasks s) as [|kv m] eqn:Em; [reflexivity|exfalso].
    destruct (@exists_last _ (kv :: m) ltac:(discriminate)) as [m0 [[k t] El]].
    rewrite El in Er. unfold resolveTask in Er.
    rewrite EstimatorProofs.last_values in Er.
    destruct tid as [k0|]; [|discriminate Er].
    destruct (String.eqb k0 ""); [discriminate Er|].
    destruct (obj_get k0 (m0 ++ [(k, t)])); [discriminate Er|].
    destruct (inherited k0); discriminate Er.
  - now apply (EstimatorProofs.completeTask_member cfg now).
Qed.

(** X11: For a learning rate in (0, 1] and a non-negative prior confidence,
    the mean returned by bayesianUpdate lies between the prior mean and the
    observed value, the returned confidence is at most 0.95 and not below a
    prior confidence that is at most 0.95, and a learning rate of 1 returns
    the observed value. *)
Theorem bayesianUpdate_blend (priorMean priorConfidence observed rate : Q) :
  (0 < rate)%Q -> (rate <= 1)%Q -> (0 <= priorConfidence)%Q ->
  (Math_min priorMean observed
   <= mean (bayesianUpdate priorMean priorConfidence observed rate)
   <= Math_max priorMean observed)%Q
  /\ (b_confidence (bayesianUpdate priorMean priorConfidence observed rate)
      <= 0.95)%Q
  /\ ((priorConfidence <= 0.95)%Q ->
      (priorConfidence
       <= b_confidence (bayesianUpdate priorMean priorConfidence observed rate))%Q)
  /\ ((rate == 1)%Q ->
      (mean (bayesianUpdate priorMean priorConfidence observed rate)
       == observed)%Q).
Proof.
  intros Hr0 Hr1 Hc. unfold bayesianUpdate. cbn [mean b_confidence].
  set (w := (priorConfidence * (1 - rate))%Q).
  assert (Hw : (0 <= w)%Q) by (unfold w; Lqa.nra).
  assert (Hd : (0 < w + rate)%Q) by Lqa.lra.
  split; [|split; [|split]].
  - unfold Math_min, Math_max.
    destruct (Qle_bool priorMean observed) eqn:E; ConfidenceProofs.qtests; split.
    + apply Qle_shift_div_l; [exact Hd|]. Lqa.nra.
    + apply Qle_shift_div_r; [exact Hd|]. Lqa.nra.
    + apply Qle_shift_div_l; [exact Hd|]. Lqa.nra.
    + apply Qle_shift_div_r; [exact Hd|]. Lqa.nra.
  - unfold Math_min. destruct (Qle_bool _ _) eqn:E; ConfidenceProofs.qtests; Lqa.lra.
  - intros H. unfold Math_min.
    destruct (Qle_bool _ _) eqn:E; ConfidenceProofs.qtests; Lqa.lra.
  - intros H1.
    assert (E : (w == 0)%Q) by (unfold w; rewrite H1; ring).
    rewrite E, H1. field.
Qed.

Lemma bayesianUpdate_blend_witness :
  (0 < 0.1)%Q /\ (0.1 <= 1)%Q /\ (0 <= 0.3)%Q
  /\ (Math_min 1000 2000 <= mean (bayesianUpdate 1000 0.3 2000 0.1)
      <= Math_max 1000 2000)%Q.
Proof.
  assert (H1 : (0 < 0.1)%Q) by Lqa.lra.
  assert (H2 : (0.1 <= 1)%Q) by Lqa.lra.
  assert (H3 : (0 <= 0.3)%Q) by Lqa.lra.
  split; [exact H1|]. split; [exact H2|]. split; [exact H3|].
  exact (proj1 (bayesianUpdate_blend 1000 0.3 2000 0.1 H1 H2 H3)).
Defined.

Lemma TaskCategory_eqb_eq a b : TaskCategory_eqb a b = true <-> a = b.
Proof. destruct a, b; simpl; split; congruence. Qed.

Lemma TaskComplexity_eqb_eq a b : TaskComplexity_eqb a b = true <-> a = b.
Proof. destruct a, b; simpl; split; congruence. Qed.

Lemma matches_iff c x h :
  matches c x h = true <-> h_category h = c /\ h_complexity h = x.
Proof.
  unfold matches. now rewrite andb_true_iff, TaskCategory_eqb_eq, TaskComplexity_eqb_eq.
Qed.

Lemma setBaseline_same c x b m : setBaseline c x b m c x = Some b.
Proof.
  unfold setBaseline.
  now rewrite (proj2 (TaskCategory_eqb_eq c c) eq_refl),
              (proj2 (TaskComplexity_eqb_eq x x) eq_refl).
Qed.

Lemma setBaseline_other c x b m c' x' :
  (c', x') <> (c, x) -> setBaseline c x b m c' x' = m c' x'.
Proof.
  intros H. unfold setBaseline.
  destruct (TaskCategory_eqb c' c) eqn:E1; [|reflexivity].
  destruct (TaskComplexity_eqb x' x) eqn:E2; [|reflexivity].
  apply TaskCategory_eqb_eq in E1. apply TaskComplexity_eqb_eq in E2.
  congruence.
Qed.

Lemma initializeBaselines_from_history (cfg : Config)
        (history : list TaskHistoryEntry) (c : TaskCategory) (x : TaskComplexity) :
  (initializeBaselines cfg history c x = None
   <-> filter (matches c x) history = [])
  /\ (forall e, filter (matches c x) history = [e] ->
        initializeBaselines cfg history c x
        = Some (mkBaseline (inject_Z (h_actualMs e)) 0.4%Q)).
Proof.
  unfold initializeBaselines.
  set (f := fun (m : Baselines) entry =>
       let c := h_category entry in
       let x := h_complexity entry in
       match m c x with
       | Some existing =>
           setBaseline c x
             (bayesianUpdate (mean existing) (b_confidence existing)
                             (inject_Z (h_actualMs entry)) (learningRate cfg)) m
       | None =>
           setBaseline c x (mkBaseline (inject_Z (h_actualMs entry)) 0.4%Q) m
       end).
  assert (Hstep : forall m entry,
            (matches c x entry = false -> f m entry c x = m c x)
            /\ (matches c x entry = true -> f m entry c x <> None)
            /\ (matches c x entry = true -> m c x = None ->
                f m entry c x = Some (mkBaseline (inject_Z (h_actualMs entry)) 0.4%Q))).
  { intros m entry. unfold f. cbv zeta. repeat split.
    - intros Hm.
      assert (Hne : (c, x) <> (h_category entry, h_complexity entry)).
      { intros [= -> ->]. rewrite LearningProofs.matches_refl in Hm. discriminate. }
      destruct (m (h_category entry) (h_complexity entry));
        now rewrite setBaseline_other.
    - intros Hm. apply matches_iff in Hm. destruct Hm as [<- <-].
      destruct (m (h_category entry) (h_complexity entry));
        rewrite setBaseline_same; discriminate.
    - intros Hm Hn. apply matches_iff in Hm. destruct Hm as [<- <-].
      rewrite Hn. now rewrite setBaseline_same. }
  assert (G : forall h m,
            (fold_left f h m c x = None
             <-> m c x = None /\ filter (matches c x) h = [])
            /\ (filter (matches c x) h = [] -> fold_left f h m c x = m c x)).
  { induction h as [|entry h IH]; intros m; simpl.
    - split; [tauto|reflexivity].
    - destruct (IH (f m entry)) as [IH1 IH2].
      destruct (Hstep m entry) as [H1 [H2 H3]].
      destruct (matches c x entry) eqn:Em.
      + split.
        * rewrite IH1. split; [|intros [_ H]; discriminate].
          intros [H _]. exfalso. now apply H2.
        * discriminate.
      + split.
        * rewrite IH1, (H1 eq_refl). tauto.
        * intros Hf. rewrite (IH2 Hf). now apply H1. }
  split.
  - destruct (G history noBaselines) as [G1 _].
    etransitivity; [exact G1|]. unfold noBaselines. tauto.
  - intros e He. clear -He G Hstep.
    assert (G2 : forall h m, m c x = None -> filter (matches c x) h = [e] ->
                   fold_left f h m c x
                   = Some (mkBaseline (inject_Z (h_actualMs e)) 0.4%Q)).
    { induction h as [|entry h IH]; intros m Hm Hf; simpl in *; [discriminate|].
      destruct (Hstep m entry) as [H1 [H2 H3]].
      destruct (matches c x entry) eqn:Em.
      - injection Hf as -> Hf.
        rewrite (proj2 (G h (f m e)) Hf). now apply H3.
      - apply IH; [|exact Hf]. now rewrite (H1 eq_refl). }
    exact (G2 history noBaselines eq_refl He).
Qed.

(** X12: A successful completeTask changes the learned baseline of the
    completed task's (category, complexity) pair only, and the new
    confidence of that pair is min(0.95, prior confidence + learningRate *
    0.1), the prior confidence being 0.3 for a pair without a learned
    baseline. A call that returns null changes nothing; the remaining case
    is the call on an inherited name that is no active id. *)
Theorem completeTask_learns_one_pair (cfg : Config) (now : Z)
        (tid : option string) (s : State) :
  match completeTask cfg now tid s with
  | Typed (Some e, s') =>
      (forall c x, (c, x) <> (h_category e, h_complexity e) ->
                   learnedBaselines s' c x = learnedBaselines s c x)
      /\ exists b,
           learnedBaselines s' (h_category e) (h_complexity e) = Some b
           /\ b_confidence b
              = Math_min 0.95
                  (match learnedBaselines s (h_category e) (h_complexity e) with
                   | Some prior => b_confidence prior
                   | None => 0.3
                   end + learningRate cfg * 0.1)%Q
  | Typed (None, s') => s' = s
  | OnMember => hitsMember tid (activeTasks s)
  end.
Proof.
  pose proof (EstimatorProofs.completeTask_member cfg now tid s) as Hmem.
  unfold completeTask in *.
  destruct (resolveTask tid (activeTasks s)) as [[[task|] rem]|];
    [|reflexivity|now apply Hmem].
  cbn [learnedBaselines h_category h_complexity]. split.
  - intros c x Hne. now apply setBaseline_other.
  - eexists. split; [apply setBaseline_same|].
    unfold bayesianUpdate. cbn [b_confidence].
    now destruct (learnedBaselines s (category task) (complexity task)).
Qed.

Lemma completeTask_short_history cfg now tid s e s' :
  (List.length (taskHistory s) < 1000)%nat ->
  completeTask cfg now tid s = Typed (Some e, s') ->
  taskHistory s' = taskHistory s ++ [e].
Proof.
  intros Hlen E.
  destruct (LearningProofs.completeTask_history _ _ _ _ _ _ E) as [Hh _].
  rewrite Hh. unfold bounded. rewrite length_app. cbn [List.length].
  destruct (Nat.ltb_spec 1000 (List.length (taskHistory s) + 1)); [lia|reflexivity].
Qed.

Lemma completeTask_first_baseline cfg now tid s e s' :
  completeTask cfg now tid s = Typed (Some e, s') ->
  learnedBaselines s (h_category e) (h_complexity e) = None ->
  exists live,
    learnedBaselines s' (h_category e) (h_complexity e) = Some live
    /\ b_confidence live = Math_min 0.95 (0.3 + learningRate cfg * 0.1)%Q.
Proof.
  unfold completeTask.
  destruct (resolveTask tid (activeTasks s)) as [[[task|] rem]|];
    [|discriminate|discriminate].
  intros E. injection E as <- <-.
  cbn [learnedBaselines h_category h_complexity]. intros Hnone.
  eexists. split; [apply setBaseline_same|].
  unfold bayesianUpdate. cbn [b_confidence]. now rewrite Hnone.
Qed.

(** X13: After the first completion of a pair (no learned baseline, no
    matching history, learning rate in [0, 1)) the baseline kept in memory
    has confidence 0.3 + learningRate * 0.1, whereas initializeBaselines run
    on the resulting history gives that pair confidence 0.4: rebuilding the
    baselines from the history does not reproduce the learned ones. *)
Theorem restart_changes_baseline (cfg : Config) (now : Z) (tid : option string)
        (s : State) :
  (0 <= learningRate cfg)%Q -> (learningRate cfg < 1)%Q ->
  (List.length (taskHistory s) < 1000)%nat ->
  match completeTask cfg now tid s with
  | Typed (Some e, s') =>
      learnedBaselines s (h_category e) (h_complexity e) = None ->
      filter (matches (h_category e) (h_complexity e)) (taskHistory s) = [] ->
      exists live rebuilt,
        learnedBaselines s' (h_category e) (h_complexity e) = Some live
        /\ initializeBaselines cfg (taskHistory s')
                               (h_category e) (h_complexity e) = Some rebuilt
        /\ (b_confidence live == 0.3 + learningRate cfg * 0.1)%Q
        /\ (b_confidence rebuilt == 0.4)%Q
        /\ (b_confidence live < b_confidence rebuilt)%Q
  | _ => True
  end.
Proof.
  intros Hr0 Hr1 Hlen.
  destruct (completeTask cfg now tid s) as [[[e|] s']|] eqn:Ec;
    [|exact I|exact I].
  intros Hnone Hfil.
  destruct (completeTask_first_baseline _ _ _ _ _ _ Ec Hnone) as [live [Hlive Hconf]].
  pose proof (completeTask_short_history _ _ _ _ _ _ Hlen Ec) as Hh'.
  assert (Hf : filter (matches (h_category e) (h_complexity e)) (taskHistory s')
               = [e]).
  { rewrite Hh', filter_app, Hfil. simpl.
    now rewrite LearningProofs.matches_refl. }
  destruct (initializeBaselines_from_history cfg (taskHistory s')
              (h_category e) (h_complexity e)) as [_ Hinit].
  exists live, (mkBaseline (inject_Z (h_actualMs e)) 0.4%Q).
  split; [exact Hlive|]. split; [now apply Hinit|].
  rewrite Hconf. cbn [b_confidence].
  assert (E : (Math_min 0.95 (0.3 + learningRate cfg * 0.1)
               == 0.3 + learningRate cfg * 0.1)%Q).
  { unfold Math_min. destruct (Qle_bool _ _) eqn:E;
      ConfidenceProofs.qtests; Lqa.lra. }
  split; [exact E|]. split; [reflexivity|]. rewrite E. Lqa.lra.
Qed.

Lemma restart_changes_baseline_witness :
  (0 <= learningRate defaultConfig)%Q
  /\ (learningRate defaultConfig < 1)%Q
  /\ (List.length (taskHistory oneActive) < 1000)%nat
  /\ match completeTask defaultConfig 5000 None oneActive with
     | Typed (Some e, s') =>
         learnedBaselines oneActive (h_category e) (h_complexity e) = None ->
         filter (matches (h_category e) (h_complexity e)) (taskHistory oneActive)
         = [] ->
         exists live rebuilt,
           learnedBaselines s' (h_category e) (h_complexity e) = Some live
           /\ initializeBaselines defaultConfig (taskHistory s')
                                  (h_category e) (h_complexity e) = Some rebuilt
           /\ (b_confidence live == 0.3 + learningRate defaultConfig * 0.1)%Q
           /\ (b_confidence rebuilt == 0.4)%Q
           /\ (b_confidence live < b_confidence rebuilt)%Q
     | _ => True
     end.
Proof.
  assert (H1 : (0 <= learningRate defaultConfig)%Q) by (simpl; Lqa.lra).
  assert (H2 : (learningRate defaultConfig < 1)%Q) by (simpl; Lqa.lra).
  assert (H3 : (List.length (taskHistory oneActive) < 1000)%nat) by (simpl; lia).
  split; [exact H1|]. split; [exact H2|]. split; [exact H3|].
  exact (restart_changes_baseline defaultConfig 5000 None oneActive H1 H2 H3).
Defined.

Lemma filter_cons_length {A} (p : A -> bool) (a : A) (l : list A) :
  List.length (filter p (a :: l))
  = ((if p a then 1 else 0) + List.length (filter p l))%nat.
Proof. simpl. now destruct (p a). Qed.

(** X14: The estimator's getStatistics reports the length of the history as
    totalTasks, per category the number of history entries of that category,
    counters that add up to totalTasks, and an average accuracy in [0, 1]
    when every recorded accuracy is. *)
Theorem getStatistics_totals (s : State) :
  totalTasks (getStatistics s) = Z.of_nat (List.length (taskHistory s))
  /\ sumCounts (categoryCounts (getStatistics s)) = totalTasks (getStatistics s)
  /\ (forall c, categoryCounts (getStatistics s) c
                = Z.of_nat (List.length
                    (filter (fun h => TaskCategory_eqb c (h_category h))
                            (taskHistory s))))
  /\ (Forall accuracyInRange (taskHistory s) ->
      (0 <= averageAccuracy (getStatistics s) <= 1)%Q).
Proof.
  unfold getStatistics. cbn [totalTasks averageAccuracy categoryCounts].
  set (h := taskHistory s).
  assert (Hc : forall l counts c,
             fold_left
               (fun (counts : TaskCategory -> Z) entry =>
                  fun c => if TaskCategory_eqb c (h_category entry)
                           then (counts c + 1)%Z else counts c) l counts c
             = (counts c
                + Z.of_nat (List.length
                    (filter (fun h => TaskCategory_eqb c (h_category h)) l)))%Z).
  { induction l as [|e l IH]; intros counts c; simpl; [lia|].
    rewrite IH. destruct (TaskCategory_eqb c (h_category e)); simpl; lia. }
  split; [reflexivity|]. split; [|split].
  - unfold sumCounts. rewrite !Hc.
    assert (Hs : forall l : list TaskHistoryEntry,
               (Z.of_nat (List.length (filter (fun h => TaskCategory_eqb research (h_category h)) l))
                + Z.of_nat (List.length (filter (fun h => TaskCategory_eqb coding (h_category h)) l))
                + Z.of_nat (List.length (filter (fun h => TaskCategory_eqb writing (h_category h)) l))
                + Z.of_nat (List.length (filter (fun h => TaskCategory_eqb analysis (h_category h)) l))
                + Z.of_nat (List.length (filter (fun h => TaskCategory_eqb communication (h_category h)) l))
                + Z.of_nat (List.length (filter (fun h => TaskCategory_eqb scheduling (h_category h)) l))
                + Z.of_nat (List.length (filter (fun h => TaskCategory_eqb file_operations (h_category h)) l))
                + Z.of_nat (List.length (filter (fun h => TaskCategory_eqb web_browsing (h_category h)) l))
                + Z.of_nat (List.length (filter (fun h => TaskCategory_eqb other (h_category h)) l))
                = Z.of_nat (List.length l))%Z).
    { induction l as [|e l IH]; [reflexivity|].
      rewrite !filter_cons_length. revert IH.
      repeat match goal with
        | |- context [List.length (filter ?p l)] =>
            generalize (List.length (filter p l)); intro
        end.
      intros IH. change (List.length (e :: l)) with (S (List.length l)).
      destruct (h_category e); cbn [TaskCategory_eqb]; lia. }
    rewrite <- (Hs h). lia.
  - intros c. rewrite Hc. lia.
  - intros Hr.
    assert (Hsum : forall l acc, Forall accuracyInRange l ->
               (acc <= fold_left (fun sum h => sum + h_accuracy h) l acc
                <= acc + inject_Z (Z.of_nat (List.length l)))%Q).
    { induction l as [|e l IH]; intros acc Hl.
      - simpl. unfold inject_Z. Lqa.lra.
      - inversion Hl as [|? ? [He0 He1] Hl']; subst.
        specialize (IH (acc + h_accuracy e)%Q Hl').
        cbn [fold_left List.length]. rewrite Nat2Z.inj_succ.
        unfold Z.succ. rewrite inject_Z_plus.
        change (inject_Z 1) with 1%Q. Lqa.lra. }
    destruct (Z.ltb_spec 0 (Z.of_nat (List.length h))) as [Hpos|Hz].
    + specialize (Hsum h 0%Q Hr).
      assert (Hn : (0 < inject_Z (Z.of_nat (List.length h)))%Q)
        by (unfold Qlt, inject_Z; simpl; lia).
      split.
      * apply Qle_shift_div_l; [exact Hn|]. Lqa.lra.
      * apply Qle_shift_div_r; [exact Hn|]. Lqa.lra.
    + split; vm_compute; discriminate.
Qed.
End HistoryProofs.

(** ** The shape of an estimate *)
Module EstimateShapeProofs.
Import Confidence Estimator.
Local Open Scope R_scope.

(** X15: For a pair with no matching history and no learned baseline,
    estimate returns the default duration (base duration times complexity
    multiplier) rounded as expected value, that duration divided and
    multiplied by 1.5 as minimum and maximum, confidence 0.3 and zero
    samples; the expected value is at least 7500 ms for every pair. *)
Theorem estimate_without_history (cfg : Config) (now : Z) (s : State)
        (c : TaskCategory) (x : TaskComplexity) :
  filter (matches c x) (taskHistory s) = [] ->
  learnedBaselines s c x = None ->
  let b := (inject_Z (BASE_DURATION_MS c) * COMPLEXITY_MULTIPLIERS x)%Q in
  estimate cfg now s c x
  = mkEstimate (Num (IZR (JS.round_R (Q2R b / (1 + 0.5)))))
               (Num (IZR (Math_round b)))
               (Num (IZR (JS.round_R (Q2R b * (1 + 0.5)))))
               (Num 0.3) 0 c x
  /\ (7500 <= Math_round b)%Z.
Proof.
  intros Hf Hl b. split.
  - unfold estimate, getBaseline. rewrite Hf, Hl. fold b.
    cbn [calculateVariance List.length Nat.ltb Nat.leb filter
         calculateConfidence JS.add JS.mul JS.round].
    unfold JS.div. destruct (Req_dec_T (1 + 0.5) 0) as [E|_]; [Lra.lra|].
    reflexivity.
  - unfold b. destruct c, x; vm_compute; discriminate.
Qed.

Lemma estimate_without_history_witness :
  filter (matches coding moderate) (taskHistory (initialState 0)) = []
  /\ learnedBaselines (initialState 0) coding moderate = None
  /\ (7500 <= Math_round (inject_Z (BASE_DURATION_MS coding)
                          * COMPLEXITY_MULTIPLIERS moderate))%Z.
Proof.
  split; [reflexivity|]. split; [reflexivity|].
  exact (proj2 (estimate_without_history defaultConfig 0 (initialState 0)
                  coding moderate eq_refl eq_refl)).
Defined.

Lemma sumR_from (l : list R) (a : R) : fold_left Rplus l a = a + sumR l.
Proof.
  unfold sumR. revert a. induction l as [|v l IH]; intros a; simpl; [ring|].
  rewrite IH, (IH (0 + v)). ring.
Qed.

Lemma sumR_constant (l : list R) (a : R) :
  Forall (fun v => v = a) l -> sumR l = INR (List.length l) * a.
Proof.
  induction 1 as [|v l Hv Hl IH].
  - unfold sumR. simpl. ring.
  - unfold sumR. cbn [fold_left]. rewrite sumR_from, IH, Hv.
    change (List.length (a :: l)) with (S (List.length l)). rewrite S_INR. ring.
Qed.

(** X16: When at least two history entries match the pair and all of them
    have the same non-zero actual duration, calculateVariance is 0 and
    estimate returns minimum = expected = maximum. *)
Theorem estimate_collapses_on_equal_durations (cfg : Config) (now : Z)
        (s : State) (c : TaskCategory) (x : TaskComplexity) (a : Z) :
  (2 <= List.length (filter (matches c x) (taskHistory s)))%nat ->
  a <> 0%Z ->
  Forall (fun h => h_actualMs h = a) (filter (matches c x) (taskHistory s)) ->
  calculateVariance (filter (matches c x) (taskHistory s)) = Num 0
  /\ minimumMs (estimate cfg now s c x) = expectedMs (estimate cfg now s c x)
  /\ maximumMs (estimate cfg now s c x) = expectedMs (estimate cfg now s c x).
Proof.
  intros Hlen Ha Hall.
  set (l := filter (matches c x) (taskHistory s)) in *.
  assert (Hv : calculateVariance l = Num 0).
  { unfold calculateVariance.
    destruct (Nat.ltb_spec (List.length l) 2) as [Hlt|_]; [lia|]. cbv zeta.
    set (actuals := map (fun h => IZR (h_actualMs h)) l).
    assert (Hact : Forall (fun v => v = IZR a) actuals).
    { unfold actuals. apply Forall_map. eapply Forall_impl; [|exact Hall].
      intros h Hh. simpl. now rewrite Hh. }
    assert (Hn : INR (List.length actuals) <> 0).
    { unfold actuals. rewrite length_map. apply not_0_INR. lia. }
    assert (Hmean : sumR actuals / INR (List.length actuals) = IZR a).
    { rewrite (sumR_constant _ _ Hact). field. exact Hn. }
    rewrite Hmean.
    assert (Hsq : Forall (fun v => v = 0) (map (fun v => (v - IZR a) ^ 2) actuals)).
    { apply Forall_map. eapply Forall_impl; [|exact Hact].
      intros v Hv. simpl. rewrite Hv. ring. }
    rewrite (EstimateProofs.sumR_zeros _ Hsq).
    replace (0 / INR (List.length actuals)) with 0 by (unfold Rdiv; ring).
    rewrite sqrt_0. unfold JS.div.
    assert (Hz : IZR a <> 0) by (apply not_0_IZR; exact Ha).
    destruct (Req_dec_T (IZR a) 0) as [E|_]; [contradiction|].
    f_equal. unfold Rdiv. ring. }
  split; [exact Hv|].
  unfold estimate. cbn [minimumMs maximumMs expectedMs]. fold l. rewrite Hv.
  cbn [JS.add JS.mul]. unfold JS.div.
  destruct (Req_dec_T (1 + 0) 0) as [E|_]; [Lra.lra|].
  cbn [JS.round].
  rewrite <- EstimateRangeProofs.round_R_Q.
  split; do 2 f_equal; f_equal; field.
Qed.

Lemma estimate_collapses_on_equal_durations_witness :
  (2 <= List.length (filter (matches coding moderate)
                            (taskHistory (perfectTasks 2))))%nat
  /\ 600000%Z <> 0%Z
  /\ Forall (fun h => h_actualMs h = 600000%Z)
            (filter (matches coding moderate) (taskHistory (perfectTasks 2)))
  /\ calculateVariance (filter (matches coding moderate)
                               (taskHistory (perfectTasks 2))) = Num 0.
Proof.
  assert (H1 : (2 <= List.length (filter (matches coding moderate)
                                  (taskHistory (perfectTasks 2))))%nat)
    by (vm_compute; lia).
  assert (H2 : 600000%Z <> 0%Z) by discriminate.
  assert (H3 : Forall (fun h => h_actualMs h = 600000%Z)
                 (filter (matches coding moderate) (taskHistory (perfectTasks 2))))
    by (vm_compute; repeat constructor).
  split; [exact H1|]. split; [exact H2|]. split; [exact H3|].
  exact (proj1 (estimate_collapses_on_equal_durations defaultConfig 0
                  (perfectTasks 2) coding moderate 600000 H1 H2 H3)).
Defined.
End EstimateShapeProofs.

(** ** The memory store *)
Module StoreProofs.
Import Memory.
Local Open Scope R_scope.

Section WithDigest.
Variable md5hex : string -> string.

(** X18: addEntry stores the new entry under its id, with access count 0 and
    the call time as timestamp; getEntry on that id then returns the entry
    with one access recorded and stores that record. Other keys are
    untouched, an id already present keeps its place in the key order and a
    new id goes last. *)
Theorem addEntry_getEntry (cfg : Config) (now now' : Z) (text : string)
        (context : option TemporalContext) (s : Store) :
  let e := fst (addEntry md5hex cfg now text context s) in
  let s1 := snd (addEntry md5hex cfg now text context s) in
  obj_get (id e) s1 = Some e
  /\ accessCount e = 0%Z /\ timestamp e = now /\ content e = text
  /\ fst (getEntry now' (id e) s1) = Typed (Some (recordAccess now' e))
  /\ obj_get (id e) (snd (getEntry now' (id e) s1)) = Some (recordAccess now' e)
  /\ (forall k, k <> id e -> obj_get k s1 = obj_get k s)
  /\ (In (id e) (obj_keys s) -> obj_keys s1 = obj_keys s)
  /\ (~ In (id e) (obj_keys s) -> obj_keys s1 = obj_keys s ++ [id e]).
Proof.
  unfold addEntry. cbn [fst snd id accessCount timestamp content].
  set (k := substring 0 16 (md5hex (text ++ show_Z now))).
  set (e := mkMemory k text now 1.0 1.0 0 now
                     (if includeTemporalContext cfg then context else None) []).
  assert (Hg : obj_get k (obj_set k e s) = Some e) by apply obj_get_set_same.
  split; [exact Hg|]. split; [reflexivity|]. split; [reflexivity|].
  split; [reflexivity|].
  unfold getEntry. rewrite Hg. cbn [fst snd].
  split; [reflexivity|].
  split; [rewrite obj_get_modify, String.eqb_refl, Hg; reflexivity|].
  split; [intros k0 Hk; now apply obj_get_set_other|].
  split; [apply obj_set_existing_keys|].
  intros Hn. rewrite (obj_set_fresh k e s Hn).
  unfold obj_keys. rewrite map_app. reflexivity.
Qed.
End WithDigest.

Lemma obj_get_Some_key {V} (m : obj V) k v : obj_get k m = Some v -> In k (obj_keys m).
Proof.
  intros H. apply obj_get_In in H. unfold obj_keys. apply in_map_iff.
  now exists (k, v).
Qed.

(** X19: removeEntry returns true exactly when the id is a key of the index
    or names a member that every plain object inherits (such as toString);
    afterwards the id is no key and every other key is unchanged; a false
    result, and any call on an id that is no key, leaves the index
    unchanged; removing the same id again returns true only for an
    inherited name. *)
Theorem removeEntry_removes_key (k : string) (s : Store) :
  (fst (removeEntry k s) = true <-> In k (obj_keys s) \/ inherited k = true)
  /\ obj_get k (snd (removeEntry k s)) = None
  /\ (forall k', k' <> k -> obj_get k' (snd (removeEntry k s)) = obj_get k' s)
  /\ (fst (removeEntry k s) = false -> snd (removeEntry k s) = s)
  /\ (~ In k (obj_keys s) -> snd (removeEntry k s) = s)
  /\ removeEntry k (snd (removeEntry k s))
     = (inherited k, snd (removeEntry k s)).
Proof.
  unfold removeEntry.
  destruct (obj_get k s) as [e|] eqn:E; cbn [fst snd].
  - assert (Hin : In k (obj_keys s)) by now apply (obj_get_Some_key s k e).
    split; [split; [intros _; now left|reflexivity]|].
    split; [apply obj_get_delete_same|].
    split; [intros k' Hk; now apply obj_get_delete_other|].
    split; [discriminate|].
    split; [intros Hn; contradiction|].
    now rewrite obj_get_delete_same.
  - assert (Hout : ~ In k (obj_keys s)).
    { intros Hin. unfold obj_keys in Hin. apply in_map_iff in Hin.
      destruct Hin as [[k0 v0] [E0 Hin]]. simpl in E0. subst k0.
      clear -E Hin. induction s as [|[k1 v1] s IH]; [destruct Hin|].
      simpl in E. destruct (String.eqb_spec k1 k) as [->|Hne]; [discriminate|].
      destruct Hin as [H|H]; [injection H as -> _; contradiction|auto]. }
    split; [split; [intros H; now right|intros [H|H]; [contradiction|exact H]]|].
    split; [exact E|]. split; [reflexivity|]. split; [reflexivity|].
    split; [reflexivity|]. now rewrite E.
Qed.

(** X20: prune returns the number of removed entries (never negative) and
    keeps exactly the entries that fail its test; an entry accessed more
    often than minAccessCount is always kept, an entry older than the cutoff
    with at most minAccessCount accesses is always removed, and pruning
    again with the same arguments removes nothing. *)
Theorem prune_keeps_accessed (now : Z) (options : PruneOptions) (s : Store) :
  let maxAge := match p_maxAgeDays options with Some d => d | None => 90 end in
  let minAccessCount :=
    match p_minAccessCount options with Some c => c | None => 0 end in
  let cutoff := IZR now - maxAge * IZR MS_PER_DAY in
  let n := fst (prune now options s) in
  let kept := snd (prune now options s) in
  n = (Z.of_nat (List.length s) - Z.of_nat (List.length kept))%Z
  /\ (0 <= n)%Z
  /\ (forall kv, In kv kept <->
                 In kv s /\ shouldPrune cutoff minAccessCount (snd kv) = false)
  /\ (forall kv, In kv s -> minAccessCount < IZR (accessCount (snd kv)) ->
                 In kv kept)
  /\ (forall kv, In kv s -> IZR (timestamp (snd kv)) < cutoff ->
                 IZR (accessCount (snd kv)) <= minAccessCount ->
                 ~ In kv kept)
  /\ prune now options kept = (0%Z, kept).
Proof.
  cbv zeta. unfold prune. cbn [fst snd].
  set (cutoff := IZR now - match p_maxAgeDays options with Some d => d | None => 90 end
                             * IZR MS_PER_DAY).
  set (minA := match p_minAccessCount options with Some c => c | None => 0 end).
  set (keep := fun kv : string * TemporalMemoryEntry =>
                 negb (shouldPrune cutoff minA (snd kv))).
  assert (Hin : forall kv, In kv (filter keep s) <->
                  In kv s /\ shouldPrune cutoff minA (snd kv) = false).
  { intros kv. rewrite filter_In. unfold keep. now rewrite negb_true_iff. }
  split; [reflexivity|].
  split; [pose proof (filter_length_le keep s); lia|].
  split; [exact Hin|].
  split.
  { intros kv Hs Hacc. apply Hin. split; [exact Hs|].
    unfold shouldPrune, geR.
    destruct (Rle_dec (IZR (accessCount (snd kv))) minA) as [Hle|_]; [Lra.lra|].
    now rewrite !andb_false_r. }
  split.
  { intros kv Hs Hold Hacc Hk. apply Hin in Hk. destruct Hk as [_ Hk].
    unfold shouldPrune, geR in Hk.
    destruct (Rlt_dec (IZR (timestamp (snd kv))) cutoff) as [_|Hn]; [|contradiction].
    destruct (Rle_dec (IZR (accessCount (snd kv))) minA) as [_|Hn]; [|contradiction].
    discriminate Hk. }
  assert (E : filter keep (filter keep s) = filter keep s).
  { clear. induction s as [|a s IH]; simpl; [reflexivity|].
    destruct (keep a) eqn:Ea; simpl; [rewrite Ea, IH|]; auto. }
  rewrite E, Z.sub_diag. reflexivity.
Qed.
End StoreProofs.

(** ** Ranking of the search results *)
Module RankingProofs.
Import Memory MemoryProofs.
Local Open Scope R_scope.

Lemma slice0_sorted {A} (le : A -> A -> Prop) (n : Z) (l : list A) :
  StronglySorted le l -> StronglySorted le (slice0 n l).
Proof.
  destruct (slice0_prefix n l) as [rest E]. revert E.
  generalize (slice0 n l) as pre. intros pre E. subst l. revert rest.
  induction pre as [|a pre IH]; intros rest H; [constructor|].
  simpl in H. inversion H as [|? ? Hs Hall]; subst.
  constructor; [now apply (IH rest)|].
  apply Forall_app in Hall. tauto.
Qed.

Lemma slice0_length {A} (n : Z) (l : list A) :
  (0 <= n)%Z -> (Z.of_nat (List.length (slice0 n l)) <= n)%Z.
Proof.
  intros H. unfold slice0. destruct (Z.ltb_spec n 0) as [?|_]; [lia|].
  rewrite length_firstn. lia.
Qed.

Lemma slice0_length_le {A} (n : Z) (l : list A) :
  (List.length (slice0 n l) <= List.length l)%nat.
Proof.
  unfold slice0. destruct (n <? 0)%Z; rewrite length_firstn; lia.
Qed.

(** Elements of a sorted list left out by a prefix come after every
    element of the prefix. *)
Lemma slice0_dominates {A} (le : A -> A -> Prop) (n : Z) (l : list A) :
  StronglySorted le l ->
  exists rest, l = slice0 n l ++ rest
               /\ forall a b, In a (slice0 n l) -> In b rest -> le a b.
Proof.
  destruct (slice0_prefix n l) as [rest E]. exists rest.
  split; [now symmetry|]. revert E H.
  generalize (slice0 n l) as pre. intros pre E. subst l.
  induction pre as [|x pre IH]; intros H a b Ha Hb; [destruct Ha|].
  simpl in H. inversion H as [|? ? Hs Hall]; subst.
  destruct Ha as [->|Ha]; [|now apply IH].
  apply Forall_app in Hall. destruct Hall as [_ Hall].
  exact (proj1 (Forall_forall _ _) Hall b Hb).
Qed.

Lemma byRelevanceDesc_sorted (l : list TemporalMemoryEntry) :
  StronglySorted (fun a b => relevanceScore b <= relevanceScore a)
                 (js_sort byRelevanceDesc l).
Proof.
  apply js_sort_sorted_any.
  - intros x y. unfold byRelevanceDesc.
    destruct (Rle_dec (relevanceScore y - relevanceScore x) 0); [Lra.lra|discriminate].
  - intros x y. unfold byRelevanceDesc.
    destruct (Rle_dec (relevanceScore y - relevanceScore x) 0); [discriminate|Lra.lra].
  - intros x y z. Lra.lra.
Qed.

Lemma rankedResults_scored cfg now query options s r :
  In r (rankedResults cfg now query options s) ->
  relevanceScore r = scoreRelevance cfg (tokenize query) r
  /\ match minRelevance options with Some m => m | None => 0.1 end
     <= relevanceScore r
  /\ decayScore r
     = exponentialDecay 1.0 (decayHalfLifeDays cfg * IZR MS_PER_DAY)
                        (IZR now - IZR (timestamp r))
  /\ exists e, In e (obj_values s)
               /\ timestamp r = timestamp e /\ accessCount r = accessCount e
               /\ content r = content e /\ id r = id e.
Proof.
  unfold rankedResults. intros Hr. apply slice0_In in Hr.
  apply (Permutation_in _ (js_sort_perm_any _ _)) in Hr.
  apply filter_In in Hr. destruct Hr as [Hr Hge].
  split; [|split; [|split]].
  - apply in_map_iff in Hr. destruct Hr as [e [<- _]]. reflexivity.
  - unfold geR in Hge.
    now destruct (Rle_dec _ (relevanceScore r)).
  - apply in_map_iff in Hr. destruct Hr as [e1 [<- Hr]].
    apply in_map_iff in Hr. destruct Hr as [e [<- Hr]]. reflexivity.
  - apply in_map_iff in Hr. destruct Hr as [e1 [<- Hr]].
    apply in_map_iff in Hr. destruct Hr as [e [<- Hr]].
    apply filter_In in Hr. exists e. cbn. tauto.
Qed.

(** X21: The results of search are sorted by descending relevance, each has
    a relevance of at least minRelevance (0.1 by default) which is the score
    computed from the query terms, there are at most limit of them for a
    non-negative limit (10 by default), and never more than the index holds. *)
Theorem search_results_ranked (cfg : Config) (now : Z) (query : string)
        (options : MemorySearchOptions) (s : Store) :
  let lim := match limit options with Some l => l | None => 10%Z end in
  let minRel := match minRelevance options with Some r => r | None => 0.1 end in
  let results := fst (search cfg now query options s) in
  StronglySorted (fun a b => relevanceScore b <= relevanceScore a) results
  /\ Forall (fun r => minRel <= relevanceScore r) results
  /\ Forall (fun r => relevanceScore r = scoreRelevance cfg (tokenize query) r)
            results
  /\ ((0 <= lim)%Z -> (Z.of_nat (List.length results) <= lim)%Z)
  /\ (List.length results <= List.length s)%nat.
Proof.
  cbv zeta. unfold search. cbn [fst]. unfold rankedResults.
  set (lim := match limit options with Some l => l | None => 10%Z end).
  set (minRel := match minRelevance options with Some r => r | None => 0.1 end).
  set (scored := map _ (map _ (filter _ (obj_values s)))).
  split; [apply slice0_sorted, byRelevanceDesc_sorted|].
  assert (Hin : forall r, In r (slice0 lim (js_sort byRelevanceDesc
                   (filter (fun e => geR (relevanceScore e) minRel) scored))) ->
                 In r scored /\ geR (relevanceScore r) minRel = true).
  { intros r Hr. apply slice0_In in Hr.
    apply (Permutation_in _ (js_sort_perm_any _ _)) in Hr.
    now apply filter_In in Hr. }
  split.
  { apply Forall_forall. intros r Hr. apply Hin in Hr. destruct Hr as [_ Hr].
    unfold geR in Hr. now destruct (Rle_dec minRel (relevanceScore r)). }
  split.
  { apply Forall_forall. intros r Hr. apply Hin in Hr. destruct Hr as [Hr _].
    unfold scored in Hr. apply in_map_iff in Hr. destruct Hr as [e [<- _]].
    reflexivity. }
  split; [apply slice0_length|].
  etransitivity; [apply slice0_length_le|].
  rewrite (Permutation_length (js_sort_perm_any _ _)).
  etransitivity; [apply filter_length_le|].
  unfold scored. rewrite !length_map.
  etransitivity; [apply filter_length_le|].
  unfold obj_values. now rewrite length_map.
Qed.

Lemma INR_ratio_range (m n : nat) : (m <= n)%nat -> (0 < n)%nat -> 0 <= INR m / INR n <= 1.
Proof.
  intros Hle Hpos. apply lt_INR in Hpos. apply le_INR in Hle. simpl in Hpos.
  pose proof (pos_INR m) as Hm.
  split.
  - apply Rmult_le_pos; [exact Hm|]. left. now apply Rinv_0_lt_compat.
  - apply (Rmult_le_reg_r (INR n)); [exact Hpos|].
    unfold Rdiv. rewrite Rmult_assoc, Rinv_l by Lra.lra. Lra.lra.
Qed.

(** X22: With a positive minRelevance, every result of search has a content
    token that contains, or is contained in, a token of the query; a query
    without tokens (only words of one or two characters) returns no result
    and leaves the index unchanged. *)
Theorem search_needs_matching_term (cfg : Config) (now : Z) (query : string)
        (options : MemorySearchOptions) (s : Store) :
  0 < match minRelevance options with Some m => m | None => 0.1 end ->
  (forall r, In r (fst (search cfg now query options s)) ->
     exists qt ct, In qt (tokenize query) /\ In ct (tokenize (content r))
                   /\ (includes ct qt || includes qt ct) = true)
  /\ (tokenize query = [] -> search cfg now query options s = ([], s)).
Proof.
  intros Hmin.
  assert (H1 : forall r, In r (rankedResults cfg now query options s) ->
     exists qt ct, In qt (tokenize query) /\ In ct (tokenize (content r))
                   /\ (includes ct qt || includes qt ct) = true).
  { intros r Hr. destruct (rankedResults_scored _ _ _ _ _ _ Hr) as [E [Hge _]].
    rewrite E in Hge. unfold scoreRelevance in Hge.
    set (hits := filter _ (tokenize query)) in Hge.
    destruct hits as [|qt hits'] eqn:Eh.
    - exfalso. simpl in Hge.
      destruct (0 <? List.length (tokenize query))%nat.
      + unfold Rdiv in Hge. rewrite !Rmult_0_l in Hge. Lra.lra.
      + rewrite !Rmult_0_l in Hge. Lra.lra.
    - assert (Hq : In qt hits) by (rewrite Eh; now left).
      unfold hits in Hq. apply filter_In in Hq. destruct Hq as [Hq Hex].
      apply existsb_exists in Hex. destruct Hex as [ct [Hct Hinc]].
      now exists qt, ct. }
  split; [exact H1|].
  intros Hq. unfold search.
  destruct (rankedResults cfg now query options s) as [|r rs] eqn:Er;
    [reflexivity|].
  destruct (H1 r (or_introl eq_refl)) as [qt [_ [Hin _]]].
  rewrite Hq in Hin. destruct Hin.
Qed.

Lemma search_needs_matching_term_witness :
  0 < 0.1
  /\ (forall r, In r (fst (search defaultConfig 2000 "hello" noOptions helloStore)) ->
        exists qt ct, In qt (tokenize "hello") /\ In ct (tokenize (content r))
                      /\ (includes ct qt || includes qt ct) = true)
  /\ (tokenize "hello" = [] ->
      search defaultConfig 2000 "hello" noOptions helloStore = ([], helloStore)).
Proof.
  assert (H : 0 < match minRelevance noOptions with Some m => m | None => 0.1 end)
    by (simpl; Lra.lra).
  split; [Lra.lra|].
  exact (search_needs_matching_term defaultConfig 2000 "hello" noOptions helloStore H).
Defined.

(** X23: With a positive half-life, a non-negative recency boost, and stored
    entries that are not from the future and have non-negative access
    counts, every result of search has a decay score in (0, 1] and a
    relevance between 0 and max(1, relevanceBoostRecent) * 1.2. *)
Theorem search_scores_range (cfg : Config) (now : Z) (query : string)
        (options : MemorySearchOptions) (s : Store) :
  0 < decayHalfLifeDays cfg ->
  0 <= relevanceBoostRecent cfg ->
  Forall (fun kv => (timestamp (snd kv) <= now)%Z
                    /\ (0 <= accessCount (snd kv))%Z) s ->
  Forall (fun r => 0 < decayScore r <= 1
                   /\ 0 <= relevanceScore r
                      <= Rmax 1 (relevanceBoostRecent cfg) * 1.2)
         (fst (search cfg now query options s)).
Proof.
  intros Hh Hb Hs. apply Forall_forall. intros r Hr.
  unfold search in Hr. cbn [fst] in Hr.
  destruct (rankedResults_scored _ _ _ _ _ _ Hr)
    as [E [_ [Ed [e [He [Et [Ea _]]]]]]].
  assert (Hkv : (timestamp r <= now)%Z /\ (0 <= accessCount r)%Z).
  { unfold obj_values in He. apply in_map_iff in He.
    destruct He as [kv [<- Hkv]].
    rewrite Et, Ea. exact (proj1 (Forall_forall _ _) Hs kv Hkv). }
  destruct Hkv as [Hts Hac].
  assert (Hd : 0 < decayScore r <= 1).
  { rewrite Ed. unfold exponentialDecay.
    set (age := IZR now - IZR (timestamp r)).
    set (hl := decayHalfLifeDays cfg * IZR MS_PER_DAY).
    assert (Hhl : 0 < hl) by (unfold hl, MS_PER_DAY; Lra.nra).
    assert (Hage : 0 <= age) by (unfold age; apply IZR_le in Hts; Lra.lra).
    assert (Hq : 0 <= age / hl).
    { apply Rmult_le_pos; [exact Hage|]. left. now apply Rinv_0_lt_compat. }
    unfold Rpower.
    pose proof (exp_pos (age / hl * ln (1 / 2))) as Hpos.
    split; [Lra.lra|].
    assert (Hle : exp (age / hl * ln (1 / 2)) <= 1).
    { pose proof DecayProofs.ln_half_neg as Hln.
      assert (Hneg : age / hl * ln (1 / 2) <= 0) by Lra.nra.
      destruct Hneg as [Hlt|Heq].
      - apply exp_increasing in Hlt. rewrite exp_0 in Hlt. Lra.lra.
      - rewrite Heq, exp_0. Lra.lra. }
    Lra.lra. }
  split; [exact Hd|].
  rewrite E. unfold scoreRelevance.
  set (hits := filter _ (tokenize query)).
  assert (Hbase : 0 <= (if (0 <? List.length (tokenize query))%nat
                        then INR (List.length hits)
                             / INR (List.length (tokenize query))
                        else 0) <= 1).
  { destruct (Nat.ltb_spec 0 (List.length (tokenize query))) as [Hpos|_]; [|Lra.lra].
    apply INR_ratio_range; [apply filter_length_le|exact Hpos]. }
  set (base := if (0 <? List.length (tokenize query))%nat then _ else _) in *.
  assert (Hboost : 0 <= (if Rlt_dec 0.8 (decayScore r)
                         then relevanceBoostRecent cfg else 1.0)
                   <= Rmax 1 (relevanceBoostRecent cfg)).
  { destruct (Rlt_dec 0.8 (decayScore r)).
    - split; [exact Hb|apply Rmax_r].
    - split; [Lra.lra|]. pose proof (Rmax_l 1 (relevanceBoostRecent cfg)). Lra.lra. }
  set (boost := if Rlt_dec 0.8 (decayScore r) then _ else _) in *.
  assert (Hacc : 1 <= 1 + Rmin 0.2 (IZR (accessCount r) * 0.02) <= 1.2).
  { apply IZR_le in Hac. split.
    - assert (0 <= Rmin 0.2 (IZR (accessCount r) * 0.02))
        by (apply Rmin_glb; Lra.lra). Lra.lra.
    - pose proof (Rmin_l 0.2 (IZR (accessCount r) * 0.02)). Lra.lra. }
  set (acc := 1 + Rmin 0.2 (IZR (accessCount r) * 0.02)) in *.
  set (M := Rmax 1 (relevanceBoostRecent cfg)) in *.
  destruct Hd as [Hd0 Hd1].
  assert (H1 : 0 <= base * boost <= M) by Lra.nra.
  assert (H2 : 0 <= base * boost * decayScore r <= M) by Lra.nra.
  Lra.nra.
Qed.

Lemma search_scores_range_witness :
  0 < decayHalfLifeDays defaultConfig
  /\ 0 <= relevanceBoostRecent defaultConfig
  /\ Forall (fun r => 0 < decayScore r <= 1
                      /\ 0 <= relevanceScore r
                         <= Rmax 1 (relevanceBoostRecent defaultConfig) * 1.2)
            (fst (search defaultConfig 2000 "hello" noOptions helloStore)).
Proof.
  assert (H1 : 0 < decayHalfLifeDays defaultConfig) by (simpl; Lra.lra).
  assert (H2 : 0 <= relevanceBoostRecent defaultConfig) by (simpl; Lra.lra).
  assert (H3 : Forall (fun kv => (timestamp (snd kv) <= 2000)%Z
                                 /\ (0 <= accessCount (snd kv))%Z) helloStore)
    by (repeat constructor; simpl; lia).
  split; [exact H1|]. split; [exact H2|].
  exact (search_scores_range defaultConfig 2000 "hello" noOptions helloStore
           H1 H2 H3).
Defined.

End RankingProofs.

(** ** Task links, recent memories and tokens *)
Module IndexProofs.
Import Memory MemoryProofs StoreProofs RankingProofs.






(** X25: getRecentMemories returns stored entries sorted by descending
    timestamp, every entry left out is no newer than any returned one, and
    for a non-negative limit the number returned is the minimum of the limit
    and the size of the index. *)
Theorem getRecentMemories_newest_first (lim : option Z) (s : Store) :
  let n := match lim with Some l => l | None => 10%Z end in
  let recent := getRecentMemories lim s in
  StronglySorted (descending timestamp) recent
  /\ (exists rest,
        Permutation (recent ++ rest) (obj_values s)
        /\ forall a b, In a recent -> In b rest ->
                       (timestamp b <= timestamp a)%Z)
  /\ ((0 <= n)%Z ->
      Z.of_nat (List.length recent) = Z.min n (Z.of_nat (List.length s))).
Proof.
  cbv zeta. unfold getRecentMemories.
  set (n := match lim with Some l => l | None => 10%Z end).
  assert (Hs : StronglySorted (descending timestamp)
                 (js_sort byTimestampDesc (obj_values s)))
    by exact (js_sort_sorted timestamp (obj_values s)).
  split; [now apply slice0_sorted|].
  split.
  - destruct (slice0_dominates (descending timestamp) n _ Hs) as [rest [E Hdom]].
    exists rest. split; [|exact Hdom].
    rewrite <- E. apply js_sort_perm_any.
  - intros Hn. unfold slice0.
    destruct (Z.ltb_spec n 0) as [?|_]; [lia|].
    rewrite length_firstn, (Permutation_length (js_sort_perm_any _ _)).
    unfold obj_values. rewrite length_map. lia.
Qed.

(** *** tokenize *)

Lemma mapChars_compose f g t :
  mapChars f (mapChars g t) = mapChars (fun c => f (g c)) t.
Proof.
  unfold mapChars. now rewrite list_ascii_of_string_of_list_ascii, map_map.
Qed.

Lemma toLower_twice c : toLower (toLower c) = toLower c.
Proof. destruct c as [[] [] [] [] [] [] [] []]; reflexivity. Qed.

Lemma cleaned_char c :
  let c' := (fun c => if isWord c || isSpace c then c else " "%char) (toLower c) in
  isSpace c' = true \/ tokenChar c' = true.
Proof. destruct c as [[] [] [] [] [] [] [] []]; vm_compute; tauto. Qed.

Lemma splitSpaces_chars (cs : list ascii) : forall cur inSep,
  Forall (fun c => isSpace c = true \/ tokenChar c = true) cs ->
  Forall (fun c => tokenChar c = true) cur ->
  Forall (fun t => Forall (fun c => tokenChar c = true) (list_ascii_of_string t))
         (splitSpaces cs cur inSep).
Proof.
  induction cs as [|c cs IH]; intros cur inSep Hcs Hcur; simpl.
  - constructor; [|constructor].
    rewrite list_ascii_of_string_of_list_ascii. now apply Forall_rev.
  - inversion Hcs as [|? ? Hc Hrest]; subst.
    destruct (isSpace c) eqn:Es.
    + destruct inSep; [now apply IH|].
      constructor; [|apply IH; [exact Hrest|constructor]].
      rewrite list_ascii_of_string_of_list_ascii. now apply Forall_rev.
    + apply IH; [exact Hrest|].
      constructor; [|exact Hcur]. destruct Hc; congruence.
Qed.

Lemma string_length_list t : String.length t = List.length (list_ascii_of_string t).
Proof. induction t; simpl; congruence. Qed.

(** X26: On ASCII text, every token returned by tokenize has at least three
    characters, all of them digits, lower-case letters or underscores; and
    tokenize gives the same tokens for a text and for its lower-case form. *)
Theorem tokenize_shape (text : string) :
  Forall (fun t => (3 <= String.length t)%nat
                   /\ Forall (fun c => tokenChar c = true)
                             (list_ascii_of_string t))
         (tokenize text)
  /\ tokenize (mapChars toLower text) = tokenize text.
Proof.
  split.
  - unfold tokenize. apply Forall_forall. intros t Ht.
    apply filter_In in Ht. destruct Ht as [Ht Hlen].
    split; [apply Nat.ltb_lt in Hlen; lia|]. clear Hlen.
    revert t Ht. apply Forall_forall. apply splitSpaces_chars; [|constructor].
    rewrite mapChars_compose. unfold mapChars.
    rewrite list_ascii_of_string_of_list_ascii.
    apply Forall_forall. intros c Hc. apply in_map_iff in Hc.
    destruct Hc as [c0 [<- _]]. apply cleaned_char.
  - unfold tokenize. rewrite (mapChars_compose toLower toLower).
    unfold mapChars at 2 4.
    now rewrite (map_ext _ _ toLower_twice).
Qed.

End IndexProofs.

(** ** Durations, ranges and deadlines *)
Module TimeFormatProofs.
Import TimeMath Translator.

Lemma Qltb_lt (a b : Q) : Qltb a b = true <-> (a < b)%Q.
Proof.
  unfold Qltb. rewrite negb_true_iff. split.
  - apply ConfidenceProofs.Qle_bool_false.
  - intros H. destruct (Qle_bool b a) eqn:E; [|reflexivity].
    apply Qle_bool_iff in E. exfalso. exact (Qlt_not_le _ _ H E).
Qed.

Lemma Qltb_ge (a b : Q) : Qltb a b = false <-> (b <= a)%Q.
Proof.
  unfold Qltb. rewrite negb_false_iff. apply Qle_bool_iff.
Qed.

Lemma Math_round_eq (n : Z) (q : Q) :
  (inject_Z n - (1 # 2) <= q)%Q -> (q < inject_Z n + (1 # 2))%Q -> Math_round q = n.
Proof.
  intros H1 H2. unfold Math_round.
  pose proof (Qfloor_le (q + (1 # 2))) as F1.
  pose proof (Qlt_floor (q + (1 # 2))) as F2.
  assert (A : (inject_Z (Qfloor (q + (1 # 2))) < inject_Z (n + 1))%Q).
  { rewrite inject_Z_plus. change (inject_Z 1) with 1%Q. Lqa.lra. }
  assert (B : (inject_Z n < inject_Z (Qfloor (q + (1 # 2)) + 1))%Q) by Lqa.lra.
  rewrite <- Zlt_Qlt in A, B. lia.
Qed.

Lemma Math_round_div_eq (n k : Z) (ms : Q) :
  (0 < k)%Z ->
  ((inject_Z n - (1 # 2)) * inject_Z k <= ms)%Q ->
  (ms < (inject_Z n + (1 # 2)) * inject_Z k)%Q ->
  Math_round (ms / inject_Z k) = n.
Proof.
  intros Hk H1 H2.
  assert (Hq : (0 < inject_Z k)%Q) by (unfold Qlt, inject_Z; simpl; lia).
  apply Math_round_eq.
  - now apply Qle_shift_div_l.
  - now apply Qlt_shift_div_r.
Qed.

(** X27: formatDuration rounds within a unit without carrying to the next
    one: it returns '60 seconds' (precise mode) for 59500 <= ms < 60000, and
    in both modes '60 minutes' for the last half minute of an hour, '24
    hours' for the last half hour of a day and '7 days' for the last half
    day of a week. *)
Theorem formatDuration_boundary_rounding (precise : bool) (ms : Q) :
  ((59500 <= ms)%Q -> (ms < 60000)%Q ->
   formatDuration true ms = "60 seconds"%string)
  /\ ((3570000 <= ms)%Q -> (ms < 3600000)%Q ->
      formatDuration precise ms = "60 minutes"%string)
  /\ ((84600000 <= ms)%Q -> (ms < 86400000)%Q ->
      formatDuration precise ms = "24 hours"%string)
  /\ ((561600000 <= ms)%Q -> (ms < 604800000)%Q ->
      formatDuration precise ms = "7 days"%string).
Proof.
  unfold formatDuration, MS_PER_SECOND, MS_PER_MINUTE, MS_PER_HOUR, MS_PER_DAY,
    MS_PER_WEEK.
  repeat apply conj; intros Hlo Hhi.
  - assert (T1 : Qltb ms (inject_Z 1000) = false) by (apply Qltb_ge; unfold inject_Z; Lqa.lra).
    assert (T2 : Qltb ms (inject_Z 60000) = true) by (apply Qltb_lt; unfold inject_Z; Lqa.lra).
    rewrite T1, T2.
    rewrite (Math_round_div_eq 60); [reflexivity|reflexivity| |];
      unfold inject_Z; Lqa.lra.
  - assert (T1 : Qltb ms (inject_Z 1000) = false) by (apply Qltb_ge; unfold inject_Z; Lqa.lra).
    assert (T2 : Qltb ms (inject_Z 60000) = false) by (apply Qltb_ge; unfold inject_Z; Lqa.lra).
    assert (T3 : Qltb ms (inject_Z 3600000) = true) by (apply Qltb_lt; unfold inject_Z; Lqa.lra).
    rewrite T1, T2, T3.
    rewrite (Math_round_div_eq 60); [now destruct precise|reflexivity| |];
      unfold inject_Z; Lqa.lra.
  - assert (T1 : Qltb ms (inject_Z 1000) = false) by (apply Qltb_ge; unfold inject_Z; Lqa.lra).
    assert (T2 : Qltb ms (inject_Z 60000) = false) by (apply Qltb_ge; unfold inject_Z; Lqa.lra).
    assert (T3 : Qltb ms (inject_Z 3600000) = false) by (apply Qltb_ge; unfold inject_Z; Lqa.lra).
    assert (T4 : Qltb ms (inject_Z 86400000) = true) by (apply Qltb_lt; unfold inject_Z; Lqa.lra).
    rewrite T1, T2, T3, T4.
    rewrite (Math_round_div_eq 24); [now destruct precise|reflexivity| |];
      unfold inject_Z; Lqa.lra.
  - assert (T1 : Qltb ms (inject_Z 1000) = false) by (apply Qltb_ge; unfold inject_Z; Lqa.lra).
    assert (T2 : Qltb ms (inject_Z 60000) = false) by (apply Qltb_ge; unfold inject_Z; Lqa.lra).
    assert (T3 : Qltb ms (inject_Z 3600000) = false) by (apply Qltb_ge; unfold inject_Z; Lqa.lra).
    assert (T4 : Qltb ms (inject_Z 86400000) = false) by (apply Qltb_ge; unfold inject_Z; Lqa.lra).
    assert (T5 : Qltb ms (inject_Z 604800000) = true) by (apply Qltb_lt; unfold inject_Z; Lqa.lra).
    rewrite T1, T2, T3, T4, T5.
    rewrite (Math_round_div_eq 7); [now destruct precise|reflexivity| |];
      unfold inject_Z; Lqa.lra.
Qed.

Lemma compare_self (s : string) : String.compare s s = Eq.
Proof.
  pose proof (String.compare_antisym s s) as H.
  destruct (String.compare s s); simpl in H; congruence.
Qed.

(** X28: isTimeInRange with start = end contains no time at all; for start
    <> end a time is in the range from end to start exactly when it is not
    in the range from start to end, so a range and its overnight reverse
    partition the day. *)
Theorem isTimeInRange_partition (current start finish : string) :
  (start = finish -> isTimeInRange current start finish = false)
  /\ (start <> finish ->
      isTimeInRange current finish start
      = negb (isTimeInRange current start finish)).
Proof.
  unfold isTimeInRange, String.leb, String.ltb. split.
  - intros <-. rewrite compare_self.
    rewrite (String.compare_antisym current start).
    now destruct (String.compare start current).
  - intros Hne.
    rewrite (String.compare_antisym finish start),
      (String.compare_antisym finish current),
      (String.compare_antisym current start).
    destruct (String.compare start finish) eqn:E1.
    + apply String.compare_eq_iff in E1. contradiction.
    + now destruct (String.compare start current), (String.compare current finish).
    + now destruct (String.compare start current), (String.compare current finish).
Qed.

(** X29: For a non-zero deadline, the deadline tiers of the scheduler's
    calculatePriority and the urgency levels of timeUntilDeadline use the
    same thresholds: a past deadline is critical and scores 1.0; a future
    deadline that leaves enough time scores 0.9, 0.8, 0.6, 0.3 for critical,
    high, medium, low. A deadline equal to now scores 1.0 as overdue in
    calculatePriority although timeUntilDeadline reports it as not past and
    getOverdueTasks does not list it. *)
Theorem deadline_tiers_agree (now d : Z) (expected : Q) :
  d <> 0%Z ->
  let info := timeUntilDeadline now d in
  ((d < now)%Z ->
     d_isPast info = true /\ d_urgencyLevel info = critical
     /\ Scheduler.deadlineScore now expected (Some d) = 1.0%Q)
  /\ (d = now ->
      d_isPast info = false /\ d_urgencyLevel info = critical
      /\ Scheduler.deadlineScore now expected (Some d) = 1.0%Q
      /\ forall t, Scheduler.deadline t = Some d ->
                   Scheduler.isOverdue now t = false)
  /\ ((now < d)%Z -> (expected <= inject_Z (d - now))%Q ->
      d_isPast info = false
      /\ Scheduler.deadlineScore now expected (Some d)
         = match d_urgencyLevel info with
           | critical => 0.9 | high => 0.8 | medium => 0.6 | low => 0.3
           end%Q).
Proof.
  intros Hd. cbv zeta.
  unfold timeUntilDeadline, Scheduler.deadlineScore.
  cbn [d_isPast d_urgencyLevel].
  destruct (Z.eqb_spec d 0) as [?|_]; [contradiction|].
  unfold MS_PER_HOUR, MS_PER_DAY.
  repeat apply conj.
  - intros Hlt.
    destruct (Z.ltb_spec (d - now) 0); [|lia].
    destruct (Z.leb_spec (d - now) 0); [|lia]. auto.
  - intros ->. rewrite Z.sub_diag. simpl. repeat apply conj; try reflexivity.
    intros t Ht. unfold Scheduler.isOverdue. rewrite Ht, Z.ltb_irrefl.
    now rewrite andb_false_r.
  - intros Hlt Hexp.
    destruct (Z.ltb_spec (d - now) 0); [lia|].
    destruct (Z.leb_spec (d - now) 0); [lia|].
    apply Qle_bool_iff in Hexp. rewrite Hexp. cbn [negb orb].
    split; [reflexivity|].
    destruct (d - now <? 3600000)%Z; [reflexivity|].
    destruct (d - now <? 3600000 * 4)%Z; [reflexivity|].
    now destruct (d - now <? 86400000)%Z.
Qed.

Lemma deadline_tiers_agree_witness :
  5000%Z <> 0%Z
  /\ d_isPast (timeUntilDeadline 1000 5000) = false
  /\ Scheduler.deadlineScore 1000 100 (Some 5000%Z)
     = match d_urgencyLevel (timeUntilDeadline 1000 5000) with
       | critical => 0.9 | high => 0.8 | medium => 0.6 | low => 0.3
       end%Q.
Proof.
  assert (H : 5000%Z <> 0%Z) by discriminate.
  split; [exact H|].
  destruct (deadline_tiers_agree 1000 5000 100 H) as [_ [_ H3]].
  apply H3; [lia|]. unfold Qle, inject_Z. simpl. lia.
Defined.

(** X30: For a non-negative buffer percentage and estimate,
    formatDeadlineContext reports canComplete exactly when the estimate plus
    its buffer is strictly less than the time left; canComplete survives a
    smaller estimate and a later deadline; with four hours or more left the
    recommendation does not depend on the estimate; urgency and time
    remaining are those of timeUntilDeadline. *)
Theorem formatDeadlineContext_feasibility (cfg : Config) (now d : Z) (est : Q) :
  (0 <= defaultBufferPercent cfg)%Q -> (0 <= est)%Q ->
  let ctx := formatDeadlineContext cfg now d est in
  (canComplete ctx = true
   <-> (est + est * (defaultBufferPercent cfg / 100) < inject_Z (d - now))%Q)
  /\ (forall est', (est' <= est)%Q -> canComplete ctx = true ->
        canComplete (formatDeadlineContext cfg now d est') = true)
  /\ (forall d', (d <= d')%Z -> canComplete ctx = true ->
        canComplete (formatDeadlineContext cfg now d' est) = true)
  /\ ((MS_PER_HOUR * 4 <= d - now)%Z ->
      forall est', recommendation (formatDeadlineContext cfg now d est')
                   = recommendation ctx)
  /\ urgencyLevel ctx = d_urgencyLevel (timeUntilDeadline now d)
  /\ timeRemaining ctx = d_formatted (timeUntilDeadline now d).
Proof.
  intros Hb He. cbv zeta.
  unfold formatDeadlineContext, timeUntilDeadline.
  cbn [canComplete recommendation urgencyLevel timeRemaining
       d_isPast d_ms d_urgencyLevel d_formatted].
  set (b := (defaultBufferPercent cfg / 100)%Q).
  assert (Hb' : (0 <= b)%Q).
  { unfold b. apply Qle_shift_div_l; [reflexivity|]. Lqa.lra. }
  assert (Hcan : forall e d0,
             negb (d0 - now <? 0)%Z && Qltb (e + e * b) (inject_Z (d0 - now)) = true
             -> (e + e * b < inject_Z (d0 - now))%Q).
  { intros e d0 H. apply andb_true_iff in H. now apply Qltb_lt. }
  assert (Hcan' : forall e d0, (0 <= e + e * b)%Q ->
             (e + e * b < inject_Z (d0 - now))%Q ->
             negb (d0 - now <? 0)%Z && Qltb (e + e * b) (inject_Z (d0 - now)) = true).
  { intros e d0 Hpos H. apply andb_true_iff. split; [|now apply Qltb_lt].
    apply negb_true_iff, Z.ltb_ge.
    assert (Hq : (inject_Z 0 < inject_Z (d0 - now))%Q)
      by (eapply Qle_lt_trans; [exact Hpos|exact H]).
    rewrite <- Zlt_Qlt in Hq. lia. }
  assert (Hreq : (0 <= est + est * b)%Q) by Lqa.nra.
  repeat apply conj.
  - apply Hcan.
  - now apply Hcan'.
  - intros est' Hle H. apply Hcan in H.
    apply andb_true_iff. split.
    + apply negb_true_iff, Z.ltb_ge.
      assert (Hq : (inject_Z 0 < inject_Z (d - now))%Q)
        by (eapply Qle_lt_trans; [exact Hreq|exact H]).
      rewrite <- Zlt_Qlt in Hq. lia.
    + apply Qltb_lt. Lqa.nra.
  - intros d' Hle H. apply Hcan in H. apply Hcan'; [exact Hreq|].
    eapply Qlt_le_trans; [exact H|]. rewrite <- Zle_Qle. lia.
  - intros Hfar est'. unfold MS_PER_HOUR, MS_PER_DAY in *.
    destruct (Z.ltb_spec (d - now) 0); [lia|]. cbn [orb].
    destruct (Z.ltb_spec (d - now) 3600000); [lia|].
    destruct (Z.ltb_spec (d - now) (3600000 * 4)); [lia|].
    now destruct (d - now <? 86400000)%Z.
  - reflexivity.
  - reflexivity.
Qed.

Lemma formatDeadlineContext_feasibility_witness :
  (0 <= defaultBufferPercent defaultConfig)%Q
  /\ (0 <= 1000)%Q
  /\ (canComplete (formatDeadlineContext defaultConfig 1000 10000000 1000) = true
      <-> (1000 + 1000 * (defaultBufferPercent defaultConfig / 100)
           < inject_Z (10000000 - 1000))%Q).
Proof.
  assert (H1 : (0 <= defaultBufferPercent defaultConfig)%Q) by (simpl; Lqa.lra).
  assert (H2 : (0 <= 1000)%Q) by Lqa.lra.
  split; [exact H1|]. split; [exact H2|].
  exact (proj1 (formatDeadlineContext_feasibility defaultConfig 1000 10000000
                  1000 H1 H2)).
Defined.

End TimeFormatProofs.
